(** * data_cleaning: the ETL transform step (src/ETL/transform.py)

    A shallow embedding of the three text normalisers of the transform
    step (salary parser, address splitter, job-title classifier) and of
    the batch entry point [transform], followed by the properties the
    specification states about them.

    Python [str] values are lists of Unicode code points; the regular
    expressions of the source are kept as pattern text and run by a small
    backtracking matcher with the priorities of CPython's [re]; Python
    exceptions are values of a result type. *)

From Stdlib Require Import ZArith NArith Lia Bool.
From Stdlib Require Ascii String SpecFloat.
From stdpp Require Import base option list strings gmap.

Local Open Scope N_scope.

(* ===================================================================== *)
(** ** Python strings *)
(* ===================================================================== *)

(** A Python [str] is a sequence of code points. *)
Abbreviation str := (list N).

Module Utf8.

(** Source literals are written as UTF-8 text and decoded once. *)
Fixpoint bytes_of_string (s : String.string) : list N :=
  match s with
  | String.EmptyString => []
  | String.String a r => Ascii.N_of_ascii a :: bytes_of_string r
  end.

Fixpoint decode (bs : list N) : str :=
  match bs with
  | [] => []
  | b :: r =>
    if b <? 0x80 then b :: decode r
    else if b <? 0xE0 then
      match r with
      | b1 :: r1 => ((b - 0xC0) * 64 + (b1 - 0x80)) :: decode r1
      | _ => []
      end
    else if b <? 0xF0 then
      match r with
      | b1 :: b2 :: r2 =>
        ((b - 0xE0) * 4096 + (b1 - 0x80) * 64 + (b2 - 0x80)) :: decode r2
      | _ => []
      end
    else
      match r with
      | b1 :: b2 :: b3 :: r3 =>
        ((b - 0xF0) * 262144 + (b1 - 0x80) * 4096 + (b2 - 0x80) * 64
         + (b3 - 0x80)) :: decode r3
      | _ => []
      end
  end.

End Utf8.

(** [u "text"] is the Python string literal ["text"]. *)
Definition u (s : String.string) : str := Utf8.decode (Utf8.bytes_of_string s).
Arguments u s%_string.
(** Literals are compared as written; their code points are computed on
    demand. *)
#[global] Opaque u.

Definition str_eqb (a b : str) : bool := bool_decide (a = b).

(* ===================================================================== *)
(** ** Exceptions *)
(* ===================================================================== *)

Inductive exn : Type :=
| TypeError
| AttributeError
| ValueError (msg : str)
| IndexError
| KeyError (key : str)
| ReError.

Inductive result (A : Type) : Type :=
| Ok (a : A)
| Raise (e : exn).
Arguments Ok {A} a.
Arguments Raise {A} e.

#[global] Instance result_ret : MRet result := fun A a => Ok a.
#[global] Instance result_bind : MBind result := fun A B f m =>
  match m with
  | Ok a => f a
  | Raise e => Raise e
  end.

(** A list comprehension whose body may raise. *)
Fixpoint rmap {A B} (f : A -> result B) (l : list A) : result (list B) :=
  match l with
  | [] => Ok []
  | a :: r => b ← f a; bs ← rmap f r; Ok (b :: bs)
  end.


(* ===================================================================== *)
(** ** Python floats *)
(* ===================================================================== *)

(** Python's [float] is IEEE 754 binary64.  Every finite binary64 number
    is an integer multiple of the least subnormal 2^-1074, so a finite
    float is kept as a sign and that integer multiple: [FFin s n] stands
    for (-1)^s * n * 2^-1074.  Results of operations are rounded to
    nearest, ties to even. *)
Inductive pyfloat : Type :=
| FFin (neg : bool) (mag : Z)
| FInf (neg : bool)
| FNan.

Module Float.
Local Open Scope Z_scope.

(** Nearest integer to [p/d], ties to even ([0 <= p], [0 < d]). *)
Definition rne (p d : Z) : Z :=
  let q := p / d in
  let r := p mod d in
  if 2 * r <? d then q
  else if d <? 2 * r then q + 1
  else if Z.even q then q else q + 1.

(** Numbers in [2^(52+k), 2^(53+k)) are spaced 2^k apart (in units of
    2^-1074); below 2^53 the spacing is 1. *)
Definition grid_exp (p q : Z) : Z := Z.max 0 (Z.log2 (p / q) - 52).

(** [p/q] units rounded to the binary64 grid; [None] on overflow, that is
    when the rounded magnitude reaches 2^1024 = 2^2098 units. *)
Definition round_mag (p q : Z) : option Z :=
  let k := grid_exp p q in
  let n := rne p (q * 2 ^ k) * 2 ^ k in
  if n <? 2 ^ 2098 then Some n else None.

Definition round (neg : bool) (p q : Z) : pyfloat :=
  match round_mag p q with
  | Some n => FFin neg n
  | None => FInf neg
  end.

(** The float nearest to the rational [p/q]. *)
Definition of_ratio (p q : Z) : pyfloat := round false (p * 2 ^ 1074) q.

Definition of_Z (z : Z) : pyfloat := of_ratio z 1.

(** [a * b] *)
Definition mul (a b : pyfloat) : pyfloat :=
  match a, b with
  | FNan, _ | _, FNan => FNan
  | FInf s, FInf t => FInf (xorb s t)
  | FInf s, FFin t n | FFin t n, FInf s =>
    if n =? 0 then FNan else FInf (xorb s t)
  | FFin s x, FFin t y => round (xorb s t) (x * y) (2 ^ 1074)
  end.

Definition signed (neg : bool) (n : Z) : Z := if neg then - n else n.

(** [a <= b] *)
Definition leb (a b : pyfloat) : bool :=
  match a, b with
  | FNan, _ | _, FNan => false
  | FInf true, _ => true
  | _, FInf false => true
  | FInf false, _ => false
  | _, FInf true => false
  | FFin s x, FFin t y => signed s x <=? signed t y
  end.

(** [a == b] *)
Definition eqb (a b : pyfloat) : bool := leb a b && leb b a.

(** A float that is neither negative nor a NaN. *)
Definition nonneg (f : pyfloat) : Prop :=
  match f with
  | FFin false n => 0 <= n
  | FInf false => True
  | _ => False
  end.

(** A finite float above zero. *)
Definition positive (f : pyfloat) : Prop :=
  match f with
  | FFin false n => 0 < n
  | _ => False
  end.

(** The rounded magnitude before the overflow test. *)
Definition rounded (p q : Z) : Z :=
  rne p (q * 2 ^ grid_exp p q) * 2 ^ grid_exp p q.

(** The same number as a binary64 value of the Standard Library. *)
Definition to_spec (f : pyfloat) : SpecFloat.spec_float :=
  match f with
  | FFin s n => SpecFloat.binary_normalize 53 1024 n (-1074) s
  | FInf s => SpecFloat.S754_infinity s
  | FNan => SpecFloat.S754_nan
  end.

End Float.

(* ===================================================================== *)
(** ** Character data of the interpreter *)
(* ===================================================================== *)

Module Chr.

(** [str.isspace], [str.strip] and the pattern [\s] share one predicate
    (Py_UNICODE_ISSPACE). *)
Definition isspace (c : N) : bool :=
  (0x09 <=? c) && (c <=? 0x0D) || (0x1C <=? c) && (c <=? 0x20)
  || (c =? 0x85) || (c =? 0xA0) || (c =? 0x1680)
  || (0x2000 <=? c) && (c <=? 0x200A)
  || (c =? 0x2028) || (c =? 0x2029) || (c =? 0x202F) || (c =? 0x205F)
  || (c =? 0x3000).

(** The code points of the decimal digit zero of every script (general
    category Nd, Unicode 14.0); the digits 0..9 of a script follow their
    zero. *)
Definition DECIMAL_ZEROS : list N :=
  [0x30; 0x660; 0x6F0; 0x7C0; 0x966; 0x9E6; 0xA66; 0xAE6; 0xB66; 0xBE6;
   0xC66; 0xCE6; 0xD66; 0xDE6; 0xE50; 0xED0; 0xF20; 0x1040; 0x1090; 0x17E0;
   0x1810; 0x1946; 0x19D0; 0x1A80; 0x1A90; 0x1B50; 0x1BB0; 0x1C40; 0x1C50;
   0xA620; 0xA8D0; 0xA900; 0xA9D0; 0xA9F0; 0xAA50; 0xABF0; 0xFF10; 0x104A0;
   0x10D30; 0x11066; 0x110F0; 0x11136; 0x111D0; 0x112F0; 0x11450; 0x114D0;
   0x11650; 0x116C0; 0x11730; 0x118E0; 0x11950; 0x11C50; 0x11D50; 0x11DA0;
   0x16A60; 0x16AC0; 0x16B50; 0x1D7CE; 0x1D7D8; 0x1D7E2; 0x1D7EC; 0x1D7F6;
   0x1E140; 0x1E2F0; 0x1E950; 0x1FBF0].

Fixpoint digit_in (zeros : list N) (c : N) : option N :=
  match zeros with
  | [] => None
  | z :: r => if (z <=? c) && (c <=? z + 9) then Some (c - z) else digit_in r c
  end.

(** The value of a decimal digit (Py_UNICODE_TODECIMAL). *)
Definition todecimal (c : N) : option N := digit_in DECIMAL_ZEROS c.

(** [str.isdecimal] and the pattern [\d] (Py_UNICODE_ISDECIMAL). *)
Definition isdecimal (c : N) : bool :=
  match todecimal c with Some _ => true | None => false end.

End Chr.

(** The tables of the interpreter that are too large to spell out are
    parameters of the development: case mappings, the letters of [\w],
    canonical decomposition, the category of combining marks and the
    printing of floats.  [Latin.runtime] below is an instance for Latin
    and Vietnamese text, used to run the definitions. *)
Class Runtime : Type := {
  (** [s.lower()] *)
  str_lower : str -> str;
  (** simple case mappings of one code point (Py_UNICODE_TOLOWER and
      Py_UNICODE_TOUPPER), used by [re.IGNORECASE] *)
  chr_tolower : N -> N;
  chr_toupper : N -> N;
  (** [ch.isalnum()] *)
  chr_isalnum : N -> bool;
  (** [unicodedata.normalize("NFD", s)] *)
  unicodedata_nfd : str -> str;
  (** [unicodedata.category(ch) == "Mn"] *)
  category_is_Mn : N -> bool;
  (** [str(x)] for a float [x] *)
  float_str : pyfloat -> str
}.

(* ===================================================================== *)
(** ** Methods of [str] *)
(* ===================================================================== *)

Module Str.

Fixpoint lstrip (s : str) : str :=
  match s with
  | c :: r => if Chr.isspace c then lstrip r else s
  | [] => []
  end.

Definition rstrip (s : str) : str := reverse (lstrip (reverse s)).

(** [s.strip()] *)
Definition strip (s : str) : str := rstrip (lstrip s).

Fixpoint startswith (p s : str) : bool :=
  match p, s with
  | [], _ => true
  | a :: p', b :: s' => (a =? b) && startswith p' s'
  | _ :: _, [] => false
  end.

(** [p in s] *)
Fixpoint contains (p s : str) : bool :=
  startswith p s || match s with
                    | [] => false
                    | _ :: r => contains p r
                    end.

(** [s.replace(old, new)] for a non-empty [old]: occurrences are replaced
    from the left and do not overlap; [skip] counts the characters of an
    occurrence still to be passed over. *)
Fixpoint replace_from (old new : str) (skip : nat) (s : str) : str :=
  match s with
  | [] => []
  | c :: r =>
    match skip with
    | S k => replace_from old new k r
    | O => if startswith old s
           then new ++ replace_from old new (pred (length old)) r
           else c :: replace_from old new 0 r
    end
  end.

Definition replace (old new s : str) : str := replace_from old new 0 s.

Definition cons_head (c : N) (l : list str) : list str :=
  match l with
  | p :: ps => (c :: p) :: ps
  | [] => [[c]]
  end.

(** [s.split(sep)] for a non-empty [sep]. *)
Fixpoint split_from (sep : str) (skip : nat) (s : str) : list str :=
  match s with
  | [] => [[]]
  | c :: r =>
    match skip with
    | S k => split_from sep k r
    | O => if startswith sep s
           then [] :: split_from sep (pred (length sep)) r
           else cons_head c (split_from sep 0 r)
    end
  end.

Definition split (sep s : str) : list str := split_from sep 0 s.

(** [sep.join(l)] *)
Fixpoint join (sep : str) (l : list str) : str :=
  match l with
  | [] => []
  | [a] => a
  | a :: r => a ++ sep ++ join sep r
  end.

End Str.

(* ===================================================================== *)
(** ** Regular expressions *)
(* ===================================================================== *)

(** The fragment of [re] the program uses: literals, [.], sets, the
    classes [\d \s \w], the anchors [^ $ \b], groups, alternation, [?] on
    any item and [*], [+] on a one-character item.  Repetition is greedy
    and alternatives are tried left to right, as in CPython. *)
Module Re.

Inductive citem : Type :=
| CLit (c : N)
| CRange (lo hi : N)
| CDigit
| CSpace
| CWord.

(** An item that consumes exactly one character. *)
Inductive atom : Type :=
| AChar (c : N)
| AAny
| ASet (neg : bool) (items : list citem).

Inductive re : Type :=
| REps
| RAtom (a : atom)
| RStar (a : atom)
| RPlus (a : atom)
| ROpt (r : re)
| RSeq (r1 r2 : re)
| RAlt (r1 r2 : re)
| RGroup (n : nat) (r : re)
| RBol
| REol
| RWordB.

(** *** Reading a pattern *)

Definition class_of_escape (c : N) : option citem :=
  if c =? 0x64 then Some CDigit          (* \d *)
  else if c =? 0x73 then Some CSpace     (* \s *)
  else if c =? 0x77 then Some CWord      (* \w *)
  else None.

(** The items of a set, up to the closing bracket. *)
Fixpoint parse_set (s : str) : option (list citem * str) :=
  match s with
  | [] => None
  | c :: r =>
    if c =? 0x5D then Some ([], r)                       (* ] *)
    else if c =? 0x5C then                               (* \x *)
      match r with
      | x :: r1 =>
        let it := match class_of_escape x with Some k => k | None => CLit x end in
        '(its, rest) ← parse_set r1; Some (it :: its, rest)
      | [] => None
      end
    else
      match r with
      | d :: hi :: r2 =>
        if (d =? 0x2D) && negb (hi =? 0x5D)              (* lo-hi *)
        then '(its, rest) ← parse_set r2; Some (CRange c hi :: its, rest)
        else '(its, rest) ← parse_set r; Some (CLit c :: its, rest)
      | _ => '(its, rest) ← parse_set r; Some (CLit c :: its, rest)
      end
  end.

(** A quantifier after an item. *)
Definition quantify (r : re) (s : str) : option (re * str) :=
  match s with
  | q :: rest =>
    if q =? 0x3F then Some (ROpt r, rest)                (* ? *)
    else if q =? 0x2A then                               (* * *)
      match r with RAtom a => Some (RStar a, rest) | _ => None end
    else if q =? 0x2B then                               (* + *)
      match r with RAtom a => Some (RPlus a, rest) | _ => None end
    else Some (r, s)
  | [] => Some (r, s)
  end.

(** [parse_alt] reads alternatives up to a closing parenthesis or the end
    of the pattern, [parse_seq] one alternative; [n] is the number of
    capturing groups opened so far. *)
Fixpoint parse_alt (fuel : nat) (s : str) (n : nat) : option (re * str * nat) :=
  match fuel with
  | O => None
  | S fuel' =>
    '(r1, s1, n1) ← parse_seq fuel' s n;
    match s1 with
    | c :: s2 =>
      if c =? 0x7C then                                  (* | *)
        '(r2, s3, n2) ← parse_alt fuel' s2 n1; Some (RAlt r1 r2, s3, n2)
      else Some (r1, s1, n1)
    | [] => Some (r1, s1, n1)
    end
  end
with parse_seq (fuel : nat) (s : str) (n : nat) : option (re * str * nat) :=
  match fuel with
  | O => None
  | S fuel' =>
    match s with
    | [] => Some (REps, s, n)
    | c :: r =>
      if (c =? 0x7C) || (c =? 0x29) then Some (REps, s, n)
      else
        '(item, s1, n1) ←
          (if c =? 0x28 then                             (* ( *)
             match r with
             | 0x3F :: 0x3A :: r1 =>                     (* (?: *)
               '(g, s1, n1) ← parse_alt fuel' r1 n;
               match s1 with
               | 0x29 :: s2 => Some (g, s2, n1)
               | _ => None
               end
             | _ =>
               '(g, s1, n1) ← parse_alt fuel' r (S n);
               match s1 with
               | 0x29 :: s2 => Some (RGroup (S n) g, s2, n1)
               | _ => None
               end
             end
           else if c =? 0x5B then                        (* [ *)
             match r with
             | 0x5E :: r1 => '(its, s1) ← parse_set r1; Some (RAtom (ASet true its), s1, n)
             | _ => '(its, s1) ← parse_set r; Some (RAtom (ASet false its), s1, n)
             end
           else if c =? 0x5C then                        (* \x *)
             match r with
             | x :: r1 =>
               if x =? 0x62 then Some (RWordB, r1, n)    (* \b *)
               else match class_of_escape x with
                    | Some k => Some (RAtom (ASet false [k]), r1, n)
                    | None => Some (RAtom (AChar x), r1, n)
                    end
             | [] => None
             end
           else if c =? 0x2E then Some (RAtom AAny, r, n)
           else if c =? 0x5E then Some (RBol, r, n)
           else if c =? 0x24 then Some (REol, r, n)
           else Some (RAtom (AChar c), r, n));
        '(item', s2) ← quantify item s1;
        '(rest, s3, n3) ← parse_seq fuel' s2 n1;
        Some (match rest with REps => item' | _ => RSeq item' rest end, s3, n3)
    end
  end.

(** [re.compile(pattern)]; a pattern outside the fragment is an error. *)
Definition compile (pattern : str) : result re :=
  match parse_alt (S (S (length pattern))) pattern 0 with
  | Some (r, [], _) => Ok r
  | _ => Raise ReError
  end.

(** *** Matching *)

(** Lower-cased characters with further lower-cased characters of the same
    upper case (CPython's table [_EXTRA_CASES]). *)
Definition EXTRA_CASES : list (N * list N) :=
  [(0x69, [0x131]); (0x73, [0x17F]); (0xB5, [0x3BC]); (0x131, [0x69]);
   (0x17F, [0x73]); (0x345, [0x3B9; 0x1FBE]); (0x390, [0x1FD3]);
   (0x3B0, [0x1FE3]); (0x3B2, [0x3D0]); (0x3B5, [0x3F5]); (0x3B8, [0x3D1]);
   (0x3B9, [0x345; 0x1FBE]); (0x3BA, [0x3F0]); (0x3BC, [0xB5]);
   (0x3C0, [0x3D6]); (0x3C1, [0x3F1]); (0x3C2, [0x3C3]); (0x3C3, [0x3C2]);
   (0x3C6, [0x3D5]); (0x3D0, [0x3B2]); (0x3D1, [0x3B8]); (0x3D5, [0x3C6]);
   (0x3D6, [0x3C0]); (0x3F0, [0x3BA]); (0x3F1, [0x3C1]); (0x3F5, [0x3B5]);
   (0x432, [0x1C80]); (0x434, [0x1C81]); (0x43E, [0x1C82]);
   (0x441, [0x1C83]); (0x442, [0x1C84; 0x1C85]); (0x44A, [0x1C86]);
   (0x463, [0x1C87]); (0x1C80, [0x432]); (0x1C81, [0x434]);
   (0x1C82, [0x43E]); (0x1C83, [0x441]); (0x1C84, [0x442; 0x1C85]);
   (0x1C85, [0x442; 0x1C84]); (0x1C86, [0x44A]); (0x1C87, [0x463]);
   (0x1C88, [0xA64B]); (0x1E61, [0x1E9B]); (0x1E9B, [0x1E61]);
   (0x1FBE, [0x345; 0x3B9]); (0x1FD3, [0x390]); (0x1FE3, [0x3B0]);
   (0xA64B, [0x1C88]); (0xFB05, [0xFB06]); (0xFB06, [0xFB05])].

Definition extra_cases (lo : N) : list N :=
  match find (fun kv => fst kv =? lo) EXTRA_CASES with
  | Some kv => snd kv
  | None => []
  end.

Section Matcher.
Context {RT : Runtime}.

(** The pattern [\w]. *)
Definition isword (c : N) : bool := chr_isalnum c || (c =? 0x5F).

Definition iscased (c : N) : bool :=
  negb (c =? chr_tolower c) || negb (c =? chr_toupper c).

(** A literal of a pattern compiled with [re.I]: an uncased literal is
    compared as it is; a cased one by the lower case of the subject
    character, together with the extra cases of the literal. *)
Definition literal_ignore (l c : N) : bool :=
  if iscased l then
    let lo := chr_tolower l in
    existsb (N.eqb (chr_tolower c)) (lo :: extra_cases lo)
  else c =? l.

Definition citem_match (it : citem) (c : N) : bool :=
  match it with
  | CLit l => c =? l
  | CRange lo hi => (lo <=? c) && (c <=? hi)
  | CDigit => Chr.isdecimal c
  | CSpace => Chr.isspace c
  | CWord => isword c
  end.

(** [ic] is the flag [re.IGNORECASE]; the sets of the program's only
    [re.I] pattern hold no cased character and are matched as they are. *)
Definition atom_match (ic : bool) (a : atom) (c : N) : bool :=
  match a with
  | AChar l => if ic then literal_ignore l c else c =? l
  | AAny => negb (c =? 0x0A)
  | ASet neg items => xorb neg (existsb (fun it => citem_match it c) items)
  end.

Definition isword_opt (o : option N) : bool :=
  match o with Some c => isword c | None => false end.

(** [$] matches at the end and before a final newline. *)
Definition at_eol (s : str) : bool :=
  match s with
  | [] => true
  | [c] => c =? 0x0A
  | _ => false
  end.

(** The text captured by the groups that took part in a match, the most
    recently closed first. *)
Definition caps : Type := list (nat * str).

(** The state of a match attempt: the character before the current
    position ([None] at the start of the string), the text from the
    current position on and the captures so far. *)
Definition cont : Type := option N -> str -> caps -> option (str * caps).

(** Greedy repetition of a one-character item: the longest run is tried
    first and given back one character at a time. *)
Fixpoint star (p : N -> bool) (prev : option N) (s : str)
    (k : option N -> str -> option (str * caps)) : option (str * caps) :=
  match s with
  | c :: s' =>
    if p c then
      match star p (Some c) s' k with
      | Some x => Some x
      | None => k prev s
      end
    else k prev s
  | [] => k prev s
  end.

(** [exec ic r prev s cs k] matches [r] at the current position and hands
    the position after it to [k]; when [k] fails the next alternative of
    [r] is tried. *)
Fixpoint exec (ic : bool) (r : re) (prev : option N) (s : str) (cs : caps)
    (k : cont) : option (str * caps) :=
  match r with
  | REps => k prev s cs
  | RAtom a =>
    match s with
    | c :: s' => if atom_match ic a c then k (Some c) s' cs else None
    | [] => None
    end
  | RStar a => star (atom_match ic a) prev s (fun p' s' => k p' s' cs)
  | RPlus a =>
    match s with
    | c :: s' =>
      if atom_match ic a c
      then star (atom_match ic a) (Some c) s' (fun p' s' => k p' s' cs)
      else None
    | [] => None
    end
  | ROpt r1 =>
    match exec ic r1 prev s cs k with
    | Some x => Some x
    | None => k prev s cs
    end
  | RSeq r1 r2 =>
    exec ic r1 prev s cs (fun p' s' cs' => exec ic r2 p' s' cs' k)
  | RAlt r1 r2 =>
    match exec ic r1 prev s cs k with
    | Some x => Some x
    | None => exec ic r2 prev s cs k
    end
  | RGroup n r1 =>
    exec ic r1 prev s cs
      (fun p' s' cs' => k p' s' ((n, take (length s - length s') s) :: cs'))
  | RBol => match prev with None => k prev s cs | Some _ => None end
  | REol => if at_eol s then k prev s cs else None
  | RWordB =>
    if xorb (isword_opt prev) (isword_opt (head s)) then k prev s cs else None
  end.

(** A match at the current position: the text after it and the captures. *)
Definition match_here (ic : bool) (r : re) (prev : option N) (s : str)
  : option (str * caps) :=
  exec ic r prev s [] (fun _ s' cs => Some (s', cs)).

(** A match object: where the match starts, the matched text and the
    groups. *)
Record mobj : Type := MObj {
  m_start : nat;
  m_text : str;
  m_caps : caps
}.

(** [m.group(n)] for [n >= 1]; [None] for a group that took no part. *)
Definition group (n : nat) (m : mobj) : option str :=
  snd <$> find (fun kv => Nat.eqb (fst kv) n) (m_caps m).

(** The leftmost match, scanning the start positions from the left. *)
Fixpoint search_from (ic : bool) (r : re) (prev : option N) (pos : nat)
    (s : str) : option mobj :=
  match match_here ic r prev s with
  | Some (rest, cs) => Some (MObj pos (take (length s - length rest) s) cs)
  | None =>
    match s with
    | c :: s' => search_from ic r (Some c) (S pos) s'
    | [] => None
    end
  end.

(** [re.search(pattern, s)] and [re.search(pattern, s, flags=re.I)] *)
Definition search_with (ic : bool) (pattern s : str) : result (option mobj) :=
  r ← compile pattern; Ok (search_from ic r None 0 s).

Definition search : str -> str -> result (option mobj) := search_with false.

(** Replacement of the non-overlapping matches from the left.  Every
    pattern the program substitutes or splits on consumes at least one
    character; a match of no character replaces nothing here. *)
Fixpoint sub_from (ic : bool) (r : re) (repl : str) (prev : option N)
    (skip : nat) (s : str) : str :=
  match s with
  | [] => []
  | c :: s' =>
    match skip with
    | S k => sub_from ic r repl (Some c) k s'
    | O =>
      match match_here ic r prev s with
      | Some (rest, _) =>
        match (length s - length rest)%nat with
        | S n => repl ++ sub_from ic r repl (Some c) n s'
        | O => c :: sub_from ic r repl (Some c) 0 s'
        end
      | None => c :: sub_from ic r repl (Some c) 0 s'
      end
    end
  end.

(** [re.sub(pattern, repl, s)] and [re.sub(pattern, repl, s, flags=re.I)] *)
Definition sub_with (ic : bool) (pattern repl s : str) : result str :=
  r ← compile pattern; Ok (sub_from ic r repl None 0 s).

Definition sub : str -> str -> str -> result str := sub_with false.

Fixpoint split_from (r : re) (prev : option N) (skip : nat) (s : str)
  : list str :=
  match s with
  | [] => [[]]
  | c :: s' =>
    match skip with
    | S k => split_from r (Some c) k s'
    | O =>
      match match_here false r prev s with
      | Some (rest, _) =>
        match (length s - length rest)%nat with
        | S n => [] :: split_from r (Some c) n s'
        | O => Str.cons_head c (split_from r (Some c) 0 s')
        end
      | None => Str.cons_head c (split_from r (Some c) 0 s')
      end
    end
  end.

(** [re.split(pattern, s)] for a pattern without groups. *)
Definition split (pattern s : str) : result (list str) :=
  r ← compile pattern; Ok (split_from r None 0 s).

End Matcher.

(** *** What a match is *)

Section Semantics.
Context {RT : Runtime}.

(** The character before the position reached after reading [pre]. *)
Definition prev_after (prev : option N) (pre : str) : option N :=
  match last pre with
  | Some c => Some c
  | None => prev
  end.

(** [Matches ic r prev pre rest cs cs']: [r] matches exactly the text
    [pre], preceded by [prev] and followed by [rest], and extends the
    captures [cs] to [cs']. *)
Inductive Matches (ic : bool) : re -> option N -> str -> str -> caps -> caps -> Prop :=
| M_eps prev rest cs : Matches ic REps prev [] rest cs cs
| M_atom a c prev rest cs :
    atom_match ic a c = true -> Matches ic (RAtom a) prev [c] rest cs cs
| M_star a pre prev rest cs :
    Forall (fun c => atom_match ic a c = true) pre ->
    Matches ic (RStar a) prev pre rest cs cs
| M_plus a c pre prev rest cs :
    Forall (fun c => atom_match ic a c = true) (c :: pre) ->
    Matches ic (RPlus a) prev (c :: pre) rest cs cs
| M_opt_some r prev pre rest cs cs' :
    Matches ic r prev pre rest cs cs' -> Matches ic (ROpt r) prev pre rest cs cs'
| M_opt_none r prev rest cs : Matches ic (ROpt r) prev [] rest cs cs
| M_seq r1 r2 prev pre1 pre2 rest cs cs1 cs2 :
    Matches ic r1 prev pre1 (pre2 ++ rest) cs cs1 ->
    Matches ic r2 (prev_after prev pre1) pre2 rest cs1 cs2 ->
    Matches ic (RSeq r1 r2) prev (pre1 ++ pre2) rest cs cs2
| M_alt_l r1 r2 prev pre rest cs cs' :
    Matches ic r1 prev pre rest cs cs' -> Matches ic (RAlt r1 r2) prev pre rest cs cs'
| M_alt_r r1 r2 prev pre rest cs cs' :
    Matches ic r2 prev pre rest cs cs' -> Matches ic (RAlt r1 r2) prev pre rest cs cs'
| M_group n r prev pre rest cs cs' :
    Matches ic r prev pre rest cs cs' ->
    Matches ic (RGroup n r) prev pre rest cs ((n, pre) :: cs')
| M_bol rest cs : Matches ic RBol None [] rest cs cs
| M_eol prev rest cs : at_eol rest = true -> Matches ic REol prev [] rest cs cs
| M_wordb prev rest cs :
    xorb (isword_opt prev) (isword_opt (head rest)) = true ->
    Matches ic RWordB prev [] rest cs cs.

(** Every match of [r] goes through group [n]. *)
Fixpoint sets_group (n : nat) (r : re) : bool :=
  match r with
  | RGroup m r1 => Nat.eqb m n || sets_group n r1
  | RSeq r1 r2 => sets_group n r1 || sets_group n r2
  | RAlt r1 r2 => sets_group n r1 && sets_group n r2
  | _ => false
  end.

(** The pattern begins with a decimal digit. *)
Definition leading_digit (r : re) : bool :=
  match r with
  | RSeq (RAtom (ASet false [CDigit])) _ => true
  | _ => false
  end.

(** Group [n], wherever it occurs in [r], begins with a decimal digit. *)
Fixpoint digit_group (n : nat) (r : re) : bool :=
  match r with
  | RGroup m r1 =>
    (if Nat.eqb m n then leading_digit r1 else true) && digit_group n r1
  | RSeq r1 r2 | RAlt r1 r2 => digit_group n r1 && digit_group n r2
  | ROpt r1 => digit_group n r1
  | _ => true
  end.

Definition lookup_cap (n : nat) (cs : caps) : option str :=
  snd <$> find (fun kv => Nat.eqb (fst kv) n) cs.

Definition starts_with_digit (x : str) : Prop :=
  exists d t, x = d :: t /\ Chr.isdecimal d = true.

End Semantics.

End Re.

(* ===================================================================== *)
(** ** Values *)
(* ===================================================================== *)

(** The values a cell of the input table can hold. *)
Inductive value : Type :=
| VNone
| VBool (b : bool)
| VInt (z : Z)
| VFloat (f : pyfloat)
| VStr (s : str).

(** [isinstance(v, str)] *)
Definition is_str (v : value) : bool :=
  match v with VStr _ => true | _ => false end.

Module Builtins.

(** The value of a run of decimal digits, most significant first. *)
Fixpoint digits_from (acc : Z) (s : str) : option Z :=
  match s with
  | [] => Some acc
  | c :: r =>
    match Chr.todecimal c with
    | Some d => digits_from (10 * acc + Z.of_N d)%Z r
    | None => None
    end
  end.

Fixpoint split_point (s : str) : str * option str :=
  match s with
  | [] => ([], None)
  | c :: r =>
    if c =? 0x2E then ([], Some r)
    else let '(a, b) := split_point r in (c :: a, b)
  end.

(** [float(s)] on an unsigned decimal literal, digits with an optional
    point and further digits; the result is the nearest float.  The
    program calls [float] only on such text (group 1 of the pattern of
    [_num]); signs, exponents, blanks and the names of the special values
    are not modelled and give the error. *)
Definition float_of_str (s : str) : result pyfloat :=
  let '(ip, fp) := split_point s in
  let fp := default [] fp in
  match ip ++ fp, digits_from 0 ip, digits_from 0 (ip ++ fp) with
  | _ :: _, Some _, Some d => Ok (Float.of_ratio d (10 ^ Z.of_nat (length fp)))
  | _, _, _ => Raise (ValueError (u "could not convert string to float"))
  end.

(** [x * y] where [x] may be [None]. *)
Definition mul (x : option pyfloat) (y : pyfloat) : result pyfloat :=
  match x with
  | Some a => Ok (Float.mul a y)
  | None => Raise TypeError
  end.

(** A method call on a group that may be [None]. *)
Definition as_str (o : option str) : result str :=
  match o with
  | Some s => Ok s
  | None => Raise AttributeError
  end.

End Builtins.

(* ===================================================================== *)
(** ** Salary *)
(* ===================================================================== *)

(** [(min_salary, max_salary, salary_unit, salary_note)] *)
Definition salary : Type := option pyfloat * option pyfloat * str * str.

Section Salary.
Context {RT : Runtime}.

Definition detect_currency (s : str) : str :=
  let s := str_lower s in
  if Str.contains (u "usd") s || Str.contains (u "$") s then u "USD"
  else u "VND".

Definition unit_multiplier (s : str) (currency : str) : pyfloat :=
  let s := str_lower s in
  if str_eqb currency (u "USD") then
    if Str.contains (u "k") s || Str.contains (u "nghìn") s
    then Float.of_Z 1000 else Float.of_Z 1
  else if Str.contains (u "tỷ") s || Str.contains (u "ty") s
  then Float.of_Z 1000000000
  else if Str.contains (u "triệu") s || Str.contains (u "trieu") s
          || Str.contains (u "tr") s
  then Float.of_Z 1000000
  else if Str.contains (u "nghìn") s || Str.contains (u "nghin") s
          || Str.contains (u "k") s
  then Float.of_Z 1000
  else Float.of_Z 1.

(** Extract real numbers from string. *)
Definition _num (tok : str) : result (option pyfloat) :=
  let tok := Str.replace (u ",") (u ".") tok in
  m ← Re.search (u "(\d+(?:\.\d+)?)") tok;
  match m with
  | Some m =>
    match Re.group 1 m with
    | Some g => f ← Builtins.float_of_str g; Ok (Some f)
    | None => Raise TypeError
    end
  | None => Ok None
  end.

(** The patterns of [parse_salary], in the order they are tried:
    [number1] (separator) [number2] (unit), then the ceiling and floor
    qualifiers, then a lone number. *)
Definition RANGE_PATTERN : str :=
  u "(\d[\d\.,]*)\s*(?:-|–|—|to|đến|~)\s*(\d[\d\.,]*)\s*(.*)$".
Definition CEILING_PATTERN : str := u "(tới|đến|up to|<=)\s*(\d[\d\.,]*)\s*(.*)$".
Definition FLOOR_PATTERN : str := u "(trên|>=|from|từ)\s*(\d[\d\.,]*)\s*(.*)$".
Definition POINT_PATTERN : str := u "(\d[\d\.,]*)\s*(.*)$".

(** Main function to parse salary string into 4 parts. *)
Definition parse_salary (text : value) : result salary :=
  match text with
  | VStr text =>
    match Str.strip text with
    | [] => Ok (None, None, u "VND", u "empty")
    | _ :: _ =>
      s ← Re.sub (u "\s+") (u " ") (Str.strip text);
      let s := str_lower s in
      if Str.contains (u "thoả thuận") s || Str.contains (u "thỏa thuận") s
         || Str.contains (u "negotiable") s
      then Ok (None, None, u "VND", u "negotiable")
      else
        let cur := detect_currency s in
        m ← Re.search RANGE_PATTERN s;
        match m with
        | Some m =>
          lo ← Builtins.as_str (Re.group 1 m);
          hi ← Builtins.as_str (Re.group 2 m);
          tail ← Builtins.as_str (Re.group 3 m);
          let mult := unit_multiplier tail cur in
          x ← _num lo; a ← Builtins.mul x mult;
          y ← _num hi; b ← Builtins.mul y mult;
          Ok (Some a, Some b, cur, u "range")
        | None =>
        m ← Re.search CEILING_PATTERN s;
        match m with
        | Some m =>
          x ← Builtins.as_str (Re.group 2 m);
          tail ← Builtins.as_str (Re.group 3 m);
          v ← _num x; b ← Builtins.mul v (unit_multiplier tail cur);
          Ok (None, Some b, cur, u "ceiling")
        | None =>
        m ← Re.search FLOOR_PATTERN s;
        match m with
        | Some m =>
          x ← Builtins.as_str (Re.group 2 m);
          tail ← Builtins.as_str (Re.group 3 m);
          v ← _num x; a ← Builtins.mul v (unit_multiplier tail cur);
          Ok (Some a, None, cur, u "floor")
        | None =>
        m ← Re.search POINT_PATTERN s;
        match m with
        | Some m =>
          x ← Builtins.as_str (Re.group 1 m);
          tail ← Builtins.as_str (Re.group 2 m);
          n ← _num x; v ← Builtins.mul n (unit_multiplier tail cur);
          Ok (Some v, Some v, cur, u "point")
        | None => Ok (None, None, cur, u "unparsed")
        end end end end
    end
  | _ => Ok (None, None, u "VND", u "empty")
  end.

(** [s] is [text] stripped, with runs of white space collapsed, in lower
    case. *)
Definition normalized (text s : str) : Prop :=
  exists s0, Re.sub (u "\s+") (u " ") (Str.strip text) = Ok s0
             /\ s = str_lower s0.

Definition negotiable (s : str) : bool :=
  Str.contains (u "thoả thuận") s || Str.contains (u "thỏa thuận") s
  || Str.contains (u "negotiable") s.

(** [v] is the number read from [x], scaled by the unit found in [tail]. *)
Definition scaled (x tail cur : str) (v : pyfloat) : Prop :=
  exists n, _num x = Ok (Some n) /\ Float.nonneg n
            /\ v = Float.mul n (unit_multiplier tail cur).

(** The ways [parse_salary] can answer, as steps 1 to 9 of the
    specification list them. *)
Inductive parse_case (text : str) : salary -> Prop :=
| case_empty :
    Str.strip text = [] ->
    parse_case text (None, None, u "VND", u "empty")
| case_negotiable s :
    Str.strip text <> [] -> normalized text s -> negotiable s = true ->
    parse_case text (None, None, u "VND", u "negotiable")
| case_range s m lo hi tail a b :
    Str.strip text <> [] -> normalized text s -> negotiable s = false ->
    Re.search RANGE_PATTERN s = Ok (Some m) ->
    Re.group 1 m = Some lo -> Re.group 2 m = Some hi ->
    Re.group 3 m = Some tail ->
    scaled lo tail (detect_currency s) a ->
    scaled hi tail (detect_currency s) b ->
    parse_case text (Some a, Some b, detect_currency s, u "range")
| case_ceiling s m x tail b :
    Str.strip text <> [] -> normalized text s -> negotiable s = false ->
    Re.search RANGE_PATTERN s = Ok None ->
    Re.search CEILING_PATTERN s = Ok (Some m) ->
    Re.group 2 m = Some x -> Re.group 3 m = Some tail ->
    scaled x tail (detect_currency s) b ->
    parse_case text (None, Some b, detect_currency s, u "ceiling")
| case_floor s m x tail a :
    Str.strip text <> [] -> normalized text s -> negotiable s = false ->
    Re.search RANGE_PATTERN s = Ok None ->
    Re.search CEILING_PATTERN s = Ok None ->
    Re.search FLOOR_PATTERN s = Ok (Some m) ->
    Re.group 2 m = Some x -> Re.group 3 m = Some tail ->
    scaled x tail (detect_currency s) a ->
    parse_case text (Some a, None, detect_currency s, u "floor")
| case_point s m x tail v :
    Str.strip text <> [] -> normalized text s -> negotiable s = false ->
    Re.search RANGE_PATTERN s = Ok None ->
    Re.search CEILING_PATTERN s = Ok None ->
    Re.search FLOOR_PATTERN s = Ok None ->
    Re.search POINT_PATTERN s = Ok (Some m) ->
    Re.group 1 m = Some x -> Re.group 2 m = Some tail ->
    scaled x tail (detect_currency s) v ->
    parse_case text (Some v, Some v, detect_currency s, u "point")
| case_unparsed s :
    Str.strip text <> [] -> normalized text s -> negotiable s = false ->
    Re.search RANGE_PATTERN s = Ok None ->
    Re.search CEILING_PATTERN s = Ok None ->
    Re.search FLOOR_PATTERN s = Ok None ->
    Re.search POINT_PATTERN s = Ok None ->
    parse_case text (None, None, detect_currency s, u "unparsed").

End Salary.

(* ===================================================================== *)
(** ** Lists and dictionaries *)
(* ===================================================================== *)

Module Py.

(** [l[i]] *)
Definition getitem {A} (l : list A) (i : Z) : result A :=
  let j := (if i <? 0 then i + Z.of_nat (length l) else i)%Z in
  if (j <? 0)%Z then Raise IndexError
  else match l !! Z.to_nat j with
       | Some x => Ok x
       | None => Raise IndexError
       end.

(** [range(start, stop, step)] for a positive step. *)
Definition range (start stop step : Z) : list Z :=
  (fun k => start + step * k)%Z
    <$> seqZ 0 (Z.max 0 ((stop - start + step - 1) / step)).

(** [l[:k]] *)
Definition slice_to {A} (l : list A) (k : Z) : list A :=
  if (k <? 0)%Z then take (Z.to_nat (Z.of_nat (length l) + k)) l
  else take (Z.to_nat k) l.

(** [d.update(items)] *)
Definition update (d : gmap str str) (items : list (str * str)) : gmap str str :=
  foldl (fun acc kv => <[fst kv := snd kv]> acc) d items.

(** [list(OrderedDict.fromkeys(l))]: the first occurrence of each key, in
    order. *)
Fixpoint fromkeys (seen : list str) (l : list str) : list str :=
  match l with
  | [] => []
  | x :: r =>
    if bool_decide (x ∈ seen) then fromkeys seen r
    else x :: fromkeys (x :: seen) r
  end.

(** The truth value of an optional string. *)
Definition truthy (o : option str) : bool :=
  match o with
  | Some (_ :: _) => true
  | _ => false
  end.

End Py.

(* ===================================================================== *)
(** ** Address *)
(* ===================================================================== *)

(** Canonical list of Vietnam provinces/cities (official names). *)
Definition VIETNAM_PROVINCES : list str :=
  [u "An Giang"; u "Bà Rịa - Vũng Tàu"; u "Bắc Giang"; u "Bắc Kạn";
   u "Bạc Liêu"; u "Bắc Ninh"; u "Bến Tre"; u "Bình Định"; u "Bình Dương";
   u "Bình Phước"; u "Bình Thuận"; u "Cà Mau"; u "Cần Thơ"; u "Cao Bằng";
   u "Đà Nẵng"; u "Đắk Lắk"; u "Đắk Nông"; u "Điện Biên"; u "Đồng Nai";
   u "Đồng Tháp"; u "Gia Lai"; u "Hà Giang"; u "Hà Nam"; u "Hà Nội";
   u "Hà Tĩnh"; u "Hải Dương"; u "Hải Phòng"; u "Hậu Giang"; u "Hòa Bình";
   u "Hưng Yên"; u "Khánh Hòa"; u "Kiên Giang"; u "Kon Tum"; u "Lai Châu";
   u "Lâm Đồng"; u "Lạng Sơn"; u "Lào Cai"; u "Long An"; u "Nam Định";
   u "Nghệ An"; u "Ninh Bình"; u "Ninh Thuận"; u "Phú Thọ"; u "Phú Yên";
   u "Quảng Bình"; u "Quảng Nam"; u "Quảng Ngãi"; u "Quảng Ninh";
   u "Quảng Trị"; u "Sóc Trăng"; u "Sơn La"; u "Tây Ninh"; u "Thái Bình";
   u "Thái Nguyên"; u "Thanh Hóa"; u "Thừa Thiên Huế"; u "Tiền Giang";
   u "TP. Hồ Chí Minh"; u "Trà Vinh"; u "Tuyên Quang"; u "Vĩnh Long";
   u "Vĩnh Phúc"; u "Yên Bái"].

Definition CANON_ALIASES : list (str * str) :=
  [(u "hcm", u "TP. Hồ Chí Minh"); (u "tp.hcm", u "TP. Hồ Chí Minh");
   (u "tphcm", u "TP. Hồ Chí Minh"); (u "sai gon", u "TP. Hồ Chí Minh");
   (u "sài gòn", u "TP. Hồ Chí Minh");
   (u "ho chi minh", u "TP. Hồ Chí Minh");
   (u "thanh pho ho chi minh", u "TP. Hồ Chí Minh"); (u "hn", u "Hà Nội");
   (u "ha noi", u "Hà Nội"); (u "hanoi", u "Hà Nội");
   (u "thanh pho ha noi", u "Hà Nội"); (u "da nang", u "Đà Nẵng");
   (u "thanh pho da nang", u "Đà Nẵng"); (u "hai phong", u "Hải Phòng");
   (u "thanh pho hai phong", u "Hải Phòng"); (u "can tho", u "Cần Thơ");
   (u "thanh pho can tho", u "Cần Thơ")].

(** A [(city, district)] pair. *)
Definition pair : Type := option str * option str.

Section Address.
Context {RT : Runtime}.

(** Normalization map: variants -> canonical name. *)
Definition CANON : gmap str str :=
  Py.update
    (Py.update ∅ ((fun prov => (str_lower prov, prov)) <$> VIETNAM_PROVINCES))
    CANON_ALIASES.

(** City lexicon (all recognizable keys). *)
Definition CITY_LEXICON : gset str := dom CANON.

Definition _norm (s : str) : result str :=
  Re.sub (u "\s+") (u " ") (str_lower (Str.strip s)).

(** Remove leading admin words like "TP", "Thành phố", "Tỉnh". *)
Definition _strip_admin_prefix (raw : str) : result str :=
  Re.sub_with true (u "^\s*(tp\.?|thành phố|thanh pho|tỉnh|tinh)\s+") []
    (Str.strip raw).

(** Normalized base for comparisons (no admin prefixes). *)
Definition _base_name (raw : str) : result str :=
  p ← _strip_admin_prefix raw; _norm p.

Definition _canon_city (raw : option str) : result (option str) :=
  match raw with
  | None | Some [] => Ok None
  | Some raw =>
    key ← _norm raw;
    match CANON !! key with
    | Some c => Ok (Some c)
    | None =>
      key2 ← _base_name raw;
      match CANON !! key2 with
      | Some c => Ok (Some c)
      | None =>
        no_prefix ← _strip_admin_prefix raw;
        Ok (Some (match no_prefix with
                  | _ :: _ => no_prefix
                  | [] => Str.strip raw
                  end))
      end
    end
  end.

Definition _canon_district (raw : option str) : result (option str) :=
  match raw with
  | None | Some [] => Ok None
  | Some raw => p ← _strip_admin_prefix raw; Ok (Some p)
  end.

Definition _is_city (token : str) : result bool :=
  t ← _norm token;
  Ok (bool_decide (t ∈ CITY_LEXICON) || Str.startswith (u "tp ") t
      || Str.startswith (u "tp.") t).

Definition _is_district (token : str) : result bool :=
  t ← _norm token;
  m1 ← Re.search (u "(quận|q\.)\s*\d+") t;
  if bool_decide (is_Some m1) then Ok true else
  m2 ← Re.search (u "\bdistrict\b\s*\d*") t;
  if bool_decide (is_Some m2) then Ok true else
  m3 ← Re.search (u "\b(huyện|thị xã|phường|xã)\b") t;
  if bool_decide (is_Some m3) then Ok true else
  Ok false.

(** The tokens of an address: the non-blank pieces between separators,
    stripped; a lone token is split again on commas only. *)
Definition tokens_of (addr : str) : result (list str) :=
  pieces ← Re.split (u "[:,;/\-\|;]") addr;
  let tokens := filter (fun t => t ≠ []) (Str.strip <$> pieces) in
  if bool_decide (length tokens = 1%nat)
  then Ok (filter (fun t => t ≠ []) (Str.strip <$> Str.split (u ",") addr))
  else Ok tokens.

(** The body of the loop of [split_address_all_pairs] at index [i]. *)
Definition pair_at (tokens : list str) (i : Z) : result pair :=
  a ← Py.getitem tokens i;
  b ← Py.getitem tokens (i + 1)%Z;
  a_city ← _is_city a; b_city ← _is_city b;
  a_dist ← _is_district a; b_dist ← _is_district b;
  '(city, district) ←
    (if a_city && b_dist then Ok (a, b)
     else if a_dist && b_city then Ok (b, a)
     else if a_city && b_city then
       na ← _base_name a; nb ← _base_name b;
       if bool_decide (na = nb) then Ok (a, b) else
       na ← _base_name a; nb ← _base_name b;
       if Str.contains na nb then Ok (a, b) else
       nb ← _base_name b; na ← _base_name a;
       if Str.contains nb na then Ok (a, b) else Ok (a, b)
     else Ok (a, b));
  city ← _canon_city (Some city);
  district ← _canon_district (Some district);
  Ok (city, district).

(** Parse all (city, district) pairs from a cell. *)
Definition split_address_all_pairs (addr : value) : result (list pair) :=
  match addr with
  | VStr addr =>
    match Str.strip addr with
    | [] => Ok []
    | _ :: _ =>
      tokens ← tokens_of addr;
      rmap (pair_at tokens) (Py.range 0 (Z.of_nat (length tokens) - 1) 2)
    end
  | _ => Ok []
  end.

(** Join all pairs back into the same two columns. *)
Definition split_address_joined (addr : value) (max_pairs : option Z)
    (dedupe : bool) : result pair :=
  pairs ← split_address_all_pairs addr;
  match pairs with
  | [] => Ok (None, None)
  | _ :: _ =>
    let shown := match max_pairs with
                 | None => pairs
                 | Some k => Py.slice_to pairs k
                 end in
    let cities := omap (fun p => if Py.truthy (fst p) then fst p else None) shown in
    let dists := omap (fun p => if Py.truthy (snd p) then snd p else None) shown in
    let cities := if dedupe then Py.fromkeys [] cities else cities in
    let dists := if dedupe then Py.fromkeys [] dists else dists in
    Ok (match cities with [] => None | _ => Some (Str.join (u ", ") cities) end,
        match dists with [] => None | _ => Some (Str.join (u ", ") dists) end)
  end.

Definition format_pairs (addr : value) : result (option str) :=
  pairs ← split_address_all_pairs addr;
  match pairs with
  | [] => Ok None
  | _ :: _ =>
    Ok (Some (Str.join (u " và ")
               ((fun p : pair =>
                   Str.join (u ", ")
                     (omap (fun x => if Py.truthy x then x else None)
                        [fst p; snd p])) <$> pairs)))
  end.

End Address.

(* ===================================================================== *)
(** ** Job title *)
(* ===================================================================== *)

(** Seniority extraction (ordered). *)
Definition SENIORITY_PATTERNS : list (str * list str) :=
  [
   (u "intern",
    [u "\bintern\b"; u "\bthuc tap\b"; u "\bthuc tap sinh\b"]);
   (u "fresher",
    [u "\bfresher\b"]);
   (u "junior",
    [u "\bjunior\b"; u "\bjr\b"]);
   (u "mid",
    [u "\bmid\b"; u "\bmiddle\b"; u "\bmid level\b"]);
   (u "senior",
    [u "\bsenior\b"; u "\bsr\b"]);
   (u "lead",
    [u "\blead\b"; u "\btech lead\b"; u "\bleader\b"]);
   (u "principal",
    [u "\bprincipal\b"]);
   (u "manager",
    [u "\bmanager\b"; u "\bengineering manager\b"; u "\bquan ly\b"]);
   (u "director",
    [u "\bdirector\b"]);
   (u "head",
    [u "\bhead\b"; u "\bhead of\b"]);
   (u "vp",
    [u "\bvice president\b"; u "\bvp\b"]);
   (u "cto",
    [u "\bcto\b"; u "\bchief technology officer\b"])
  ].

(** Fine-grained IT groups (order matters: specific -> general). *)
Definition GROUP_RULES : list (str * list str) :=
  [
   (u "fullstack_engineer",
    [u "\bfull\s*stack\b"; u "\bfullstack\b"; u "\bmern\b"; u "\bmean\b";
     u "\bmevn\b"]);
   (u "backend_engineer",
    [u "\bbackend\b"; u "\bback\s*end\b"; u "\bbe\b"; u "\bserver\s*side\b";
     u "\bapi (dev|engineer|developer)\b"; u "\bjava\b"; u "\bspring\b";
     u "\bdotnet\b"; u "\bcsharp\b"; u "\bpython\b"; u "\bdjango\b";
     u "\bflask\b"; u "\bfastapi\b"; u "\bnodejs\b"; u "\bexpress\b";
     u "\bnestjs\b"; u "\bgo\b"; u "\bgolang\b"; u "\brust\b"; u "\bscala\b";
     u "\bphp\b"; u "\blaravel\b"; u "\bsymfony\b"; u "\bruby\b";
     u "\brails\b"]);
   (u "frontend_engineer",
    [u "\bfrontend\b"; u "\bfront\s*end\b"; u "\bweb developer\b";
     u "\breact\b"; u "\bnextjs\b"; u "\bangular\b"; u "\bangularjs\b";
     u "\bvue\b"; u "\bnuxtjs\b"; u "\bsvelte\b"; u "\bjavascript\b";
     u "\btypescript\b"; u "\bhtml\b"; u "\bcss\b"]);
   (u "mobile_engineer",
    [u "\bmobile\b"; u "\bandroid\b"; u "\bios\b"; u "\bflutter\b";
     u "\breact native\b"; u "\bxamarin\b"; u "\bswift\b"; u "\bkotlin\b"]);
   (u "data_engineer",
    [u "\bdata engineer\b"; u "\betl\b"; u "\bpipeline\b";
     u "\bingest(ion)?\b"; u "\bairflow\b"; u "\bspark\b"; u "\bhadoop\b";
     u "\bdatabricks\b"; u "\bsnowflake\b"; u "\bredshift\b";
     u "\bbig\s*data\b"; u "\bglue\b"; u "\bdwh\b";
     u "\banalytics engineer\b"; u "\bdbt\b"]);
   (u "data_science_ml_ai",
    [u "\bdata scientist\b"; u "\bml engineer\b"; u "\bmachine learning\b";
     u "\bdeep learning\b"; u "\bai engineer\b"; u "\bnlp\b";
     u "\bcomputer vision\b"; u "\bresearch scientist\b";
     u "\bresearch engineer\b"]);
   (u "data_analyst_bi",
    [u "\bdata analyst\b"; u "\bbi\b"; u "\bbi analyst\b"; u "\bpower bi\b";
     u "\btableau\b"; u "\blooker\b"; u "\bdax\b"; u "\breport(ing)?\b";
     u "\bbusiness intelligence\b"; u "\banalytics\b";
     u "\bbusiness analyst\b"]);
   (u "mlops_dataops",
    [u "\bmlops\b"; u "\bdataops\b"; u "\bfeature store\b";
     u "\bmodel serving\b"; u "\bmodel ops\b"]);
   (u "devops_sre_cloud",
    [u "\bdevops\b"; u "\bsre\b"; u "\bplatform engineer\b";
     u "\bcloud engineer\b"; u "\bkubernetes\b"; u "\bk8s\b"; u "\bdocker\b";
     u "\bterraform\b"; u "\bhelm\b"; u "\bci/?cd\b"; u "\bgcp\b";
     u "\baws\b"; u "\bazure\b"; u "\b(it\s*)?infra(structure)?\b";
     u "\binfrastructure\b"; u "\bplatform( engineer| team| ops)?\b"]);
   (u "qa_testing",
    [u "\bqa\b"; u "\bquality assurance\b"; u "\btester\b"; u "\btesting\b";
     u "\bautomation tester\b"; u "\bmanual tester\b"; u "\bsdet\b";
     u "\bquality engineer\b"]);
   (u "security",
    [u "\bsecurity\b"; u "\binfosec\b"; u "\bsecops\b"; u "\bsoc\b";
     u "\bpentest(er)?\b"; u "\bappsec\b"; u "\biam\b";
     u "\bsecurity engineer\b"]);
   (u "database_admin",
    [u "\bdba\b"; u "\bdatabase administrator\b"; u "\bpostgres\b";
     u "\bmysql\b"; u "\bsql server\b"; u "\boracle\b"; u "\bmongodb\b";
     u "\bredis\b"]);
   (u "network_engineer",
    [u "\bnetwork\b"; u "\bnetwork engineer\b";
     u "\bnetwork admin(istrator)?\b"; u "\bcisco\b"]);
   (u "sysadmin_it_support",
    [u "\bsysadmin\b"; u "\bsystem administrator\b"; u "\bit admin\b";
     u "\bit support\b"; u "\bhelp ?desk\b"; u "\bdesktop support\b";
     u "\bnoc\b"; u "\bapplication support\b"; u "\bit application support\b"]);
   (u "architect",
    [u "\bsoftware architect\b"; u "\bsolutions? architect\b";
     u "\benterprise architect\b"]);
   (u "product_manager",
    [u "\bproduct manager\b"; u "\bpm\b"; u "\bproduct owner\b"; u "\bpo\b"]);
   (u "project_delivery",
    [u "\bproject manager\b"; u "\bscrum master\b"; u "\bagile coach\b"]);
   (u "design_ui_ux",
    [u "\bui/ux\b"; u "\bui\b"; u "\bux\b"; u "\bproduct designer\b";
     u "\bux researcher\b"; u "\bgraphic (designer|design)\b"]);
   (u "game_dev",
    [u "\bgame developer\b"; u "\bunity\b"; u "\bunreal\b";
     u "\bgame programmer\b"; u "\bgame designer\b"]);
   (u "embedded_firmware_iot",
    [u "\bembedded\b"; u "\bfirmware\b"; u "\biot\b"; u "\brtos\b";
     u "\bmicrocontroller\b"]);
   (u "blockchain_web3",
    [u "\bblockchain\b"; u "\bweb3\b"; u "\bsolidity\b";
     u "\bsmart contract\b"; u "\bdefi\b"]);
   (u "erp_crm",
    [u "\berp\b"; u "\bsap\b"; u "\bodoo\b"; u "\bdynamics\b";
     u "\bsalesforce\b"; u "\bcrm\b"]);
   (u "rpa_engineer",
    [u "\brpa\b"; u "\buipath\b"; u "\bblue prism\b";
     u "\bautomation anywhere\b"]);
   (u "devrel",
    [u "\bdeveloper relations\b"; u "\bdevrel\b"; u "\bdeveloper advocate\b";
     u "\bevangelist\b"]);
   (u "solutions_sales_engineer",
    [u "\bsolutions? engineer\b"; u "\bpre[- ]sales\b";
     u "\bsolution consultant\b"]);
   (u "technical_writer",
    [u "\btechnical writer\b"; u "\bdocumentation\b"]);
   (u "software_engineer_general",
    [u "\bsoftware engineer\b"; u "\bsoftware developer\b";
     u "\bdeveloper\b"; u "\bprogrammer\b"; u "\bswe\b"; u "\bsde\b";
     u "\bengineer\b"; u "\blap trinh vien\b"; u "\blap trinh\b";
     u "\bky su phan mem\b"; u "\bchuyen vien lap trinh\b"])
  ].

(** Collapse to 8 big buckets. *)
Definition collapse_map : gmap str str :=
  list_to_map
  [
   (u "software_engineer_general", u "software_engineering");
   (u "backend_engineer", u "software_engineering");
   (u "frontend_engineer", u "software_engineering");
   (u "fullstack_engineer", u "software_engineering");
   (u "mobile_engineer", u "software_engineering");
   (u "game_dev", u "software_engineering");
   (u "embedded_firmware_iot", u "software_engineering");
   (u "blockchain_web3", u "software_engineering");
   (u "erp_crm", u "software_engineering");
   (u "rpa_engineer", u "software_engineering");
   (u "architect", u "software_engineering");
   (u "data_engineer", u "data");
   (u "data_analyst_bi", u "data");
   (u "data_science_ml_ai", u "data");
   (u "mlops_dataops", u "data");
   (u "devops_sre_cloud", u "infra_cloud");
   (u "qa_testing", u "qa_testing");
   (u "security", u "security");
   (u "sysadmin_it_support", u "it_ops_support");
   (u "database_admin", u "it_ops_support");
   (u "network_engineer", u "it_ops_support");
   (u "product_manager", u "product_project");
   (u "project_delivery", u "product_project");
   (u "design_ui_ux", u "design");
   (u "devrel", u "other");
   (u "solutions_sales_engineer", u "other");
   (u "technical_writer", u "other");
   (u "other_it", u "other")
  ].

(** Pre-compile once for performance. *)
Definition _COMPILED_RULES : result (list (str * list Re.re)) :=
  rmap (fun gp : str * list str =>
          ps ← rmap Re.compile (snd gp); Ok (fst gp, ps))
       GROUP_RULES.

Module Repr.

(** The decimal digits of a natural number, most significant first. *)
Fixpoint digits (fuel : nat) (n : N) (acc : str) : str :=
  match fuel with
  | O => acc
  | S f =>
    let acc := (0x30 + n mod 10) :: acc in
    if n <? 10 then acc else digits f (n / 10) acc
  end.

Definition of_int (z : Z) : str :=
  (if (z <? 0)%Z then u "-" else [])
    ++ digits (S (N.to_nat (N.log2 (Z.abs_N z)))) (Z.abs_N z) [].

End Repr.

Section JobTitle.
Context {RT : Runtime}.

(** [str(x)], as the text it gives when it returns.  An int is printed
    whatever its size, where CPython 3.11 raises [ValueError] above 4300
    digits; so what is proved of [_norm_job_text] and of its callers is
    stated for texts, or for the calls that return. *)
Definition py_str (x : value) : str :=
  match x with
  | VNone => u "None"
  | VBool true => u "True"
  | VBool false => u "False"
  | VInt z => Repr.of_int z
  | VFloat f => float_str f
  | VStr s => s
  end.

(** Remove accents to make Vietnamese/English matching robust. *)
Definition _strip_accents (s : value) : str :=
  match s with
  | VStr s => filter (fun ch => category_is_Mn ch = false) (unicodedata_nfd s)
  | _ => []
  end.

(** Lowercase, strip accents, unify tech tokens, normalize spaces. *)
Definition _norm_job_text (s : value) : result str :=
  let s := Str.strip (str_lower (_strip_accents (VStr (py_str s)))) in
  let s := Str.replace (u "node.js") (u "nodejs") s in
  let s := Str.replace (u "next.js") (u "nextjs") s in
  let s := Str.replace (u "nuxt.js") (u "nuxtjs") s in
  let s := Str.replace (u "c/c++") (u "cpp") s in
  let s := Str.replace (u "c++") (u "cpp") s in
  let s := Str.replace (u "c#") (u "csharp") s in
  let s := Str.replace (u ".net") (u "dotnet") s in
  s ← Re.sub (u "[^\w\s\+\.#/-]") (u " ") s;
  s ← Re.sub (u "[-_/]") (u " ") s;
  s ← Re.sub (u "\s+") (u " ") s;
  Ok (Str.strip s).

(** The inner loop over the patterns of one level or group. *)
Fixpoint any_search (pats : list Re.re) (txt : str) : bool :=
  match pats with
  | [] => false
  | p :: rest =>
    if bool_decide (is_Some (Re.search_from false p None 0 txt)) then true
    else any_search rest txt
  end.

Fixpoint level_search (pats : list str) (txt : str) : result bool :=
  match pats with
  | [] => Ok false
  | p :: rest =>
    m ← Re.search p txt;
    if bool_decide (is_Some m) then Ok true else level_search rest txt
  end.

Fixpoint seniority_loop (levels : list (str * list str)) (txt : str)
  : result str :=
  match levels with
  | [] => Ok (u "unknown")
  | (lvl, pats) :: rest =>
    hit ← level_search pats txt;
    match hit with
    | true => Ok lvl
    | false => seniority_loop rest txt
    end
  end.

(** Return detected seniority level or 'unknown'. *)
Definition _job_seniority (title : value) : result str :=
  txt ← _norm_job_text title;
  seniority_loop SENIORITY_PATTERNS txt.

(** The outer loop of [_job_group] over the compiled rules. *)
Fixpoint group_loop (rules : list (str * list Re.re)) (txt : str) : str :=
  match rules with
  | [] => u "other_it"
  | (grp, patterns) :: rest =>
    if any_search patterns txt then grp else group_loop rest txt
  end.

(** Return the best-matching fine-grained group, else 'other_it'. *)
Definition _job_group (title : value) : result str :=
  rules ← _COMPILED_RULES;
  txt ← _norm_job_text title;
  Ok (group_loop rules txt).

(** Some pattern of the list matches the text. *)
Definition some_pattern_matches (pats : list str) (txt : str) : Prop :=
  exists p m, p ∈ pats /\ Re.search p txt = Ok (Some m).

End JobTitle.

(** The 8 big buckets, in the order of the comments of [collapse_map], and
    the residual bucket. *)
Definition COARSE_BUCKETS : list str :=
  [u "software_engineering"; u "data"; u "infra_cloud"; u "qa_testing";
   u "security"; u "it_ops_support"; u "product_project"; u "design";
   u "other"].

(* ===================================================================== *)
(** ** Check schema, quarantine error records, transform *)
(* ===================================================================== *)

(** A table: its columns in order, each with one cell per row. *)
Definition DataFrame : Type := list (str * list value).

Definition REQUIRED_COLUMNS : list str :=
  [u "job_title"; u "address"; u "salary"].

(** What a run of [transform] does besides returning: one [Enriched] per
    call of a normaliser on a record, the log line of the handler and the
    table written to the quarantine directory. *)
Inductive event : Type :=
| Enriched (fn : str) (cell : value)
| Logged (chunk_idx : Z) (e : exn)
| Quarantined (df : DataFrame) (e : exn) (run_id : str) (chunk_idx : Z).

Module Frame.

Definition has_column (c : str) (df : DataFrame) : bool :=
  bool_decide (c ∈ df.*1).

(** [df[c]] *)
Definition column (c : str) (df : DataFrame) : result (list value) :=
  match find (fun kv => bool_decide (fst kv = c)) df with
  | Some kv => Ok (snd kv)
  | None => Raise (KeyError c)
  end.

(** [df[c] = cells] *)
Fixpoint set_column (c : str) (cells : list value) (df : DataFrame)
  : DataFrame :=
  match df with
  | [] => [(c, cells)]
  | (k, v) :: r =>
    if bool_decide (k = c) then (k, cells) :: r
    else (k, v) :: set_column c cells r
  end.

Definition of_float (o : option pyfloat) : value :=
  match o with Some f => VFloat f | None => VNone end.

Definition of_str (o : option str) : value :=
  match o with Some s => VStr s | None => VNone end.

(** [pd.to_numeric(cells, errors="coerce")] on a column of floats and
    missing values. *)
Definition to_numeric (cells : list value) : list value :=
  (fun v => match v with
            | VFloat f => VFloat f
            | VInt z => VInt z
            | VBool b => VBool b
            | _ => VFloat FNan
            end) <$> cells.

(** Unpacking the transposed rows into four targets. *)
Definition unzip4 {A B C D} (rows : list (A * B * C * D))
  : result (list A * list B * list C * list D) :=
  match rows with
  | [] => Raise (ValueError (u "not enough values to unpack (expected 4, got 0)"))
  | _ => Ok ((fun r => r.1.1.1) <$> rows, (fun r => r.1.1.2) <$> rows,
             (fun r => r.1.2) <$> rows, snd <$> rows)
  end.

(** Unpacking the transposed rows into two targets. *)
Definition unzip2 {A B} (rows : list (A * B)) : result (list A * list B) :=
  match rows with
  | [] => Raise (ValueError (u "not enough values to unpack (expected 2, got 0)"))
  | _ => Ok (fst <$> rows, snd <$> rows)
  end.

End Frame.

(** The body of the [try] block works on the copy [out] and leaves a
    trace; both survive an exception. *)
Definition M (A : Type) : Type :=
  DataFrame * list event -> result A * (DataFrame * list event).

#[global] Instance M_ret : MRet M := fun A a st => (Ok a, st).
#[global] Instance M_bind : MBind M := fun A B f m st =>
  match m st with
  | (Ok a, st') => f a st'
  | (Raise e, st') => (Raise e, st')
  end.

Module Step.

Definition lift {A} (r : result A) : M A := fun st => (r, st).

Definition out : M DataFrame := fun st => (Ok (fst st), st).

Definition assign (c : str) (cells : list value) : M unit :=
  fun st => (Ok (), (Frame.set_column c cells (fst st), snd st)).

Definition note (ev : event) : M unit :=
  fun st => (Ok (), (fst st, snd st ++ [ev])).

(** [series.apply(f)]: [f] on every record, in order. *)
Fixpoint apply {A} (fn : str) (f : value -> result A) (cells : list value)
  : M (list A) :=
  match cells with
  | [] => mret []
  | v :: rest =>
    _ ← note (Enriched fn v);
    a ← lift (f v);
    r ← apply fn f rest;
    mret (a :: r)
  end.

End Step.

Section Transform.
Context {RT : Runtime}.
(** The switch read from the environment by config.py. *)
Variable STRICT_SCHEMA : bool.

Definition list_repr (l : list str) : str :=
  u "[" ++ Str.join (u ", ") ((fun c => u "'" ++ c ++ u "'") <$> l) ++ u "]".

Definition _validate_schema (df : DataFrame) : result () :=
  if negb STRICT_SCHEMA then Ok ()
  else
    let missing :=
      filter (fun c => c ∉ df.*1) REQUIRED_COLUMNS in
    match missing with
    | [] => Ok ()
    | _ :: _ =>
      Raise (ValueError (u "Missing required columns: " ++ list_repr missing))
    end.

(** The statements of the [try] block. *)
Definition enrich : M () :=
  (* Salary *)
  df ← Step.out;
  _ ← (if Frame.has_column (u "salary") df then
         cells ← Step.lift (Frame.column (u "salary") df);
         parsed ← Step.apply (u "parse_salary") parse_salary cells;
         '(mins, maxs, units, notes) ← Step.lift (Frame.unzip4 parsed);
         _ ← Step.assign (u "min_salary") (Frame.of_float <$> mins);
         _ ← Step.assign (u "max_salary") (Frame.of_float <$> maxs);
         _ ← Step.assign (u "salary_unit") (VStr <$> units);
         Step.assign (u "salary_note") (VStr <$> notes)
       else mret ());
  (* Address *)
  df ← Step.out;
  _ ← (if Frame.has_column (u "address") df then
         cells ← Step.lift (Frame.column (u "address") df);
         joined ← Step.apply (u "split_address_joined")
                    (fun s => split_address_joined s None true) cells;
         '(cities, dists) ← Step.lift (Frame.unzip2 joined);
         _ ← Step.assign (u "city") (Frame.of_str <$> cities);
         _ ← Step.assign (u "district") (Frame.of_str <$> dists);
         df ← Step.out;
         cells ← Step.lift (Frame.column (u "address") df);
         strs ← Step.apply (u "format_pairs") format_pairs cells;
         Step.assign (u "city_district_pairs_str") (Frame.of_str <$> strs)
       else mret ());
  (* Job title *)
  df ← Step.out;
  _ ← (if Frame.has_column (u "job_title") df then
         cells ← Step.lift (Frame.column (u "job_title") df);
         groups ← Step.apply (u "_job_group") _job_group cells;
         _ ← Step.assign (u "job_title_group") (VStr <$> groups);
         df ← Step.out;
         cells ← Step.lift (Frame.column (u "job_title") df);
         levels ← Step.apply (u "_job_seniority") _job_seniority cells;
         _ ← Step.assign (u "job_seniority") (VStr <$> levels);
         Step.assign (u "job_title_group_big")
           ((fun g => VStr (default (u "other") (collapse_map !! g)))
              <$> groups)
       else mret ());
  (* Type coercion (reduce error for load) *)
  df ← Step.out;
  _ ← (if Frame.has_column (u "min_salary") df then
         cells ← Step.lift (Frame.column (u "min_salary") df);
         Step.assign (u "min_salary") (Frame.to_numeric cells)
       else mret ());
  df ← Step.out;
  if Frame.has_column (u "max_salary") df then
    cells ← Step.lift (Frame.column (u "max_salary") df);
    Step.assign (u "max_salary") (Frame.to_numeric cells)
  else mret ().

(** Apply all three transforms.  Any unexpected exception quarantines the
    whole chunk.  The result comes with the trace of the run. *)
Definition transform (df : DataFrame) (run_id : str) (chunk_idx : Z)
  : result DataFrame * list event :=
  match _validate_schema df with
  | Raise e => (Raise e, [])
  | Ok _ =>
    match enrich (df, []) with
    | (Ok _, (out, trace)) => (Ok out, trace)
    | (Raise e, (out, trace)) =>
      (Raise e, trace ++ [Logged chunk_idx e; Quarantined out e run_id chunk_idx])
    end
  end.

End Transform.

(* ===================================================================== *)
(** ** An instance of the interpreter's tables *)
(* ===================================================================== *)

(** The tables for Basic Latin, Latin-1 and the Vietnamese alphabet
    (U+0000..U+00FF, the letters with breve, horn, tilde and stroke of
    Latin Extended-A and B, and U+1EA0..U+1EF9), as CPython 3.11 has them.
    Other code points are left as they are. *)
Module Latin.

Definition between (lo hi c : N) : bool := (lo <=? c) && (c <=? hi).

Definition VIET_UPPER : list N := [0x102; 0x110; 0x128; 0x168; 0x1A0; 0x1AF].
Definition VIET_LOWER : list N := [0x103; 0x111; 0x129; 0x169; 0x1A1; 0x1B0].

Definition mem (c : N) (l : list N) : bool := existsb (N.eqb c) l.

Definition tolower (c : N) : N :=
  if between 0x41 0x5A c || between 0xC0 0xDE c && negb (c =? 0xD7) then c + 32
  else if mem c VIET_UPPER then c + 1
  else if between 0x1EA0 0x1EF9 c && N.even c then c + 1
  else c.

Definition toupper (c : N) : N :=
  if between 0x61 0x7A c || between 0xE0 0xFE c && negb (c =? 0xF7) then c - 32
  else if c =? 0xFF then 0x178
  else if c =? 0xB5 then 0x39C
  else if c =? 0xDF then 0x53
  else if mem c VIET_LOWER then c - 1
  else if between 0x1EA0 0x1EF9 c && N.odd c then c - 1
  else c.

Definition isalnum (c : N) : bool :=
  between 0x30 0x39 c || between 0x41 0x5A c || between 0x61 0x7A c
  || mem c [0xAA; 0xB2; 0xB3; 0xB5; 0xB9; 0xBA; 0xBC; 0xBD; 0xBE]
  || between 0xC0 0xFF c && negb (c =? 0xD7) && negb (c =? 0xF7)
  || mem c VIET_UPPER || mem c VIET_LOWER || between 0x1EA0 0x1EF9 c.

(** Canonical decompositions, fully expanded. *)
Definition DECOMPOSITION : list (N * list N) :=
  [(0xC0, [0x41; 0x300]); (0xC1, [0x41; 0x301]); (0xC2, [0x41; 0x302]);
   (0xC3, [0x41; 0x303]); (0xC4, [0x41; 0x308]); (0xC5, [0x41; 0x30A]);
   (0xC7, [0x43; 0x327]); (0xC8, [0x45; 0x300]); (0xC9, [0x45; 0x301]);
   (0xCA, [0x45; 0x302]); (0xCB, [0x45; 0x308]); (0xCC, [0x49; 0x300]);
   (0xCD, [0x49; 0x301]); (0xCE, [0x49; 0x302]); (0xCF, [0x49; 0x308]);
   (0xD1, [0x4E; 0x303]); (0xD2, [0x4F; 0x300]); (0xD3, [0x4F; 0x301]);
   (0xD4, [0x4F; 0x302]); (0xD5, [0x4F; 0x303]); (0xD6, [0x4F; 0x308]);
   (0xD9, [0x55; 0x300]); (0xDA, [0x55; 0x301]); (0xDB, [0x55; 0x302]);
   (0xDC, [0x55; 0x308]); (0xDD, [0x59; 0x301]); (0xE0, [0x61; 0x300]);
   (0xE1, [0x61; 0x301]); (0xE2, [0x61; 0x302]); (0xE3, [0x61; 0x303]);
   (0xE4, [0x61; 0x308]); (0xE5, [0x61; 0x30A]); (0xE7, [0x63; 0x327]);
   (0xE8, [0x65; 0x300]); (0xE9, [0x65; 0x301]); (0xEA, [0x65; 0x302]);
   (0xEB, [0x65; 0x308]); (0xEC, [0x69; 0x300]); (0xED, [0x69; 0x301]);
   (0xEE, [0x69; 0x302]); (0xEF, [0x69; 0x308]); (0xF1, [0x6E; 0x303]);
   (0xF2, [0x6F; 0x300]); (0xF3, [0x6F; 0x301]); (0xF4, [0x6F; 0x302]);
   (0xF5, [0x6F; 0x303]); (0xF6, [0x6F; 0x308]); (0xF9, [0x75; 0x300]);
   (0xFA, [0x75; 0x301]); (0xFB, [0x75; 0x302]); (0xFC, [0x75; 0x308]);
   (0xFD, [0x79; 0x301]); (0xFF, [0x79; 0x308]); (0x102, [0x41; 0x306]);
   (0x103, [0x61; 0x306]); (0x128, [0x49; 0x303]); (0x129, [0x69; 0x303]);
   (0x168, [0x55; 0x303]); (0x169, [0x75; 0x303]); (0x1A0, [0x4F; 0x31B]);
   (0x1A1, [0x6F; 0x31B]); (0x1AF, [0x55; 0x31B]); (0x1B0, [0x75; 0x31B]);
   (0x1EA0, [0x41; 0x323]); (0x1EA1, [0x61; 0x323]); (0x1EA2, [0x41; 0x309]);
   (0x1EA3, [0x61; 0x309]); (0x1EA4, [0x41; 0x302; 0x301]);
   (0x1EA5, [0x61; 0x302; 0x301]); (0x1EA6, [0x41; 0x302; 0x300]);
   (0x1EA7, [0x61; 0x302; 0x300]); (0x1EA8, [0x41; 0x302; 0x309]);
   (0x1EA9, [0x61; 0x302; 0x309]); (0x1EAA, [0x41; 0x302; 0x303]);
   (0x1EAB, [0x61; 0x302; 0x303]); (0x1EAC, [0x41; 0x323; 0x302]);
   (0x1EAD, [0x61; 0x323; 0x302]); (0x1EAE, [0x41; 0x306; 0x301]);
   (0x1EAF, [0x61; 0x306; 0x301]); (0x1EB0, [0x41; 0x306; 0x300]);
   (0x1EB1, [0x61; 0x306; 0x300]); (0x1EB2, [0x41; 0x306; 0x309]);
   (0x1EB3, [0x61; 0x306; 0x309]); (0x1EB4, [0x41; 0x306; 0x303]);
   (0x1EB5, [0x61; 0x306; 0x303]); (0x1EB6, [0x41; 0x323; 0x306]);
   (0x1EB7, [0x61; 0x323; 0x306]); (0x1EB8, [0x45; 0x323]);
   (0x1EB9, [0x65; 0x323]); (0x1EBA, [0x45; 0x309]); (0x1EBB, [0x65; 0x309]);
   (0x1EBC, [0x45; 0x303]); (0x1EBD, [0x65; 0x303]);
   (0x1EBE, [0x45; 0x302; 0x301]); (0x1EBF, [0x65; 0x302; 0x301]);
   (0x1EC0, [0x45; 0x302; 0x300]); (0x1EC1, [0x65; 0x302; 0x300]);
   (0x1EC2, [0x45; 0x302; 0x309]); (0x1EC3, [0x65; 0x302; 0x309]);
   (0x1EC4, [0x45; 0x302; 0x303]); (0x1EC5, [0x65; 0x302; 0x303]);
   (0x1EC6, [0x45; 0x323; 0x302]); (0x1EC7, [0x65; 0x323; 0x302]);
   (0x1EC8, [0x49; 0x309]); (0x1EC9, [0x69; 0x309]); (0x1ECA, [0x49; 0x323]);
   (0x1ECB, [0x69; 0x323]); (0x1ECC, [0x4F; 0x323]); (0x1ECD, [0x6F; 0x323]);
   (0x1ECE, [0x4F; 0x309]); (0x1ECF, [0x6F; 0x309]);
   (0x1ED0, [0x4F; 0x302; 0x301]); (0x1ED1, [0x6F; 0x302; 0x301]);
   (0x1ED2, [0x4F; 0x302; 0x300]); (0x1ED3, [0x6F; 0x302; 0x300]);
   (0x1ED4, [0x4F; 0x302; 0x309]); (0x1ED5, [0x6F; 0x302; 0x309]);
   (0x1ED6, [0x4F; 0x302; 0x303]); (0x1ED7, [0x6F; 0x302; 0x303]);
   (0x1ED8, [0x4F; 0x323; 0x302]); (0x1ED9, [0x6F; 0x323; 0x302]);
   (0x1EDA, [0x4F; 0x31B; 0x301]); (0x1EDB, [0x6F; 0x31B; 0x301]);
   (0x1EDC, [0x4F; 0x31B; 0x300]); (0x1EDD, [0x6F; 0x31B; 0x300]);
   (0x1EDE, [0x4F; 0x31B; 0x309]); (0x1EDF, [0x6F; 0x31B; 0x309]);
   (0x1EE0, [0x4F; 0x31B; 0x303]); (0x1EE1, [0x6F; 0x31B; 0x303]);
   (0x1EE2, [0x4F; 0x31B; 0x323]); (0x1EE3, [0x6F; 0x31B; 0x323]);
   (0x1EE4, [0x55; 0x323]); (0x1EE5, [0x75; 0x323]); (0x1EE6, [0x55; 0x309]);
   (0x1EE7, [0x75; 0x309]); (0x1EE8, [0x55; 0x31B; 0x301]);
   (0x1EE9, [0x75; 0x31B; 0x301]); (0x1EEA, [0x55; 0x31B; 0x300]);
   (0x1EEB, [0x75; 0x31B; 0x300]); (0x1EEC, [0x55; 0x31B; 0x309]);
   (0x1EED, [0x75; 0x31B; 0x309]); (0x1EEE, [0x55; 0x31B; 0x303]);
   (0x1EEF, [0x75; 0x31B; 0x303]); (0x1EF0, [0x55; 0x31B; 0x323]);
   (0x1EF1, [0x75; 0x31B; 0x323]); (0x1EF2, [0x59; 0x300]);
   (0x1EF3, [0x79; 0x300]); (0x1EF4, [0x59; 0x323]); (0x1EF5, [0x79; 0x323]);
   (0x1EF6, [0x59; 0x309]); (0x1EF7, [0x79; 0x309]); (0x1EF8, [0x59; 0x303]);
   (0x1EF9, [0x79; 0x303])].

Definition decompose (c : N) : list N :=
  match find (fun kv => fst kv =? c) DECOMPOSITION with
  | Some kv => snd kv
  | None => [c]
  end.

(** The combining diacritical marks U+0300..U+036F. *)
Definition is_Mn (c : N) : bool := between 0x300 0x36F c.

(** Floats print as [nan], [inf] and, for a whole number below 10^16, as
    its digits followed by [.0]. *)
Definition print_float (f : pyfloat) : str :=
  match f with
  | FNan => u "nan"
  | FInf s => (if s then u "-" else []) ++ u "inf"
  | FFin s n =>
    (if s then u "-" else []) ++ Repr.of_int (n / 2 ^ 1074)%Z ++ u ".0"
  end.

Definition runtime : Runtime := {|
  str_lower := fun s => tolower <$> s;
  chr_tolower := tolower;
  chr_toupper := toupper;
  chr_isalnum := isalnum;
  unicodedata_nfd := fun s => s ≫= decompose;
  category_is_Mn := is_Mn;
  float_str := print_float
|}.

End Latin.

(* ===================================================================== *)
(** ** Predicates used to state properties *)
(* ===================================================================== *)

(** The pattern is in the fragment of [re] that is modelled. *)
Definition compiles (p : str) : bool :=
  match Re.compile p with Ok _ => true | Raise _ => false end.

(** What [tok.replace(",", ".")] does to one character. *)
Definition comma_to_point (c : N) : N := if 0x2C =? c then 0x2E else c.

(** The columns that [transform] writes, in the order of the first
    assignment to each. *)
Definition DERIVED_COLUMNS : list str :=
  [u "min_salary"; u "max_salary"; u "salary_unit"; u "salary_note";
   u "city"; u "district"; u "city_district_pairs_str";
   u "job_title_group"; u "job_seniority"; u "job_title_group_big"].

(** A table of [n] rows: the column names are distinct and every column
    holds [n] cells. *)
Definition has_rows (n : nat) (df : DataFrame) : Prop :=
  NoDup df.*1 /\ Forall (fun kv : str * list value => length kv.2 = n) df.

(** A cell of a salary column after [pd.to_numeric]: a missing value is
    NaN. *)
Definition numeric_cell (o : option pyfloat) : value :=
  match o with Some f => VFloat f | None => VFloat FNan end.

(** The table [transform] returns, written from the results of its five
    passes over the rows: the assignments of the [try] block in order. *)
Definition enriched (df : DataFrame) (parsed : list salary)
    (joined : list pair) (strs : list (option str)) (groups levels : list str)
  : DataFrame :=
  let mins := (fun r : salary => r.1.1.1) <$> parsed in
  let maxs := (fun r : salary => r.1.1.2) <$> parsed in
  let units := (fun r : salary => r.1.2) <$> parsed in
  let notes := snd <$> parsed in
  foldl (fun d kv => Frame.set_column kv.1 kv.2 d) df
    [(u "min_salary", Frame.of_float <$> mins);
     (u "max_salary", Frame.of_float <$> maxs);
     (u "salary_unit", VStr <$> units);
     (u "salary_note", VStr <$> notes);
     (u "city", Frame.of_str <$> (fst <$> joined));
     (u "district", Frame.of_str <$> (snd <$> joined));
     (u "city_district_pairs_str", Frame.of_str <$> strs);
     (u "job_title_group", VStr <$> groups);
     (u "job_seniority", VStr <$> levels);
     (u "job_title_group_big",
      (fun g => VStr (default (u "other") (collapse_map !! g))) <$> groups);
     (u "min_salary", numeric_cell <$> mins);
     (u "max_salary", numeric_cell <$> maxs)].

(** Two small tables on which the definitions are run: one row, and the
    three required columns without any row. *)
Definition ONE_ROW : DataFrame :=
  [(u "job_title", [VStr (u "Senior QA Engineer")]);
   (u "address", [VStr (u "Hà Nội, Cầu Giấy")]);
   (u "salary", [VStr (u "10 - 20 triệu")])].

Definition NO_ROWS : DataFrame :=
  [(u "job_title", []); (u "address", []); (u "salary", [])].

(* ===================================================================== *)
(** ** Extract and the pipeline *)
(* ===================================================================== *)

(** [len(df)] and [df.empty]: a table is empty when it has no column or
    no row. *)
Definition df_len (df : DataFrame) : nat :=
  match df with
  | [] => 0
  | (_, cells) :: _ => length cells
  end.

Definition df_empty (df : DataFrame) : bool := Nat.eqb (df_len df) 0.

(** The exceptions of the libraries around [transform]; [CoreError] is an
    exception that [transform] raised. *)
Inductive io_error : Type :=
| FileNotFoundError
| EmptyDataError
| UnicodeDecodeError
| OperationalError
| RetryError
| LibraryError (name : str)
| CoreError (e : exn).

(** The outcome of a call into a library. *)
Inductive io (A : Type) : Type :=
| Done (a : A)
| Failed (e : io_error).
Arguments Done {A} a.
Arguments Failed {A} e.

(** What the iterator of [pd.read_csv(..., chunksize=n)] gives: chunks,
    then the end of the file or an exception. *)
Inductive reader : Type :=
| Next (chunk : DataFrame) (rest : reader)
| Exhausted
| Broken (e : io_error).

(** The lines [extract] logs, and those of [run_pipeline]. *)
Inductive csv_line : Type :=
| CsvNotFound
| CsvEmpty
| CsvEncoding.

Inductive log_line : Type :=
| LogStarted (run_id : str)
| LogDbDown
| LogChunk (i : Z) (rows : nat)
| LogLoaded (i : Z) (rows : nat)
| LogLoadFailed (i : Z) (e : io_error)
| LogFinished
| LogCsv (l : csv_line).

(** A generator of tables, as its consumer sees it: a table, a line
    logged while the generator runs, the end, or an exception. *)
Inductive generator : Type :=
| Yield (df : DataFrame) (rest : generator)
| Logging (l : csv_line) (rest : generator)
| Return
| Throw (e : io_error).

Section Extract.
(** config.py: [int(os.getenv("CHUNKSIZE", "0")) or None] *)
Variable CHUNKSIZE : option Z.
(** [pd.read_csv(CSV_PATH, encoding="utf-8")], and the same call with
    [chunksize=CHUNKSIZE] *)
Variable read_csv : io DataFrame.
Variable read_csv_chunks : reader.

(** The [except] clauses of [extract]. *)
Definition extract_handler (e : io_error) : generator :=
  match e with
  | FileNotFoundError => Logging CsvNotFound (Throw e)
  | EmptyDataError => Logging CsvEmpty (Yield [] Return)
  | UnicodeDecodeError => Logging CsvEncoding (Throw e)
  | _ => Throw e
  end.

Fixpoint extract_chunks (r : reader) : generator :=
  match r with
  | Next chunk rest => Yield chunk (extract_chunks rest)
  | Exhausted => Return
  | Broken e => extract_handler e
  end.

(** Yield DataFrame chunks (or a single DataFrame) from CSV with basic
    guards. *)
Definition extract : generator :=
  if match CHUNKSIZE with Some n => negb (n =? 0)%Z | None => false end
  then extract_chunks read_csv_chunks
  else match read_csv with
       | Done df => Yield df Return
       | Failed e => extract_handler e
       end.

End Extract.

(** The tables a generator yields, and the exception it ends with. *)
Fixpoint yields (g : generator) : list DataFrame :=
  match g with
  | Yield df rest => df :: yields rest
  | Logging _ rest => yields rest
  | Return | Throw _ => []
  end.

Fixpoint thrown (g : generator) : option io_error :=
  match g with
  | Yield _ rest | Logging _ rest => thrown rest
  | Return => None
  | Throw e => Some e
  end.

(** What a run of the pipeline does: the lines it logs, the runs of
    [transform] with their traces, and the tables handed to the database
    with the outcome of every attempt. *)
Inductive pipeline_event : Type :=
| Log (l : log_line)
| Transformed (chunk_idx : Z) (trace : list event)
| Load (chunk_idx : Z) (df : DataFrame) (attempts : list (io unit)).

Section Pipeline.
Context {RT : Runtime}.
Variable STRICT_SCHEMA : bool.
(** [uuid.uuid4().hex[:8]] *)
Variable run_id : str.
(** The database: its state, [create_engine(DB_URL)], the connection of
    the preflight, [metadata.create_all(engine)] and [load.upsert]. *)
Variable DB : Type.
Variable get_engine : io unit.
Variable connect : DB -> io unit.
Variable create_table : DB -> DB * io unit.
Variable upsert : DataFrame -> DB -> DB * io unit.

(** [@retry(stop=stop_after_attempt(3), ...)] around [upsert]: the call
    is repeated after an exception, [left] times at most; when the last
    attempt fails [RetryError] is raised.  The outcomes of the attempts
    are returned with the result. *)
Fixpoint retry_upsert (left : nat) (df : DataFrame) (db : DB)
  : DB * io unit * list (io unit) :=
  match left with
  | O => (db, Failed RetryError, [])
  | S left' =>
    let '(db', r) := upsert df db in
    match r with
    | Done _ => (db', Done (), [r])
    | Failed _ =>
      let '(db'', r', rs) := retry_upsert left' df db' in (db'', r', r :: rs)
    end
  end.

Definition _safe_upsert (df : DataFrame) (db : DB)
  : DB * io unit * list (io unit) :=
  retry_upsert 3 df db.

(** The body of the loop of [run_pipeline] for chunk [i]. *)
Definition run_chunk (i : Z) (df : DataFrame) (db : DB)
  : DB * list pipeline_event :=
  let chunk := Log (LogChunk i (df_len df)) in
  if df_empty df then (db, [chunk])
  else
    match transform STRICT_SCHEMA df run_id i with
    | (Raise _, trace) => (db, [chunk; Transformed i trace])
    | (Ok tdf, trace) =>
      let '(db', r, attempts) := _safe_upsert tdf db in
      (db', [chunk; Transformed i trace; Load i tdf attempts;
             Log (match r with
                  | Done _ => LogLoaded i (df_len tdf)
                  | Failed e => LogLoadFailed i e
                  end)])
    end.

(** The loop over [enumerate(extract(), start=1)]. *)
Fixpoint run_chunks (g : generator) (i : Z) (db : DB)
  : DB * io unit * list pipeline_event :=
  match g with
  | Return => (db, Done (), [])
  | Throw e => (db, Failed e, [])
  | Logging l rest =>
    let '(db', r, evs) := run_chunks rest i db in (db', r, Log (LogCsv l) :: evs)
  | Yield df rest =>
    let '(db', here) := run_chunk i df db in
    let '(db'', r, evs) := run_chunks rest (i + 1) db' in
    (db'', r, here ++ evs)
  end.

(** [run_pipeline()]; [g] is the generator that [extract()] returns and
    [db] the state of the database when the run starts.  The result is
    the state of the database after the run, how the run ended, and what
    it did. *)
Definition run_pipeline (g : generator) (db : DB)
  : DB * io unit * list pipeline_event :=
  let started := Log (LogStarted run_id) in
  match get_engine with
  | Failed e => (db, Failed e, [started])
  | Done _ =>
    (* Preflight DB connection *)
    match connect db with
    | Failed OperationalError => (db, Failed OperationalError, [started; Log LogDbDown])
    | Failed e => (db, Failed e, [started])
    | Done _ =>
      let '(db1, created) := create_table db in
      match created with
      | Failed e => (db1, Failed e, [started])
      | Done _ =>
        let '(db2, r, evs) := run_chunks g 1 db1 in
        (db2, r,
         started :: evs ++ match r with
                           | Done _ => [Log LogFinished]
                           | Failed _ => []
                           end)
      end
    end
  end.

End Pipeline.

(** An attempt that raised. *)
Definition failed {A} (r : io A) : bool :=
  match r with
  | Failed _ => true
  | Done _ => false
  end.

(** The [Chunk i: rows=n] lines of a run, in order. *)
Definition chunk_lines (evs : list pipeline_event) : list (Z * nat) :=
  omap (fun ev => match ev with
                  | Log (LogChunk i n) => Some (i, n)
                  | _ => None
                  end) evs.

(** A database for examples: its state counts the calls of [upsert], and
    the first [n] calls fail. *)
Definition flaky_upsert (n : nat) (_ : DataFrame) (calls : nat) : nat * io unit :=
  (S calls, if Nat.ltb calls n then Failed OperationalError else Done ()).

(** A reading for examples, in chunks: a chunk without rows, a chunk of
    one row, then an encoding error. *)
Definition BROKEN_READING : generator :=
  extract (Some 1%Z) (Done [])
    (Next NO_ROWS (Next ONE_ROW (Broken UnicodeDecodeError))).

(** A database for examples that answers the preflight. *)
Definition ready_engine : io unit := Done ().
Definition ready_connect (_ : nat) : io unit := Done ().
Definition ready_create_table (calls : nat) : nat * io unit := (calls, Done ()).

(* ===================================================================== *)
(** ** Load: the identifier of a row *)
(* ===================================================================== *)

Section Load.
Context {RT : Runtime}.
(** [hashlib.sha256(key.encode("utf-8")).hexdigest()] *)
Variable sha256_hexdigest : str -> str.

(** [row.get(label, "")] on a row of a table: the cell under the label,
    the empty string without it. *)
Definition row_get (row : list (str * value)) (label : str) : value :=
  match find (fun kv => bool_decide (kv.1 = label)) row with
  | Some kv => kv.2
  | None => VStr []
  end.

(** The six texts that are joined, and the key. *)
Definition id_texts (row : list (str * value)) : list str :=
  [ py_str (row_get row (u "job_url"));
    py_str (row_get row (u "job_title"));
    py_str (row_get row (u "company"));
    py_str (row_get row (u "city"));
    py_str (row_get row (u "district"));
    py_str (row_get row (u "salary")) ].

Definition id_key (row : list (str * value)) : str :=
  Str.join (u "|") (id_texts row).


End Load.

Definition PLAIN_ROW_1 : list (str * value) :=
  [(u "job_title", VStr (u "QA")); (u "city", VNone)].
Definition PLAIN_ROW_2 : list (str * value) :=
  [(u "job_title", VStr (u "QA")); (u "city", VStr (u "None"));
   (u "company", VStr [])].
(* ===================================================================== *)
(** * Properties *)
(* ===================================================================== *)

(** ** The matcher finds only matches *)

Module ReFacts.
Import Re.

Section Sound.
Context {RT : Runtime}.

(** Inversion of [Matches], one lemma for each form of pattern. *)
Lemma inv_atom ic a prev pre rest cs cs' :
  Matches ic (RAtom a) prev pre rest cs cs' ->
  exists c, pre = [c] /\ atom_match ic a c = true /\ cs' = cs.
Proof. inversion 1; subst; eauto. Qed.

Lemma inv_star ic a prev pre rest cs cs' :
  Matches ic (RStar a) prev pre rest cs cs' ->
  Forall (fun c => atom_match ic a c = true) pre /\ cs' = cs.
Proof. inversion 1; subst; eauto. Qed.

Lemma inv_plus ic a prev pre rest cs cs' :
  Matches ic (RPlus a) prev pre rest cs cs' ->
  exists c t, pre = c :: t /\ Forall (fun c => atom_match ic a c = true) (c :: t)
              /\ cs' = cs.
Proof. inversion 1; subst; eauto 6. Qed.

Lemma inv_opt ic r prev pre rest cs cs' :
  Matches ic (ROpt r) prev pre rest cs cs' ->
  Matches ic r prev pre rest cs cs' \/ (pre = [] /\ cs' = cs).
Proof. inversion 1; subst; eauto. Qed.

Lemma inv_seq ic r1 r2 prev pre rest cs cs' :
  Matches ic (RSeq r1 r2) prev pre rest cs cs' ->
  exists pre1 pre2 cs1,
    pre = pre1 ++ pre2 /\ Matches ic r1 prev pre1 (pre2 ++ rest) cs cs1
    /\ Matches ic r2 (prev_after prev pre1) pre2 rest cs1 cs'.
Proof. inversion 1; subst; eauto 8. Qed.

Lemma inv_alt ic r1 r2 prev pre rest cs cs' :
  Matches ic (RAlt r1 r2) prev pre rest cs cs' ->
  Matches ic r1 prev pre rest cs cs' \/ Matches ic r2 prev pre rest cs cs'.
Proof. inversion 1; subst; eauto. Qed.

Lemma inv_group ic n r prev pre rest cs cs' :
  Matches ic (RGroup n r) prev pre rest cs cs' ->
  exists cs1, Matches ic r prev pre rest cs cs1 /\ cs' = (n, pre) :: cs1.
Proof. inversion 1; subst; eauto. Qed.

Lemma inv_bol ic prev pre rest cs cs' :
  Matches ic RBol prev pre rest cs cs' -> prev = None /\ pre = [] /\ cs' = cs.
Proof. inversion 1; subst; eauto. Qed.

Lemma prev_after_nil prev : prev_after prev [] = prev.
Proof. reflexivity. Qed.

Lemma prev_after_app prev a b :
  prev_after (prev_after prev a) b = prev_after prev (a ++ b).
Proof.
  unfold prev_after. destruct b as [|x b] using rev_ind.
  - rewrite app_nil_r. simpl. destruct (last a); reflexivity.
  - rewrite app_assoc, !last_snoc. reflexivity.
Qed.

Lemma prev_after_cons prev c pre :
  prev_after (Some c) pre = prev_after prev (c :: pre).
Proof. apply (prev_after_app prev [c] pre). Qed.

Lemma take_app_exact (pre rest : str) :
  take (length (pre ++ rest) - length rest) (pre ++ rest) = pre.
Proof.
  rewrite length_app.
  replace (length pre + length rest - length rest)%nat with (length pre) by lia.
  apply take_app_length.
Qed.

(** A successful greedy run stops after characters of the class. *)
Lemma star_sound p prev s k res :
  star p prev s k = Some res ->
  exists pre rest, s = pre ++ rest /\ Forall (fun c => p c = true) pre
                   /\ k (prev_after prev pre) rest = Some res.
Proof.
  revert prev. induction s as [|c s IH]; intros prev H; simpl in H.
  - exists [], []. auto.
  - destruct (p c) eqn:Hc.
    + destruct (star p (Some c) s k) eqn:Hs.
      * inversion H; subst. destruct (IH _ Hs) as (pre & rest & -> & Hall & Hk).
        exists (c :: pre), rest. split; [reflexivity|]. split; [auto|].
        rewrite <- (prev_after_cons prev). exact Hk.
      * exists [], (c :: s). auto.
    + exists [], (c :: s). auto.
Qed.

(** Whatever [exec] returns comes from a match of [r] followed by a
    success of the continuation. *)
Lemma exec_sound ic r : forall prev s cs k res,
  exec ic r prev s cs k = Some res ->
  exists pre rest cs', s = pre ++ rest /\ Matches ic r prev pre rest cs cs'
                       /\ k (prev_after prev pre) rest cs' = Some res.
Proof.
  induction r; intros prev s cs k res H; simpl in H.
  - exists [], s, cs. split; [reflexivity|]. split; [constructor | exact H].
  - destruct s as [|c s]; [discriminate|].
    destruct (atom_match ic a c) eqn:Hc; [|discriminate].
    exists [c], s, cs. split; [reflexivity|]. split; [by constructor | exact H].
  - apply star_sound in H as (pre & rest & -> & Hall & Hk).
    exists pre, rest, cs. split; [reflexivity|]. split; [by constructor | exact Hk].
  - destruct s as [|c s]; [discriminate|].
    destruct (atom_match ic a c) eqn:Hc; [|discriminate].
    apply star_sound in H as (pre & rest & -> & Hall & Hk).
    exists (c :: pre), rest, cs. split; [reflexivity|].
    split; [constructor; auto|]. rewrite <- (prev_after_cons prev). exact Hk.
  - destruct (exec ic r prev s cs k) eqn:He.
    + inversion H; subst. destruct (IHr _ _ _ _ _ He) as (pre & rest & cs' & -> & Hm & Hk).
      exists pre, rest, cs'. split; [reflexivity|]. split; [by apply M_opt_some | exact Hk].
    + exists [], s, cs. split; [reflexivity|]. split; [apply M_opt_none | exact H].
  - destruct (IHr1 _ _ _ _ _ H) as (pre1 & rest1 & cs1 & -> & Hm1 & Hk1).
    destruct (IHr2 _ _ _ _ _ Hk1) as (pre2 & rest & cs2 & -> & Hm2 & Hk2).
    exists (pre1 ++ pre2), rest, cs2. split; [by rewrite app_assoc|].
    split; [econstructor; eauto|]. rewrite <- prev_after_app. exact Hk2.
  - destruct (exec ic r1 prev s cs k) eqn:He.
    + inversion H; subst. destruct (IHr1 _ _ _ _ _ He) as (pre & rest & cs' & -> & Hm & Hk).
      exists pre, rest, cs'. split; [reflexivity|]. split; [by apply M_alt_l | exact Hk].
    + destruct (IHr2 _ _ _ _ _ H) as (pre & rest & cs' & -> & Hm & Hk).
      exists pre, rest, cs'. split; [reflexivity|]. split; [by apply M_alt_r | exact Hk].
  - destruct (IHr _ _ _ _ _ H) as (pre & rest & cs' & -> & Hm & Hk).
    rewrite take_app_exact in Hk.
    exists pre, rest, ((n, pre) :: cs'). split; [reflexivity|].
    split; [by constructor | exact Hk].
  - destruct prev; [discriminate|].
    exists [], s, cs. split; [reflexivity|]. split; [constructor | exact H].
  - destruct (at_eol s) eqn:He; [|discriminate].
    exists [], s, cs. split; [reflexivity|]. split; [by constructor | exact H].
  - destruct (xorb _ _) eqn:He; [|discriminate].
    exists [], s, cs. split; [reflexivity|]. split; [by constructor | exact H].
Qed.

Lemma match_here_sound ic r prev s rest cs :
  match_here ic r prev s = Some (rest, cs) ->
  exists pre, s = pre ++ rest /\ Matches ic r prev pre rest [] cs.
Proof.
  intros H. apply exec_sound in H as (pre & rest' & cs' & -> & Hm & Hk).
  inversion Hk; subst. eauto.
Qed.

Lemma search_from_eq ic r prev pos s :
  search_from ic r prev pos s =
  match match_here ic r prev s with
  | Some (rest, cs) => Some (MObj pos (take (length s - length rest) s) cs)
  | None =>
    match s with
    | c :: s' => search_from ic r (Some c) (S pos) s'
    | [] => None
    end
  end.
Proof. destruct s; reflexivity. Qed.

(** A match object found by the search is a match of the pattern. *)
Lemma search_from_sound ic r : forall s prev pos m,
  search_from ic r prev pos s = Some m ->
  exists prev' rest, Matches ic r prev' (m_text m) rest [] (m_caps m).
Proof.
  induction s as [|c s IH]; intros prev pos m H; rewrite search_from_eq in H;
    destruct (match_here _ _ _ _) as [[rest cs]|] eqn:Hm; try discriminate.
  - apply match_here_sound in Hm as (pre & Heq & Hm). rewrite Heq in H.
    rewrite take_app_exact in H. inversion H; subst; simpl. eauto.
  - apply match_here_sound in Hm as (pre & Heq & Hm). rewrite Heq in H.
    rewrite take_app_exact in H. inversion H; subst; simpl. eauto.
  - eapply IH; eauto.
Qed.

End Sound.
End ReFacts.

(** ** Rounding is monotone *)

Module FloatFacts.
Import Float.
Local Open Scope Z_scope.

Lemma rne_bounds p d : 0 < d -> 2 * p - d <= 2 * d * rne p d <= 2 * p + d.
Proof.
  intros Hd. unfold rne.
  pose proof (Z.div_mod p d ltac:(lia)) as E.
  pose proof (Z.mod_pos_bound p d Hd) as B.
  set (q := p / d) in *. set (r := p mod d) in *.
  destruct (2 * r <? d) eqn:H1; [apply Z.ltb_lt in H1; nia|].
  apply Z.ltb_ge in H1.
  destruct (d <? 2 * r) eqn:H2; [apply Z.ltb_lt in H2; nia|].
  apply Z.ltb_ge in H2.
  destruct (Z.even q); nia.
Qed.

(** At a tie the even neighbour is chosen. *)
Lemma rne_tie_even p d z :
  0 < d -> 2 * p = 2 * d * z + d -> Z.even (rne p d) = true.
Proof.
  intros Hd Ht. unfold rne.
  assert (Hq : p / d = z).
  { symmetry. apply (Z.div_unique p d z (p - d * z)); lia. }
  assert (Hr : 2 * (p mod d) = d).
  { rewrite Z.mod_eq by lia. rewrite Hq. lia. }
  rewrite Hq.
  destruct (2 * (p mod d) <? d) eqn:H1; [apply Z.ltb_lt in H1; lia|].
  destruct (d <? 2 * (p mod d)) eqn:H2; [apply Z.ltb_lt in H2; lia|].
  destruct (Z.even z) eqn:He; [exact He|].
  rewrite Z.even_add, He. reflexivity.
Qed.

Lemma rne_nonneg p d : 0 <= p -> 0 < d -> 0 <= rne p d.
Proof.
  intros Hp Hd. unfold rne.
  pose proof (Z.div_pos p d Hp Hd).
  repeat match goal with |- context [if ?b then _ else _] => destruct b end; lia.
Qed.

(** [rne] is monotone in the ratio. *)
Lemma rne_mono p1 d1 p2 d2 :
  0 < d1 -> 0 < d2 -> p1 * d2 <= p2 * d1 -> rne p1 d1 <= rne p2 d2.
Proof.
  intros H1 H2 Hle.
  pose proof (rne_bounds p1 d1 H1) as B1.
  pose proof (rne_bounds p2 d2 H2) as B2.
  destruct (Z_le_gt_dec (rne p1 d1) (rne p2 d2)) as [|Hgt]; [assumption|exfalso].
  set (z1 := rne p1 d1) in *. set (z2 := rne p2 d2) in *.
  (* z1 >= z2 + 1, and x1 >= z1 - 1/2 >= z2 + 1/2 >= x2 >= x1 *)
  assert (HD : 0 < d1 * d2) by nia.
  assert (A1 : (2 * d1 * z1) * d2 <= (2 * p1 + d1) * d2)
    by (apply Z.mul_le_mono_nonneg_r; lia).
  assert (A2 : (2 * p2 - d2) * d1 <= (2 * d2 * z2) * d1)
    by (apply Z.mul_le_mono_nonneg_r; lia).
  assert (A3 : (d1 * d2) * z1 <= (d1 * d2) * (z2 + 1)) by lia.
  assert (Ez : z1 = z2 + 1).
  { apply Z.mul_le_mono_pos_l in A3; lia. }
  subst z1. rewrite Ez in *.
  assert (E1' : (2 * d1 * (z2 + 1)) * d2 = (2 * p1 + d1) * d2) by lia.
  assert (E2' : (2 * p2 - d2) * d1 = (2 * d2 * z2) * d1) by lia.
  apply Z.mul_cancel_r in E1'; [|lia]. apply Z.mul_cancel_r in E2'; [|lia].
  assert (E1 : 2 * p1 = 2 * d1 * (z2 + 1 - 1) + d1) by lia.
  assert (E2 : 2 * p2 = 2 * d2 * z2 + d2) by lia.
  pose proof (rne_tie_even p1 d1 (z2 + 1 - 1) H1 E1) as Ev1.
  pose proof (rne_tie_even p2 d2 z2 H2 E2) as Ev2.
  fold z2 in Ev2. rewrite Ez in Ev1.
  rewrite Z.even_add, Ev2 in Ev1. discriminate.
Qed.

Lemma div_cross_mono p1 q1 p2 q2 :
  0 <= p1 -> 0 < q1 -> 0 < q2 -> p1 * q2 <= p2 * q1 -> p1 / q1 <= p2 / q2.
Proof.
  intros Hp H1 H2 Hle.
  apply Z.div_le_lower_bound; [lia|].
  pose proof (Z.mul_div_le p1 q1 H1).
  assert (q1 * (q2 * (p1 / q1)) <= q1 * p2) by nia.
  nia.
Qed.

Lemma grid_exp_mono p1 q1 p2 q2 :
  0 <= p1 -> 0 < q1 -> 0 < q2 -> p1 * q2 <= p2 * q1 ->
  grid_exp p1 q1 <= grid_exp p2 q2.
Proof.
  intros. unfold grid_exp.
  pose proof (Z.log2_le_mono _ _ (div_cross_mono p1 q1 p2 q2 H H0 H1 H2)). lia.
Qed.

Lemma rounded_upper p q :
  0 <= p -> 0 < q -> rounded p q <= 2 ^ (53 + grid_exp p q).
Proof.
  intros Hp Hq. unfold rounded. set (k := grid_exp p q).
  assert (Hk : 0 <= k) by (unfold k, grid_exp; lia).
  assert (H2k : 0 < 2 ^ k) by (apply Z.pow_pos_nonneg; lia).
  rewrite Z.pow_add_r by lia.
  apply Z.mul_le_mono_nonneg_r; [lia|].
  (* p / q < 2 ^ (53 + k), hence p < q * 2^k * 2^53 *)
  assert (Hlt : p / q < 2 ^ (53 + k)).
  { destruct (Z.eq_dec (p / q) 0) as [->|Hnz].
    - apply Z.pow_pos_nonneg; lia.
    - assert (0 < p / q) by (pose proof (Z.div_pos p q Hp Hq); lia).
      pose proof (Z.log2_spec (p / q) H) as [_ Hs].
      eapply Z.lt_le_trans; [exact Hs|].
      apply Z.pow_le_mono_r; [lia|]. unfold k, grid_exp. lia. }
  assert (Hp' : p < q * 2 ^ (53 + k)).
  { pose proof (Z.div_mod p q ltac:(lia)). pose proof (Z.mod_pos_bound p q Hq). nia. }
  rewrite Z.pow_add_r in Hp' by lia.
  pose proof (rne_bounds p (q * 2 ^ k) ltac:(nia)) as B.
  assert (0 < 2 ^ 53) by (apply Z.pow_pos_nonneg; lia).
  set (D := q * 2 ^ k) in *. assert (0 < D) by (unfold D; nia).
  assert (2 * D * rne p D < 2 * D * (2 ^ 53 + 1)) by nia.
  assert (rne p D < 2 ^ 53 + 1) by nia. lia.
Qed.

Lemma rounded_lower p q :
  0 <= p -> 0 < q -> 0 < grid_exp p q -> 2 ^ (52 + grid_exp p q) <= rounded p q.
Proof.
  intros Hp Hq Hk. unfold rounded. set (k := grid_exp p q) in *.
  assert (H2k : 0 < 2 ^ k) by (apply Z.pow_pos_nonneg; lia).
  rewrite Z.pow_add_r by lia.
  apply Z.mul_le_mono_nonneg_r; [lia|].
  assert (Hlog : Z.log2 (p / q) = 52 + k) by (unfold k, grid_exp in *; lia).
  assert (Hpos : 0 < p / q).
  { destruct (Z.eq_dec (p / q) 0) as [E|]; [rewrite E in Hlog; simpl in Hlog; lia|].
    pose proof (Z.div_pos p q Hp Hq); lia. }
  pose proof (Z.log2_spec (p / q) Hpos) as [Hs _]. rewrite Hlog in Hs.
  assert (Hp' : q * 2 ^ (52 + k) <= p).
  { pose proof (Z.mul_div_le p q Hq). nia. }
  rewrite Z.pow_add_r in Hp' by lia.
  assert (0 < 2 ^ 52) by (apply Z.pow_pos_nonneg; lia).
  set (D := q * 2 ^ k) in *. assert (0 < D) by (unfold D; nia).
  pose proof (rne_bounds p D ltac:(lia)) as B.
  assert (2 * D * (2 ^ 52 - 1) < 2 * D * rne p D) by nia.
  assert (2 ^ 52 - 1 < rne p D) by nia. lia.
Qed.

(** Rounding to the grid is monotone. *)
Lemma rounded_mono p1 q1 p2 q2 :
  0 <= p1 -> 0 < q1 -> 0 < q2 -> p1 * q2 <= p2 * q1 ->
  rounded p1 q1 <= rounded p2 q2.
Proof.
  intros Hp H1 H2 Hle.
  assert (Hp2 : 0 <= p2) by nia.
  pose proof (grid_exp_mono _ _ _ _ Hp H1 H2 Hle) as Hk.
  assert (Hk1 : 0 <= grid_exp p1 q1) by (unfold grid_exp; lia).
  destruct (Z.eq_dec (grid_exp p1 q1) (grid_exp p2 q2)) as [E|NE].
  - unfold rounded. rewrite E. set (k := grid_exp p2 q2) in *.
    assert (0 < 2 ^ k) by (apply Z.pow_pos_nonneg; lia).
    apply Z.mul_le_mono_nonneg_r; [lia|].
    apply rne_mono; nia.
  - pose proof (rounded_upper p1 q1 Hp H1).
    pose proof (rounded_lower p2 q2 Hp2 H2 ltac:(lia)).
    assert (2 ^ (53 + grid_exp p1 q1) <= 2 ^ (52 + grid_exp p2 q2))
      by (apply Z.pow_le_mono_r; lia).
    lia.
Qed.

Lemma rounded_nonneg p q : 0 <= p -> 0 < q -> 0 <= rounded p q.
Proof.
  intros Hp Hq. unfold rounded.
  assert (0 <= grid_exp p q) by (unfold grid_exp; lia).
  assert (0 < 2 ^ grid_exp p q) by (apply Z.pow_pos_nonneg; lia).
  pose proof (rne_nonneg p (q * 2 ^ grid_exp p q) Hp ltac:(nia)). nia.
Qed.

Lemma round_nonneg p q : 0 <= p -> 0 < q -> nonneg (round false p q).
Proof.
  intros Hp Hq. unfold round, round_mag. fold (rounded p q).
  destruct (rounded p q <? 2 ^ 2098); simpl; [apply rounded_nonneg; lia | exact I].
Qed.

Lemma round_mono p1 q1 p2 q2 :
  0 <= p1 -> 0 < q1 -> 0 < q2 -> p1 * q2 <= p2 * q1 ->
  leb (round false p1 q1) (round false p2 q2) = true.
Proof.
  intros Hp H1 H2 Hle. pose proof (rounded_mono _ _ _ _ Hp H1 H2 Hle) as Hm.
  unfold round, round_mag. fold (rounded p1 q1) (rounded p2 q2).
  destruct (rounded p1 q1 <? 2 ^ 2098) eqn:E1, (rounded p2 q2 <? 2 ^ 2098) eqn:E2;
    simpl; try reflexivity.
  - apply Z.leb_le. exact Hm.
  - apply Z.ltb_ge in E1. apply Z.ltb_lt in E2. lia.
Qed.

Lemma of_ratio_nonneg p q : 0 <= p -> 0 < q -> nonneg (of_ratio p q).
Proof.
  intros. apply round_nonneg; [|lia].
  assert (0 < 2 ^ 1074) by (apply Z.pow_pos_nonneg; lia). nia.
Qed.

Lemma mul_nonneg x m : nonneg x -> positive m -> nonneg (mul x m).
Proof.
  destruct x as [[] n|[]|], m as [[] k|[]|]; simpl; try tauto; intros Hx Hm.
  - apply round_nonneg; [nia|]. apply Z.pow_pos_nonneg; lia.
  - destruct (k =? 0) eqn:E; [apply Z.eqb_eq in E; lia | exact I].
Qed.

(** Scaling by a positive factor keeps the order of floats that are not
    negative. *)
Lemma mul_mono_r x y m :
  nonneg x -> nonneg y -> positive m ->
  leb x y = true -> leb (mul x m) (mul y m) = true.
Proof.
  destruct m as [[] k|[]|]; simpl; try tauto.
  destruct x as [[] a|[]|], y as [[] b|[]|]; simpl; try tauto; try discriminate;
    intros Hx Hy Hk Hle.
  - apply Z.leb_le in Hle.
    assert (0 < 2 ^ 1074) by (apply Z.pow_pos_nonneg; lia).
    apply round_mono; [nia | lia | lia |].
    apply Z.mul_le_mono_nonneg_r; [lia | nia].
  - destruct (k =? 0) eqn:E; [apply Z.eqb_eq in E; lia|].
    pose proof (round_nonneg (a * k) (2 ^ 1074) ltac:(nia)
                  ltac:(apply Z.pow_pos_nonneg; lia)) as Hn.
    destruct (round false (a * k) (2 ^ 1074)) as [[] ?|[]|]; simpl in *; tauto.
  - destruct (k =? 0) eqn:E; [apply Z.eqb_eq in E; lia|]. reflexivity.
Qed.

Lemma eqb_refl_nonneg x : nonneg x -> eqb x x = true.
Proof.
  destruct x as [[] n|[]|]; simpl; try tauto; intros _;
    unfold eqb; simpl; rewrite ?Z.leb_refl; reflexivity.
Qed.

End FloatFacts.

(** ** Captured groups *)

Module Captures.
Import Re ReFacts.

Section Groups.
Context {RT : Runtime}.

Lemma atom_digit ic c :
  atom_match ic (ASet false [CDigit]) c = Chr.isdecimal c.
Proof. unfold atom_match, citem_match; simpl. by rewrite orb_false_r. Qed.

Lemma lookup_cap_mono ic r prev pre rest cs cs' n :
  Matches ic r prev pre rest cs cs' ->
  is_Some (lookup_cap n cs) -> is_Some (lookup_cap n cs').
Proof.
  induction 1; auto. intros Hs. unfold lookup_cap in *; simpl.
  destruct (Nat.eqb n0 n); simpl; eauto.
Qed.

Lemma sets_group_sound ic r prev pre rest cs cs' n :
  Matches ic r prev pre rest cs cs' ->
  sets_group n r = true -> is_Some (lookup_cap n cs').
Proof.
  induction 1; simpl; intros Hs; try discriminate.
  - apply orb_true_iff in Hs as [Hs|Hs]; [|auto].
    eapply lookup_cap_mono; eauto.
  - apply andb_true_iff in Hs as [Hs _]. auto.
  - apply andb_true_iff in Hs as [_ Hs]. auto.
  - unfold lookup_cap; simpl. destruct (Nat.eqb n0 n) eqn:E; simpl in *; eauto.
Qed.

Lemma leading_digit_sound ic r prev pre rest cs cs' :
  Matches ic r prev pre rest cs cs' ->
  leading_digit r = true -> starts_with_digit pre.
Proof.
  intros H Hl. destruct r; try discriminate.
  destruct r1; try discriminate. destruct a as [| |[] [|[] [|]]]; try discriminate.
  apply inv_seq in H as (pre1 & pre2 & cs1 & -> & H1 & _).
  apply inv_atom in H1 as (c & -> & Hc & _).
  rewrite atom_digit in Hc. exists c, pre2. auto.
Qed.

Lemma digit_group_sound ic r prev pre rest cs cs' n :
  Matches ic r prev pre rest cs cs' ->
  digit_group n r = true ->
  (forall x, lookup_cap n cs = Some x -> starts_with_digit x) ->
  forall x, lookup_cap n cs' = Some x -> starts_with_digit x.
Proof.
  induction 1; simpl; intros Hd Hcs; auto.
  - apply andb_true_iff in Hd as [H1 H2]. auto.
  - apply andb_true_iff in Hd as [H1 H2]. auto.
  - apply andb_true_iff in Hd as [H1 H2]. auto.
  - apply andb_true_iff in Hd as [H1 H2]. intros x Hx.
    unfold lookup_cap in Hx; simpl in Hx.
    destruct (Nat.eqb n0 n) eqn:E; simpl in Hx.
    + inversion Hx; subst. eapply leading_digit_sound; eauto.
    + apply (IHMatches H2 Hcs). exact Hx.
Qed.

(** A group that every match goes through is set in the match object. *)
Lemma search_group_some ic r s m n :
  search_from ic r None 0 s = Some m -> sets_group n r = true ->
  exists x, group n m = Some x.
Proof.
  intros Hs Hg. apply search_from_sound in Hs as (prev' & rest & Hm).
  destruct (sets_group_sound _ _ _ _ _ _ _ n Hm Hg) as [x Hx]. eauto.
Qed.

(** ... and holds text that begins with a decimal digit when the group
    does. *)
Lemma search_group_digit ic r s m n :
  search_from ic r None 0 s = Some m ->
  sets_group n r = true -> digit_group n r = true ->
  exists d t, group n m = Some (d :: t) /\ Chr.isdecimal d = true.
Proof.
  intros Hs Hg Hd. destruct (search_group_some _ _ _ _ _ Hs Hg) as [x Hx].
  apply search_from_sound in Hs as (prev' & rest & Hm).
  destruct (digit_group_sound _ _ _ _ _ _ _ n Hm Hd) with (x := x)
    as (d & t & -> & Hdec); [discriminate | exact Hx |]. eauto.
Qed.

(** A greedy run never fails when what follows cannot fail. *)
Lemma star_total p prev s k :
  (forall p' s', is_Some (k p' s')) -> is_Some (star p prev s k).
Proof.
  intros Hk. revert prev. induction s as [|c s IH]; intros prev; simpl; auto.
  destruct (p c); auto. destruct (IH (Some c)) as [x ->]. eauto.
Qed.

End Groups.
End Captures.

(** ** Salary: numbers are always read *)

Module SalaryFacts.
Import Re ReFacts Captures.

#[local] Arguments Chr.isdecimal : simpl never.
#[local] Arguments Chr.isspace : simpl never.
#[local] Arguments Float.of_ratio : simpl never.
#[local] Arguments Z.pow : simpl never.
#[local] Opaque RANGE_PATTERN CEILING_PATTERN FLOOR_PATTERN POINT_PATTERN.

Lemma todecimal_range zs c d : Chr.digit_in zs c = Some d -> (d <= 9)%N.
Proof.
  induction zs as [|z zs IH]; simpl; [discriminate|].
  destruct (_ && _) eqn:E; [|exact IH].
  intros [= <-]. apply andb_true_iff in E as [E1 E2].
  apply N.leb_le in E1, E2. lia.
Qed.

Lemma isdecimal_not_comma c : Chr.isdecimal c = true -> c <> 0x2C.
Proof. intros H ->. vm_compute in H. discriminate. Qed.

Lemma isdecimal_not_point c : Chr.isdecimal c = true -> c <> 0x2E.
Proof. intros H ->. vm_compute in H. discriminate. Qed.

Lemma digits_from_ok ds : forall acc,
  Forall (fun c => Chr.isdecimal c = true) ds -> (0 <= acc)%Z ->
  exists v, Builtins.digits_from acc ds = Some v /\ (0 <= v)%Z.
Proof.
  induction ds as [|c ds IH]; intros acc Hall Hacc; simpl.
  - eauto.
  - inversion Hall as [|? ? Hc Hds]; subst.
    unfold Chr.isdecimal in Hc. destruct (Chr.todecimal c) as [d|]; [|discriminate].
    apply IH; [exact Hds | lia].
Qed.

Lemma split_point_digits ds tl :
  Forall (fun c => Chr.isdecimal c = true) ds ->
  Builtins.split_point (ds ++ tl) =
  (ds ++ fst (Builtins.split_point tl), snd (Builtins.split_point tl)).
Proof.
  induction 1 as [|c ds Hc Hds IH]; simpl.
  - destruct (Builtins.split_point tl); reflexivity.
  - apply isdecimal_not_point in Hc. apply N.eqb_neq in Hc. rewrite Hc, IH.
    reflexivity.
Qed.

(** [float] accepts digits, and digits with a fraction, and gives a float
    that is not negative. *)
Lemma float_of_str_digits c ds :
  Forall (fun c => Chr.isdecimal c = true) (c :: ds) ->
  exists f, Builtins.float_of_str (c :: ds) = Ok f /\ Float.nonneg f.
Proof.
  intros Hall. unfold Builtins.float_of_str.
  rewrite <- (app_nil_r (c :: ds)), split_point_digits by exact Hall.
  simpl Builtins.split_point. cbn [fst snd default from_option]. unfold id. rewrite ?app_nil_r.
  destruct (digits_from_ok (c :: ds) 0 Hall ltac:(lia)) as (v & Hv & Hv0).
  rewrite Hv. simpl app. eexists; split; [reflexivity|].
  apply FloatFacts.of_ratio_nonneg; [lia|]. apply Z.pow_pos_nonneg; lia.
Qed.

Lemma float_of_str_fraction c ds fs :
  Forall (fun c => Chr.isdecimal c = true) (c :: ds) ->
  Forall (fun c => Chr.isdecimal c = true) fs ->
  exists f, Builtins.float_of_str ((c :: ds) ++ 0x2E :: fs) = Ok f
            /\ Float.nonneg f.
Proof.
  intros Hall Hfs. unfold Builtins.float_of_str.
  rewrite split_point_digits by exact Hall.
  simpl Builtins.split_point. rewrite ?N.eqb_refl.
  cbn [fst snd default from_option]. unfold id. rewrite ?app_nil_r.
  destruct (digits_from_ok (c :: ds) 0 Hall ltac:(lia)) as (v & Hv & Hv0).
  destruct (digits_from_ok ((c :: ds) ++ fs) 0) as (w & Hw & Hw0);
    [apply Forall_app; auto | lia |].
  rewrite Hv, Hw. simpl app. eexists; split; [reflexivity|].
  apply FloatFacts.of_ratio_nonneg; [lia|]. apply Z.pow_pos_nonneg; lia.
Qed.

Ltac step := cbn [mbind result_bind Builtins.as_str Builtins.mul].

Section Salary.
Context {RT : Runtime}.

Lemma compile_num :
  Re.compile (u "(\d+(?:\.\d+)?)") =
  Ok (RGroup 1 (RSeq (RPlus (ASet false [CDigit]))
                  (ROpt (RSeq (RAtom (AChar 0x2E))
                           (RPlus (ASet false [CDigit])))))).
Proof. vm_compute. reflexivity. Qed.

Lemma digits_forall ic l :
  Forall (fun c => atom_match ic (ASet false [CDigit]) c = true) l ->
  Forall (fun c => Chr.isdecimal c = true) l.
Proof. intros H. eapply Forall_impl; [exact H|]. intros c Hc. cbv beta in *.
  rewrite atom_digit in Hc. exact Hc. Qed.

(** [_num] reads a number from any text that begins with a digit. *)
Lemma _num_ok d t :
  Chr.isdecimal d = true ->
  exists f, _num (d :: t) = Ok (Some f) /\ Float.nonneg f.
Proof.
  intros Hd. unfold _num, Re.search, Re.search_with. rewrite compile_num.
  cbn [mbind result_bind].
  change (u ",") with [0x2C]. change (u ".") with [0x2E].
  unfold Str.replace. cbn [Str.replace_from Str.startswith].
  pose proof (isdecimal_not_comma d Hd) as Hc.
  assert (E : (0x2C =? d) = false) by (apply N.eqb_neq; congruence).
  rewrite E. cbn [andb].
  set (t' := Str.replace_from [0x2C] [0x2E] 0 t).
  rewrite search_from_eq.
  destruct (match_here false _ None (d :: t')) as [[rest cs]|] eqn:Hm.
  - apply match_here_sound in Hm as (pre & Heq & Hm).
    rewrite Heq, take_app_exact. unfold group. cbn [m_caps].
    apply inv_group in Hm as (cs1 & Hm & ->). cbn [find fst snd Nat.eqb fmap option_fmap option_map].
    apply inv_seq in Hm as (pre1 & pre2 & cs2 & -> & H1 & H2).
    apply inv_plus in H1 as (c & ds & -> & Hall & ->).
    apply digits_forall in Hall.
    apply inv_opt in H2 as [H2|[-> ->]].
    + apply inv_seq in H2 as (p1 & p2 & cs3 & -> & H3 & H4).
      apply inv_atom in H3 as (c' & -> & Hc' & ->).
      simpl in Hc'. apply N.eqb_eq in Hc'. subst c'.
      apply inv_plus in H4 as (c2 & fs & -> & Hfs & ->).
      apply digits_forall in Hfs.
      destruct (float_of_str_fraction c ds (c2 :: fs) Hall Hfs) as (f & Hf & Hn).
      simpl app in Hf |- *. rewrite Hf. cbn. eauto.
    + rewrite app_nil_r.
      destruct (float_of_str_digits c ds Hall) as (f & Hf & Hn).
      rewrite Hf. cbn. eauto.
  - exfalso. unfold match_here in Hm. cbn [exec] in Hm.
    rewrite atom_digit, Hd in Hm.
    match type of Hm with star ?p ?pv ?s ?k = None =>
      destruct (star_total p pv s k) as [x Hx]; [|congruence] end.
    intros p' s'. cbn beta.
    match goal with |- is_Some (match ?e with _ => _ end) => destruct e end; eauto.
Qed.


Lemma compile_ws :
  Re.compile (u "\s+") = Ok (RPlus (ASet false [CSpace])).
Proof. vm_compute. reflexivity. Qed.

Lemma compile_range :
  exists r, Re.compile RANGE_PATTERN = Ok r
    /\ sets_group 1 r = true /\ digit_group 1 r = true
    /\ sets_group 2 r = true /\ digit_group 2 r = true
    /\ sets_group 3 r = true.
Proof. eexists. split; [vm_compute; reflexivity|]. vm_compute. auto. Qed.

Lemma compile_ceiling :
  exists r, Re.compile CEILING_PATTERN = Ok r
    /\ sets_group 2 r = true /\ digit_group 2 r = true
    /\ sets_group 3 r = true.
Proof. eexists. split; [vm_compute; reflexivity|]. vm_compute. auto. Qed.

Lemma compile_floor :
  exists r, Re.compile FLOOR_PATTERN = Ok r
    /\ sets_group 2 r = true /\ digit_group 2 r = true
    /\ sets_group 3 r = true.
Proof. eexists. split; [vm_compute; reflexivity|]. vm_compute. auto. Qed.

Lemma compile_point :
  exists r, Re.compile POINT_PATTERN = Ok r
    /\ sets_group 1 r = true /\ digit_group 1 r = true
    /\ sets_group 2 r = true.
Proof. eexists. split; [vm_compute; reflexivity|]. vm_compute. auto. Qed.

Lemma search_compiled pattern r s :
  Re.compile pattern = Ok r ->
  Re.search pattern s = Ok (search_from false r None 0 s).
Proof. intros H. unfold Re.search, Re.search_with. rewrite H. reflexivity. Qed.

Lemma unit_multiplier_positive tail cur :
  Float.positive (unit_multiplier tail cur).
Proof.
  unfold unit_multiplier.
  repeat match goal with |- context [if ?b then _ else _] => destruct b end;
    vm_compute; reflexivity.
Qed.

Lemma scaled_nonneg x tail cur v : scaled x tail cur v -> Float.nonneg v.
Proof.
  intros (n & _ & Hn & ->). apply FloatFacts.mul_nonneg; [exact Hn|].
  apply unit_multiplier_positive.
Qed.


Lemma sub_ws s :
  Re.sub (u "\s+") (u " ") s
  = Ok (sub_from false (RPlus (ASet false [CSpace])) (u " ") None 0 s).
Proof. unfold Re.sub, Re.sub_with. rewrite compile_ws. reflexivity. Qed.

(** [parse_salary] answers every string, in one of the seven ways. *)
Lemma parse_salary_case text :
  exists res, parse_salary (VStr text) = Ok res /\ parse_case text res.
Proof.
  unfold parse_salary.
  destruct (Str.strip text) as [|c0 t0] eqn:Hstrip.
  { eexists; split; [reflexivity|]. by apply case_empty. }
  assert (Hne : Str.strip text <> []) by (rewrite Hstrip; discriminate).
  rewrite <- Hstrip. clear Hstrip c0 t0.
  rewrite sub_ws. step.
  set (s := str_lower _).
  assert (Hnorm : normalized text s) by (eexists; split; [apply sub_ws | reflexivity]).
  change (Str.contains (u "thoả thuận") s || Str.contains (u "thỏa thuận") s
          || Str.contains (u "negotiable") s) with (negotiable s).
  destruct (negotiable s) eqn:Hneg.
  { eexists; split; [reflexivity|]. apply (case_negotiable text s); assumption. }
  destruct compile_range as (r1 & Hc1 & S1 & D1 & S2 & D2 & S3).
  destruct compile_ceiling as (r2 & Hc2 & T2 & E2 & T3).
  destruct compile_floor as (r3 & Hc3 & U2 & F2 & U3).
  destruct compile_point as (r4 & Hc4 & V1 & G1 & V2).
  pose proof (search_compiled _ _ s Hc1) as Q1.
  pose proof (search_compiled _ _ s Hc2) as Q2.
  pose proof (search_compiled _ _ s Hc3) as Q3.
  pose proof (search_compiled _ _ s Hc4) as Q4.
  rewrite Q1. step.
  destruct (search_from false r1 None 0 s) as [m|] eqn:Hs1.
  { destruct (search_group_digit _ _ _ _ 1 Hs1 S1 D1) as (d1 & t1 & Hg1 & Hd1).
    destruct (search_group_digit _ _ _ _ 2 Hs1 S2 D2) as (d2 & t2 & Hg2 & Hd2).
    destruct (search_group_some _ _ _ _ 3 Hs1 S3) as (tail & Hg3).
    destruct (_num_ok d1 t1 Hd1) as (x & Hx & Nx).
    destruct (_num_ok d2 t2 Hd2) as (y & Hy & Ny).
    rewrite Hg1, Hg2, Hg3. step. rewrite Hx. step. rewrite Hy. step.
    eexists; split; [reflexivity|].
    apply (case_range text s m (d1 :: t1) (d2 :: t2) tail);
      [exact Hne | exact Hnorm | exact Hneg | exact Q1 | exact Hg1 | exact Hg2
       | exact Hg3 | exists x; auto | exists y; auto]. }
  rewrite Q2. step.
  destruct (search_from false r2 None 0 s) as [m|] eqn:Hs2.
  { destruct (search_group_digit _ _ _ _ 2 Hs2 T2 E2) as (d & t & Hg2 & Hd).
    destruct (search_group_some _ _ _ _ 3 Hs2 T3) as (tail & Hg3).
    destruct (_num_ok d t Hd) as (x & Hx & Nx).
    rewrite Hg2, Hg3. step. rewrite Hx. step.
    eexists; split; [reflexivity|].
    apply (case_ceiling text s m (d :: t) tail);
      [exact Hne | exact Hnorm | exact Hneg | exact Q1 | exact Q2 | exact Hg2
       | exact Hg3 | exists x; auto]. }
  rewrite Q3. step.
  destruct (search_from false r3 None 0 s) as [m|] eqn:Hs3.
  { destruct (search_group_digit _ _ _ _ 2 Hs3 U2 F2) as (d & t & Hg2 & Hd).
    destruct (search_group_some _ _ _ _ 3 Hs3 U3) as (tail & Hg3).
    destruct (_num_ok d t Hd) as (x & Hx & Nx).
    rewrite Hg2, Hg3. step. rewrite Hx. step.
    eexists; split; [reflexivity|].
    apply (case_floor text s m (d :: t) tail);
      [exact Hne | exact Hnorm | exact Hneg | exact Q1 | exact Q2 | exact Q3
       | exact Hg2 | exact Hg3 | exists x; auto]. }
  rewrite Q4. step.
  destruct (search_from false r4 None 0 s) as [m|] eqn:Hs4.
  { destruct (search_group_digit _ _ _ _ 1 Hs4 V1 G1) as (d & t & Hg1 & Hd).
    destruct (search_group_some _ _ _ _ 2 Hs4 V2) as (tail & Hg2).
    destruct (_num_ok d t Hd) as (x & Hx & Nx).
    rewrite Hg1, Hg2. step. rewrite Hx. step.
    eexists; split; [reflexivity|].
    apply (case_point text s m (d :: t) tail);
      [exact Hne | exact Hnorm | exact Hneg | exact Q1 | exact Q2 | exact Q3
       | exact Q4 | exact Hg1 | exact Hg2 | exists x; auto]. }
  eexists; split; [reflexivity|].
  apply (case_unparsed text s); assumption.
Qed.

End Salary.
End SalaryFacts.

(** ** Salary: the contract of [parse_salary] *)

Module SalaryContract.
Import Re ReFacts Captures SalaryFacts.

#[local] Opaque RANGE_PATTERN CEILING_PATTERN FLOOR_PATTERN POINT_PATTERN.

(** The seven notes are different strings. *)
Ltac note_clash :=
  match goal with
  | H : u _ = u _ |- _ => vm_compute in H; discriminate H
  end.

Ltac note_member :=
  repeat first [apply list_elem_of_here | apply list_elem_of_further].

Section Contract.
Context {RT : Runtime}.

(** C9.  For every value that is not a string (a number, a missing
    value, [None]) [parse_salary] returns [(None, None, "VND", "empty")],
    which is also its answer for blank text. *)
Theorem parse_salary_non_string (v : value) :
  is_str v = false ->
  parse_salary v = Ok (None, None, u "VND", u "empty")
  /\ forall blank, Str.strip blank = [] ->
       parse_salary (VStr blank) = parse_salary v.
Proof.
  intros Hv. destruct v; try discriminate; (split; [reflexivity|]);
    intros blank Hb; unfold parse_salary; rewrite Hb; reflexivity.
Qed.

(** [parse_salary] never raises. *)
Lemma parse_salary_total (v : value) : exists t, parse_salary v = Ok t.
Proof.
  destruct v as [| | | |text]; try (eexists; reflexivity).
  destruct (parse_salary_case text) as (res & Hres & _). eauto.
Qed.

(** C1, amended.  For every input value [parse_salary] returns a 4-tuple
    and never raises; for every string that is not blank and whose
    normalised text holds no negotiation marker and matches none of the
    range, ceiling, floor and single-number patterns, it returns
    [(None, None, currency, "unparsed")] with the detected currency. *)
Theorem parse_salary_never_raises (v : value) :
  (exists t, parse_salary v = Ok t)
  /\ forall text s,
       v = VStr text -> Str.strip text <> [] ->
       normalized text s -> negotiable s = false ->
       Re.search RANGE_PATTERN s = Ok None ->
       Re.search CEILING_PATTERN s = Ok None ->
       Re.search FLOOR_PATTERN s = Ok None ->
       Re.search POINT_PATTERN s = Ok None ->
       parse_salary v = Ok (None, None, detect_currency s, u "unparsed").
Proof.
  split; [apply parse_salary_total|].
  intros text s -> Hne (s0 & Hsub & ->) Hneg H1 H2 H3 H4.
  unfold parse_salary. destruct (Str.strip text) as [|c0 t0] eqn:Hs; [congruence|].
  rewrite Hsub. step.
  unfold negotiable in Hneg. rewrite Hneg.
  rewrite H1. step. rewrite H2. step. rewrite H3. step. rewrite H4. step.
  reflexivity.
Qed.

(** C2.  For every string the note of the answer fixes which of min and
    max are null: both are set for "range" and "point" (and equal for
    "point"), only min for "floor", only max for "ceiling", neither for
    "negotiable", "empty" and "unparsed".  A bound that is set is a float
    that is neither negative nor a NaN. *)
Theorem parse_salary_note_determines_nulls (text : str) :
  exists mn mx cur note,
    parse_salary (VStr text) = Ok (mn, mx, cur, note)
    /\ (note = u "range" ->
        exists a b, mn = Some a /\ mx = Some b
                    /\ Float.nonneg a /\ Float.nonneg b)
    /\ (note = u "point" ->
        exists v, mn = Some v /\ mx = Some v /\ Float.eqb v v = true)
    /\ (note = u "floor" -> exists a, mn = Some a /\ Float.nonneg a /\ mx = None)
    /\ (note = u "ceiling" ->
        exists b, mn = None /\ mx = Some b /\ Float.nonneg b)
    /\ (note = u "negotiable" \/ note = u "empty" \/ note = u "unparsed" ->
        mn = None /\ mx = None)
    /\ note ∈ [u "range"; u "point"; u "floor"; u "ceiling"; u "negotiable";
               u "empty"; u "unparsed"].
Proof.
  destruct (parse_salary_case text) as (res & Hres & Hcase).
  destruct Hcase; do 4 eexists; (split; [exact Hres|]);
    repeat match goal with |- _ /\ _ => split end;
    try solve [note_member];
    try solve [intros Hn; note_clash];
    try solve [intros [Hn|[Hn|Hn]]; note_clash];
    try solve [intros _; split; reflexivity];
    intros _.
  - do 2 eexists. repeat (split; [reflexivity|]).
    split; eapply scaled_nonneg; eassumption.
  - eexists. repeat (split; [reflexivity|]). eapply scaled_nonneg; eassumption.
  - eexists. split; [reflexivity|]. split; [|reflexivity].
    eapply scaled_nonneg; eassumption.
  - eexists. split; [reflexivity|]. split; [reflexivity|].
    apply FloatFacts.eqb_refl_nonneg. eapply scaled_nonneg; eassumption.
Qed.

(** C3, amended.  When [parse_salary] answers "range", min and max are
    the first and the second number of the matched range, in the order
    they are written, scaled by the same unit multiplier; min <= max
    holds whenever the first number does not exceed the second. *)
Theorem range_bounds_in_text_order (text : str) (a b : pyfloat) (cur : str) :
  parse_salary (VStr text) = Ok (Some a, Some b, cur, u "range") ->
  exists s m lo hi tail x y,
    normalized text s /\ Re.search RANGE_PATTERN s = Ok (Some m)
    /\ Re.group 1 m = Some lo /\ Re.group 2 m = Some hi
    /\ Re.group 3 m = Some tail
    /\ _num lo = Ok (Some x) /\ _num hi = Ok (Some y)
    /\ a = Float.mul x (unit_multiplier tail cur)
    /\ b = Float.mul y (unit_multiplier tail cur)
    /\ (Float.leb x y = true -> Float.leb a b = true).
Proof.
  intros H. destruct (parse_salary_case text) as (res & Hres & Hcase).
  rewrite Hres in H. injection H as ->.
  remember (Some a, Some b, cur, u "range") as r eqn:Er.
  destruct Hcase; inversion Er; subst; try note_clash.
  match goal with
  | Ha : scaled lo _ _ _, Hb : scaled hi _ _ _ |- _ =>
    destruct Ha as (x & Hx & Nx & ->); destruct Hb as (y & Hy & Ny & ->)
  end.
  exists s, m, lo, hi, tail, x, y. repeat (split; [assumption || reflexivity|]).
  apply FloatFacts.mul_mono_r; auto. apply unit_multiplier_positive.
Qed.

End Contract.

(** The closed statements below run the definitions on the Latin tables. *)
#[local] Existing Instance Latin.runtime.

(** C9, at a missing value of the input table. *)
Lemma parse_salary_non_string_witness :
  parse_salary (RT := Latin.runtime) (VFloat FNan)
  = Ok (None, None, u "VND", u "empty")
  /\ forall blank, Str.strip blank = [] ->
       parse_salary (RT := Latin.runtime) (VStr blank)
       = parse_salary (RT := Latin.runtime) (VFloat FNan).
Proof. apply (parse_salary_non_string (RT := Latin.runtime) (VFloat FNan)). reflexivity. Defined.


(** C1, as first stated, fails at the empty string: it holds no marker
    and matches none of the four patterns, and the answer is "empty". *)
Lemma parse_salary_blank_is_not_unparsed :
  ~ (forall (RT : Runtime) (v : value),
       (exists t, parse_salary v = Ok t)
       /\ forall text s,
            v = VStr text ->
            normalized text s -> negotiable s = false ->
            Re.search RANGE_PATTERN s = Ok None ->
            Re.search CEILING_PATTERN s = Ok None ->
            Re.search FLOOR_PATTERN s = Ok None ->
            Re.search POINT_PATTERN s = Ok None ->
            parse_salary v = Ok (None, None, detect_currency s, u "unparsed")).
Proof.
  intros H. destruct (H Latin.runtime (VStr [])) as [_ H2].
  assert (Hn : normalized (RT := Latin.runtime) [] []).
  { exists []. split; vm_compute; reflexivity. }
  specialize (H2 [] [] eq_refl Hn).
  assert (E : parse_salary (RT := Latin.runtime) (VStr [])
              = Ok (None, None, detect_currency [], u "unparsed")).
  { apply H2; vm_compute; reflexivity. }
  vm_compute in E. discriminate E.
Qed.

(** C1, amended, at the text "abc". *)
Lemma parse_salary_never_raises_witness :
  Str.strip (u "abc") <> []
  /\ parse_salary (RT := Latin.runtime) (VStr (u "abc"))
     = Ok (None, None, u "VND", u "unparsed").
Proof.
  split; [vm_compute; discriminate|].
  refine (proj2 (parse_salary_never_raises (RT := Latin.runtime)
                   (VStr (u "abc"))) (u "abc") (u "abc") eq_refl _ _ _ _ _ _ _).
  - vm_compute; discriminate.
  - exists (u "abc"). split; vm_compute; reflexivity.
  - vm_compute; reflexivity.
  - vm_compute; reflexivity.
  - vm_compute; reflexivity.
  - vm_compute; reflexivity.
  - vm_compute; reflexivity.
Defined.

(** C3, as first stated, fails at a descending range: "20 - 10" is
    answered with min 20 and max 10. *)
Lemma descending_range_keeps_text_order :
  ~ (forall (RT : Runtime) (text : str) (a b : pyfloat) (cur : str),
       parse_salary (VStr text) = Ok (Some a, Some b, cur, u "range") ->
       Float.leb a b = true).
Proof.
  intros H.
  specialize (H Latin.runtime (u "20 - 10") (Float.of_Z 20) (Float.of_Z 10)
                (u "VND")).
  assert (E : Float.leb (Float.of_Z 20) (Float.of_Z 10) = true).
  { apply H. vm_compute. reflexivity. }
  vm_compute in E. discriminate E.
Qed.

(** C3, amended, at the text "10 - 20 triệu". *)
Lemma range_bounds_in_text_order_witness :
  parse_salary (RT := Latin.runtime) (VStr (u "10 - 20 triệu"))
  = Ok (Some (Float.of_Z 10000000), Some (Float.of_Z 20000000), u "VND",
        u "range")
  /\ exists s m lo hi tail x y,
       normalized (RT := Latin.runtime) (u "10 - 20 triệu") s
       /\ Re.search RANGE_PATTERN s = Ok (Some m)
       /\ Re.group 1 m = Some lo /\ Re.group 2 m = Some hi
       /\ Re.group 3 m = Some tail
       /\ _num lo = Ok (Some x) /\ _num hi = Ok (Some y)
       /\ Float.of_Z 10000000 = Float.mul x (unit_multiplier tail (u "VND"))
       /\ Float.of_Z 20000000 = Float.mul y (unit_multiplier tail (u "VND"))
       /\ (Float.leb x y = true ->
           Float.leb (Float.of_Z 10000000) (Float.of_Z 20000000) = true).
Proof.
  assert (E : parse_salary (RT := Latin.runtime) (VStr (u "10 - 20 triệu"))
              = Ok (Some (Float.of_Z 10000000), Some (Float.of_Z 20000000),
                    u "VND", u "range"))
    by (vm_compute; reflexivity).
  split; [exact E|].
  exact (range_bounds_in_text_order (RT := Latin.runtime) _ _ _ _ E).
Defined.

End SalaryContract.

(** ** Address: tokens and canonical names *)

Module StrFacts.

#[local] Arguments Chr.isspace : simpl never.

Lemma lstrip_head s c r : Str.lstrip s = c :: r -> Chr.isspace c = false.
Proof.
  induction s as [|x s IH]; simpl; [discriminate|].
  destruct (Chr.isspace x) eqn:E; [exact IH|]. intros [= <- <-]. exact E.
Qed.

Lemma lstrip_fixed c r : Chr.isspace c = false -> Str.lstrip (c :: r) = c :: r.
Proof. intros E. simpl. rewrite E. reflexivity. Qed.

Lemma rstrip_snoc s c :
  Str.rstrip (s ++ [c]) = if Chr.isspace c then Str.rstrip s else s ++ [c].
Proof.
  unfold Str.rstrip. rewrite reverse_snoc. simpl.
  destruct (Chr.isspace c); [reflexivity|].
  rewrite reverse_cons, reverse_involutive. reflexivity.
Qed.

Lemma rstrip_nil : Str.rstrip [] = [].
Proof. reflexivity. Qed.

(** What is left by [rstrip] ends with a character that is not white
    space. *)
Lemma rstrip_last s c : last (Str.rstrip s) = Some c -> Chr.isspace c = false.
Proof.
  induction s as [|x s IH] using rev_ind; [discriminate|].
  rewrite rstrip_snoc. destruct (Chr.isspace x) eqn:E; [exact IH|].
  rewrite last_snoc. intros [= <-]. exact E.
Qed.

Lemma rstrip_fixed s c :
  last s = Some c -> Chr.isspace c = false -> Str.rstrip s = s.
Proof.
  destruct s as [|x s] using rev_ind; [discriminate|].
  rewrite last_snoc. intros [= ->] E. rewrite rstrip_snoc, E. reflexivity.
Qed.

(** [rstrip] keeps a first character that is not white space. *)
Lemma rstrip_head c r :
  Chr.isspace c = false -> exists r', Str.rstrip (c :: r) = c :: r'.
Proof.
  intros E. induction r as [|x r IH] using rev_ind.
  - exists []. apply (rstrip_fixed [c] c); [reflexivity | exact E].
  - change (c :: r ++ [x]) with ((c :: r) ++ [x]). rewrite rstrip_snoc.
    destruct (Chr.isspace x); [exact IH | eauto].
Qed.

Lemma strip_last s c : last (Str.strip s) = Some c -> Chr.isspace c = false.
Proof. apply rstrip_last. Qed.

Lemma strip_head s c r : Str.strip s = c :: r -> Chr.isspace c = false.
Proof.
  unfold Str.strip. destruct (Str.lstrip s) as [|x t] eqn:E; [discriminate|].
  pose proof (lstrip_head _ _ _ E) as Hx.
  destruct (rstrip_head x t Hx) as [r' ->]. intros [= <- <-]. exact Hx.
Qed.

(** Stripping twice is stripping once. *)
Lemma strip_idem s : Str.strip (Str.strip s) = Str.strip s.
Proof.
  destruct (Str.strip s) as [|c r] eqn:E; [reflexivity|].
  pose proof (strip_head _ _ _ E) as Hc.
  assert (Hl : exists d, last (c :: r) = Some d).
  { destruct (last (c :: r)) eqn:El; [eauto|]. apply last_None in El. discriminate. }
  destruct Hl as [d Hd].
  assert (Hd' : Chr.isspace d = false) by (apply (strip_last s); rewrite E; exact Hd).
  unfold Str.strip. rewrite (lstrip_fixed c r Hc). apply (rstrip_fixed _ d Hd Hd').
Qed.

End StrFacts.

Module AddressFacts.
Import Re ReFacts StrFacts SalaryFacts.

#[local] Arguments Chr.isspace : simpl never.
#[local] Arguments Chr.isdecimal : simpl never.

Ltac run := cbn [mbind result_bind mret result_ret].

(** A list comprehension that never raises has one element for each
    element of its source. *)
Lemma rmap_total {A B} (f : A -> result B) l :
  (forall k a, l !! k = Some a -> exists b, f a = Ok b) ->
  exists bs, rmap f l = Ok bs.
Proof.
  induction l as [|a l IH]; intros H; simpl; [eauto|].
  destruct (H 0%nat a eq_refl) as [b ->]. run.
  destruct IH as [bs ->]; [intros k x Hk; apply (H (S k)); exact Hk|].
  run. eauto.
Qed.

Lemma rmap_lookup {A B} (f : A -> result B) l bs :
  rmap f l = Ok bs ->
  length bs = length l
  /\ forall k b, bs !! k = Some b -> exists a, l !! k = Some a /\ f a = Ok b.
Proof.
  revert bs. induction l as [|a l IH]; intros bs; simpl.
  - intros [= <-]. split; [reflexivity|]. intros k b Hk. destruct k; discriminate.
  - destruct (f a) as [b0|e] eqn:Ha; run; [|discriminate].
    destruct (rmap f l) as [bs0|e] eqn:Hl; run; [|discriminate].
    intros [= <-]. destruct (IH bs0 eq_refl) as [Hlen Hk]. split; [simpl; lia|].
    intros [|k] b Hb; simpl in Hb.
    + injection Hb as <-. exists a. auto.
    + apply Hk. exact Hb.
Qed.

Lemma getitem_nat {A} (l : list A) i a :
  l !! i = Some a -> Py.getitem l (Z.of_nat i) = Ok a.
Proof.
  intros H. unfold Py.getitem. cbv zeta.
  assert (E : (Z.of_nat i <? 0)%Z = false) by (apply Z.ltb_ge; lia).
  rewrite !E. rewrite Nat2Z.id, H. reflexivity.
Qed.

(** The indices of the loop: 0, 2, 4, ... below [n - 1]. *)
Lemma range_pairs_length n :
  length (Py.range 0 (Z.of_nat n - 1) 2) = (n / 2)%nat.
Proof.
  unfold Py.range. rewrite length_fmap, length_seqZ.
  replace (Z.of_nat n - 1 - 0 + 2 - 1)%Z with (Z.of_nat n) by lia.
  rewrite Z.max_r by (apply Z.div_pos; lia).
  rewrite <- (Nat2Z.id (n / 2)). f_equal. rewrite Nat2Z.inj_div. reflexivity.
Qed.

Lemma range_pairs_lookup n k i :
  Py.range 0 (Z.of_nat n - 1) 2 !! k = Some i ->
  i = Z.of_nat (2 * k) /\ (2 * k + 1 < n)%nat.
Proof.
  unfold Py.range. rewrite list_lookup_fmap.
  destruct (seqZ 0 _ !! k) as [j|] eqn:E; [|discriminate].
  simpl. intros [= <-]. apply lookup_seqZ in E as [-> Hlt].
  replace (Z.of_nat n - 1 - 0 + 2 - 1)%Z with (Z.of_nat n) in Hlt by lia.
  rewrite Z.max_r in Hlt by (apply Z.div_pos; lia).
  split; [lia|].
  assert (Z.of_nat k < Z.of_nat n / 2)%Z by lia.
  assert (2 * (Z.of_nat n / 2) <= Z.of_nat n)%Z by (apply Z.mul_div_le; lia).
  assert (2 * Z.of_nat k + 2 <= Z.of_nat n)%Z by lia. lia.
Qed.

Section Address.
Context {RT : Runtime}.

Lemma space_match ic c :
  atom_match ic (ASet false [CSpace]) c = Chr.isspace c.
Proof. unfold atom_match, citem_match; simpl. by rewrite orb_false_r. Qed.

Lemma _norm_total s : exists n, _norm s = Ok n.
Proof. unfold _norm. rewrite sub_ws. eauto. Qed.

(** *** The administrative prefix *)

Lemma compile_prefix :
  exists g,
    Re.compile (u "^\s*(tp\.?|thành phố|thanh pho|tỉnh|tinh)\s+")
    = Ok (RSeq RBol (RSeq (RStar (ASet false [CSpace]))
                       (RSeq (RGroup 1 g) (RPlus (ASet false [CSpace]))))).
Proof. eexists. vm_compute. reflexivity. Qed.

(** A pattern anchored at the start matches nowhere else. *)
Lemma sub_from_after_start ic r repl : forall s c skip,
  sub_from ic (RSeq RBol r) repl (Some c) skip s = drop skip s.
Proof.
  induction s as [|x s IH]; intros c skip; simpl.
  - by destruct skip.
  - destruct skip; simpl; [|apply IH].
    unfold match_here. cbn [exec]. f_equal. apply (IH x 0%nat).
Qed.

Lemma sub_anchored ic r s :
  sub_from ic (RSeq RBol r) [] None 0 s = s
  \/ exists pre rest cs,
       s = pre ++ rest /\ Matches ic (RSeq RBol r) None pre rest [] cs
       /\ sub_from ic (RSeq RBol r) [] None 0 s = rest.
Proof.
  destruct s as [|c s]; [left; reflexivity|].
  cbn [sub_from].
  destruct (match_here ic (RSeq RBol r) None (c :: s)) as [[rest cs]|] eqn:Hm.
  - pose proof Hm as Hm'. apply match_here_sound in Hm' as (pre & Heq & HM).
    rewrite Heq. rewrite length_app.
    replace (length pre + length rest - length rest)%nat with (length pre) by lia.
    destruct pre as [|p pre].
    + simpl. simpl in Heq. subst rest. left.
      rewrite sub_from_after_start. reflexivity.
    + right. exists (p :: pre), rest, cs. split; [reflexivity|].
      split; [exact HM|]. simpl. simpl in Heq. injection Heq as -> ->.
      rewrite sub_from_after_start. apply drop_app_length.
  - left. rewrite sub_from_after_start. reflexivity.
Qed.

(** Taking the prefix off a stripped token leaves text. *)
Lemma _strip_admin_prefix_nonempty raw :
  Str.strip raw <> [] -> exists p, _strip_admin_prefix raw = Ok p /\ p <> [].
Proof.
  intros Hne. unfold _strip_admin_prefix, Re.sub_with.
  destruct compile_prefix as [g ->]. run.
  eexists; split; [reflexivity|].
  match goal with
  | |- sub_from true (RSeq RBol ?r) _ _ _ _ <> [] =>
    destruct (sub_anchored true r (Str.strip raw))
      as [->|(pre & rest & cs & Heq & HM & ->)]; [exact Hne|]
  end.
  intros ->. rewrite app_nil_r in Heq.
  apply inv_seq in HM as (p0 & p1 & c1 & -> & H0 & HM).
  apply inv_seq in HM as (p2 & p3 & c2 & -> & H2 & HM).
  apply inv_seq in HM as (p4 & p5 & c3 & -> & H4 & HM).
  apply inv_plus in HM as (c & t & -> & Hall & _).
  assert (Hlast : exists d, last (Str.strip raw) = Some d /\ Chr.isspace d = true).
  { rewrite Heq. rewrite !app_assoc.
    destruct (last (c :: t)) as [d|] eqn:El; [|apply last_None in El; discriminate].
    exists d. apply last_Some in El as [l' El]. rewrite El in Hall |- *.
    rewrite app_assoc, last_snoc. split; [reflexivity|].
    apply Forall_app in Hall as [_ Hd]. inversion Hd; subst.
    rewrite space_match in *. assumption. }
  destruct Hlast as (d & Hd & Hsp). apply strip_last in Hd. congruence.
Qed.

Lemma _base_name_total raw : exists n, _base_name raw = Ok n.
Proof.
  unfold _base_name, _strip_admin_prefix, Re.sub_with.
  destruct compile_prefix as [g ->]. run. apply _norm_total.
Qed.

(** *** The canonical names *)

Lemma update_values (P : str -> Prop) items : forall d,
  map_Forall (fun _ v => P v) d -> Forall (fun kv => P kv.2) items ->
  map_Forall (fun _ v => P v) (Py.update d items).
Proof.
  unfold Py.update. induction items as [|[k v] items IH]; intros d Hd Hi; simpl.
  - exact Hd.
  - inversion Hi; subst. apply IH; [|assumption].
    apply map_Forall_insert_2; assumption.
Qed.

Lemma forallb_nonempty (l : list str) :
  forallb (fun p => negb (Nat.eqb (length p) 0)) l = true ->
  Forall (fun p => p <> []) l.
Proof.
  intros H. apply Forall_forall. intros p Hp.
  apply list_elem_of_In in Hp.
  pose proof (proj1 (forallb_forall _ l) H p Hp) as Hb.
  intros ->. discriminate.
Qed.

(** Every canonical name is a non-empty string. *)
Lemma CANON_values k v : CANON !! k = Some v -> v <> [].
Proof.
  revert k v. change (map_Forall (fun _ v => v <> @nil N) CANON).
  unfold CANON. apply update_values; [apply update_values|].
  - apply map_Forall_empty.
  - apply Forall_fmap.
    eapply Forall_impl; [apply forallb_nonempty; vm_compute; reflexivity|].
    intros p Hp. exact Hp.
  - apply (proj1 (Forall_fmap snd (fun v : str => v <> []) CANON_ALIASES)).
    apply forallb_nonempty. vm_compute. reflexivity.
Qed.

Lemma _canon_city_ok t :
  t <> [] -> Str.strip t <> [] ->
  exists c, _canon_city (Some t) = Ok (Some c) /\ c <> [].
Proof.
  intros Ht Hs. unfold _canon_city. destruct t as [|x t]; [congruence|].
  destruct (_norm_total (x :: t)) as [key ->]. run.
  destruct (CANON !! key) as [c|] eqn:Hc.
  { exists c. split; [reflexivity|]. eapply CANON_values; eauto. }
  destruct (_base_name_total (x :: t)) as [key2 ->]. run.
  destruct (CANON !! key2) as [c|] eqn:Hc2.
  { exists c. split; [reflexivity|]. eapply CANON_values; eauto. }
  destruct (_strip_admin_prefix_nonempty (x :: t) Hs) as (p & -> & Hp). run.
  destruct p as [|y p]; [congruence|]. eexists; split; [reflexivity|]. discriminate.
Qed.

Lemma _canon_district_ok t :
  t <> [] -> Str.strip t <> [] ->
  exists d, _canon_district (Some t) = Ok (Some d) /\ d <> [].
Proof.
  intros Ht Hs. unfold _canon_district. destruct t as [|x t]; [congruence|].
  destruct (_strip_admin_prefix_nonempty (x :: t) Hs) as (p & -> & Hp). run.
  eauto.
Qed.

Lemma _is_city_total t : exists b, _is_city t = Ok b.
Proof. unfold _is_city. destruct (_norm_total t) as [n ->]. run. eauto. Qed.

Lemma compile_district :
  (exists r, Re.compile (u "(quận|q\.)\s*\d+") = Ok r)
  /\ (exists r, Re.compile (u "\bdistrict\b\s*\d*") = Ok r)
  /\ (exists r, Re.compile (u "\b(huyện|thị xã|phường|xã)\b") = Ok r).
Proof. repeat split; eexists; vm_compute; reflexivity. Qed.

Lemma _is_district_total t : exists b, _is_district t = Ok b.
Proof.
  unfold _is_district, Re.search, Re.search_with.
  destruct (_norm_total t) as [n ->]. run.
  destruct compile_district as ((r1 & ->) & (r2 & ->) & (r3 & ->)). run.
  repeat match goal with
         | |- context [if ?b then _ else _] => destruct b; run
         end; eauto.
Qed.

End Address.
End AddressFacts.

(** ** Address: the pairs of [split_address_all_pairs] *)

Module AddressContract.
Import Re ReFacts StrFacts SalaryFacts AddressFacts.

Section Contract.
Context {RT : Runtime}.

Lemma compile_separators : exists r, Re.compile (u "[:,;/\-\|;]") = Ok r.
Proof. eexists. vm_compute. reflexivity. Qed.

(** Tokens are stripped and not blank. *)
Lemma stripped_tokens (l : list str) :
  Forall (fun t => t <> [] /\ Str.strip t <> [])
         (filter (fun t => t <> []) (Str.strip <$> l)).
Proof.
  apply Forall_forall. intros t Ht.
  apply list_elem_of_filter in Ht as [Hne Ht].
  apply list_elem_of_fmap in Ht as (x & -> & _).
  split; [exact Hne|]. rewrite strip_idem. exact Hne.
Qed.

Lemma tokens_of_ok addr :
  exists tokens, tokens_of addr = Ok tokens
                 /\ Forall (fun t => t <> [] /\ Str.strip t <> []) tokens.
Proof.
  unfold tokens_of, Re.split. destruct compile_separators as [r ->]. run.
  destruct (bool_decide _); eexists; (split; [reflexivity|]);
    apply stripped_tokens.
Qed.

(** The body of the loop never raises on two tokens and gives a city and
    a district that are not empty. *)
Lemma pair_at_ok tokens i a b :
  tokens !! i = Some a -> tokens !! S i = Some b ->
  (a <> [] /\ Str.strip a <> []) -> (b <> [] /\ Str.strip b <> []) ->
  exists c d, pair_at tokens (Z.of_nat i) = Ok (Some c, Some d)
              /\ c <> [] /\ d <> [].
Proof.
  intros Ha Hb [Ga Sa] [Gb Sb]. unfold pair_at.
  rewrite (getitem_nat _ _ _ Ha). run.
  replace (Z.of_nat i + 1)%Z with (Z.of_nat (S i)) by lia.
  rewrite (getitem_nat _ _ _ Hb). run.
  destruct (_is_city_total a) as [ac ->]. run.
  destruct (_is_city_total b) as [bc ->]. run.
  destruct (_is_district_total a) as [ad ->]. run.
  destruct (_is_district_total b) as [bd ->]. run.
  destruct (_base_name_total a) as [na Hna].
  destruct (_base_name_total b) as [nb Hnb].
  destruct (_canon_city_ok a Ga Sa) as (ca & Hca & Nca).
  destruct (_canon_city_ok b Gb Sb) as (cb & Hcb & Ncb).
  destruct (_canon_district_ok a Ga Sa) as (da & Hda & Nda).
  destruct (_canon_district_ok b Gb Sb) as (db & Hdb & Ndb).
  repeat first
    [ rewrite Hna | rewrite Hnb | progress run
    | match goal with
      | |- context [if ?c then _ else _] => destruct c
      end ];
    cbv beta iota;
    rewrite ?Hca, ?Hcb; run; rewrite ?Hda, ?Hdb; run; eauto.
Qed.

(** On text that is not blank the function is its loop over the tokens. *)
Lemma split_address_loop s :
  Str.strip s <> [] ->
  exists tokens,
    tokens_of s = Ok tokens
    /\ Forall (fun t => t <> [] /\ Str.strip t <> []) tokens
    /\ split_address_all_pairs (VStr s)
       = rmap (pair_at tokens) (Py.range 0 (Z.of_nat (length tokens) - 1) 2).
Proof.
  intros Hne. destruct (tokens_of_ok s) as (tokens & Htok & Hgood).
  exists tokens. split; [exact Htok|]. split; [exact Hgood|].
  unfold split_address_all_pairs.
  destruct (Str.strip s); [congruence|]. rewrite Htok. reflexivity.
Qed.

(** The loop body at an index of the range. *)
Lemma pair_at_index tokens k i :
  Forall (fun t => t <> [] /\ Str.strip t <> []) tokens ->
  Py.range 0 (Z.of_nat (length tokens) - 1) 2 !! k = Some i ->
  i = Z.of_nat (2 * k) /\ (2 * k + 1 < length tokens)%nat
  /\ exists c d, pair_at tokens i = Ok (Some c, Some d) /\ c <> [] /\ d <> [].
Proof.
  intros Hgood Hk. apply range_pairs_lookup in Hk as [-> Hlt].
  split; [reflexivity|]. split; [exact Hlt|].
  destruct (lookup_lt_is_Some_2 tokens (2 * k)) as [a Ha]; [lia|].
  destruct (lookup_lt_is_Some_2 tokens (S (2 * k))) as [b Hb]; [lia|].
  apply (pair_at_ok tokens (2 * k) a b Ha Hb).
  - exact (proj1 (Forall_lookup _ _) Hgood _ _ Ha).
  - exact (proj1 (Forall_lookup _ _) Hgood _ _ Hb).
Qed.

(** The body of the loop reads the two tokens at [i] and [i+1]: the
    first is the city and the second the district, except when the first
    looks like a district and the second like a city (and the pair is not
    a city followed by a district), where they change places. *)
Lemma pair_at_reads tokens i a b :
  tokens !! i = Some a -> tokens !! S i = Some b ->
  (a <> [] /\ Str.strip a <> []) -> (b <> [] /\ Str.strip b <> []) ->
  exists a_city b_city a_dist b_dist c d,
    _is_city a = Ok a_city /\ _is_city b = Ok b_city
    /\ _is_district a = Ok a_dist /\ _is_district b = Ok b_dist
    /\ _canon_city
         (Some (if negb (a_city && b_dist) && (a_dist && b_city) then b else a))
       = Ok c
    /\ _canon_district
         (Some (if negb (a_city && b_dist) && (a_dist && b_city) then a else b))
       = Ok d
    /\ pair_at tokens (Z.of_nat i) = Ok (c, d).
Proof.
  intros Ha Hb [Ga Sa] [Gb Sb]. unfold pair_at.
  rewrite (getitem_nat _ _ _ Ha). run.
  replace (Z.of_nat i + 1)%Z with (Z.of_nat (S i)) by lia.
  rewrite (getitem_nat _ _ _ Hb). run.
  destruct (_is_city_total a) as [ac Hac].
  destruct (_is_city_total b) as [bc Hbc].
  destruct (_is_district_total a) as [ad Had].
  destruct (_is_district_total b) as [bd Hbd].
  rewrite Hac, Hbc, Had, Hbd. run.
  destruct (_base_name_total a) as [na Hna].
  destruct (_base_name_total b) as [nb Hnb].
  destruct (_canon_city_ok a Ga Sa) as (ca & Hca & _).
  destruct (_canon_city_ok b Gb Sb) as (cb & Hcb & _).
  destruct (_canon_district_ok a Ga Sa) as (da & Hda & _).
  destruct (_canon_district_ok b Gb Sb) as (db & Hdb & _).
  exists ac, bc, ad, bd.
  destruct ac, bc, ad, bd; cbn [andb negb];
    repeat first
      [ rewrite Hna | rewrite Hnb | progress run
      | match goal with
        | |- context [if ?c then _ else _] => destruct c
        end ];
    cbv beta iota;
    rewrite ?Hca, ?Hcb; run; rewrite ?Hda, ?Hdb; run;
    do 2 eexists; repeat split; reflexivity.
Qed.

(** C6.  For every address string [split_address_all_pairs] consumes
    the token list pairwise at the indices (0,1), (2,3), ...: it returns
    floor(n/2) pairs for n tokens, the k-th made from the tokens 2k and
    2k+1 (the canonical city of one and the canonical district of the
    other, in the order the body of the loop chooses), so that a trailing
    unpaired token is dropped; for blank or non-string input it returns
    the empty sequence. *)
Theorem split_address_pairs_tokens_pairwise (addr : value) :
  match addr with
  | VStr s =>
    match Str.strip s with
    | [] => split_address_all_pairs addr = Ok []
    | _ :: _ =>
      exists tokens pairs,
        tokens_of s = Ok tokens
        /\ split_address_all_pairs addr = Ok pairs
        /\ length pairs = (length tokens / 2)%nat
        /\ forall k p, pairs !! k = Some p ->
             exists a b a_city b_city a_dist b_dist c d,
               tokens !! (2 * k)%nat = Some a
               /\ tokens !! S (2 * k) = Some b
               /\ _is_city a = Ok a_city /\ _is_city b = Ok b_city
               /\ _is_district a = Ok a_dist /\ _is_district b = Ok b_dist
               /\ _canon_city
                    (Some (if negb (a_city && b_dist) && (a_dist && b_city)
                           then b else a)) = Ok c
               /\ _canon_district
                    (Some (if negb (a_city && b_dist) && (a_dist && b_city)
                           then a else b)) = Ok d
               /\ p = (c, d)
    end
  | _ => split_address_all_pairs addr = Ok []
  end.
Proof.
  destruct addr as [| | | |s]; try reflexivity.
  destruct (Str.strip s) as [|c0 t0] eqn:Hs.
  { unfold split_address_all_pairs. rewrite Hs. reflexivity. }
  destruct (split_address_loop s) as (tokens & Htok & Hgood & Hloop);
    [rewrite Hs; discriminate|].
  destruct (rmap_total (pair_at tokens)
              (Py.range 0 (Z.of_nat (length tokens) - 1) 2)) as [pairs Hp].
  { intros k i Hk.
    destruct (pair_at_index tokens k i Hgood Hk) as (_ & _ & c & d & -> & _).
    eauto. }
  exists tokens, pairs. split; [exact Htok|].
  split; [rewrite Hloop; exact Hp|].
  apply rmap_lookup in Hp as [Hlen Hk]. split.
  - rewrite Hlen. apply range_pairs_length.
  - intros k p Hkp. destruct (Hk k p Hkp) as (i & Hi & Hpi).
    apply range_pairs_lookup in Hi as [-> Hlt].
    destruct (lookup_lt_is_Some_2 tokens (2 * k)) as [a Ha]; [lia|].
    destruct (lookup_lt_is_Some_2 tokens (S (2 * k))) as [b Hb]; [lia|].
    destruct (pair_at_reads tokens (2 * k) a b Ha Hb
                (proj1 (Forall_lookup _ _) Hgood _ _ Ha)
                (proj1 (Forall_lookup _ _) Hgood _ _ Hb))
      as (ac & bc & ad & bd & c & d & Hac & Hbc & Had & Hbd & Hc & Hd & Hpair).
    rewrite Hpair in Hpi. injection Hpi as <-.
    exists a, b, ac, bc, ad, bd, c, d. repeat split; assumption.
Qed.

(** C10.  Every pair that [split_address_all_pairs] emits has a city
    and a district that are neither [None] nor the empty string. *)
Theorem split_address_pairs_non_empty (addr : value) (pairs : list pair) :
  split_address_all_pairs addr = Ok pairs ->
  Forall (fun p => exists c d, p = (Some c, Some d) /\ c <> [] /\ d <> [])
         pairs.
Proof.
  intros H. apply Forall_lookup. intros k p Hk.
  destruct addr as [| | | |s];
    try (injection H as <-; discriminate Hk).
  destruct (Str.strip s) as [|c0 t0] eqn:Hs.
  { unfold split_address_all_pairs in H. rewrite Hs in H.
    injection H as <-. discriminate Hk. }
  destruct (split_address_loop s) as (tokens & _ & Hgood & Hloop);
    [rewrite Hs; discriminate|].
  rewrite Hloop in H. apply rmap_lookup in H as [_ Hidx].
  destruct (Hidx k p Hk) as (i & Hi & Hpair).
  destruct (pair_at_index tokens k i Hgood Hi) as (_ & _ & c & d & Hcd & Hc & Hd).
  rewrite Hcd in Hpair. injection Hpair as <-. eauto.
Qed.

End Contract.

#[local] Existing Instance Latin.runtime.

(** C7.  The address "Hồ Chí Minh: Quận 10" gives one pair; its city is
    one of "TP. Hồ Chí Minh" and "Hồ Chí Minh" and its district contains
    "Quận 10".  The joined columns of the test are the same two strings. *)
Theorem hcm_quan_10_pair :
  exists city district,
    split_address_all_pairs (VStr (u "Hồ Chí Minh: Quận 10"))
    = Ok [(Some city, Some district)]
    /\ split_address_joined (VStr (u "Hồ Chí Minh: Quận 10")) None true
       = Ok (Some city, Some district)
    /\ city ∈ [u "TP. Hồ Chí Minh"; u "Hồ Chí Minh"]
    /\ Str.contains (u "Quận 10") district = true.
Proof.
  exists (u "Hồ Chí Minh"), (u "Quận 10").
  split; [vm_compute; reflexivity|]. split; [vm_compute; reflexivity|].
  split; [apply list_elem_of_further, list_elem_of_here|].
  vm_compute. reflexivity.
Qed.

(** C10, at an address with two offices. *)
Lemma split_address_pairs_non_empty_witness :
  split_address_all_pairs
    (VStr (u "Hà Nội, Cầu Giấy; Hồ Chí Minh: Bình Thạnh"))
  = Ok [(Some (u "Hà Nội"), Some (u "Cầu Giấy"));
        (Some (u "Hồ Chí Minh"), Some (u "Bình Thạnh"))]
  /\ Forall (fun p => exists c d, p = (Some c, Some d) /\ c <> [] /\ d <> [])
       [(Some (u "Hà Nội"), Some (u "Cầu Giấy"));
        (Some (u "Hồ Chí Minh"), Some (u "Bình Thạnh"))].
Proof.
  assert (E : split_address_all_pairs
                (VStr (u "Hà Nội, Cầu Giấy; Hồ Chí Minh: Bình Thạnh"))
              = Ok [(Some (u "Hà Nội"), Some (u "Cầu Giấy"));
                    (Some (u "Hồ Chí Minh"), Some (u "Bình Thạnh"))])
    by (vm_compute; reflexivity).
  split; [exact E|].
  exact (split_address_pairs_non_empty _ _ E).
Defined.

End AddressContract.

(** ** Job title: first match in rule order *)

Module JobFacts.
Import Re ReFacts SalaryFacts AddressFacts.

Section Job.
Context {RT : Runtime}.

Lemma sub_compiled pattern r repl s :
  Re.compile pattern = Ok r ->
  Re.sub pattern repl s = Ok (sub_from false r repl None 0 s).
Proof. intros H. unfold Re.sub, Re.sub_with. rewrite H. reflexivity. Qed.

Lemma compile_job_text :
  (exists r, Re.compile (u "[^\w\s\+\.#/-]") = Ok r)
  /\ (exists r, Re.compile (u "[-_/]") = Ok r).
Proof. split; eexists; vm_compute; reflexivity. Qed.

(** The normaliser answers whatever [py_str] prints: every text, and
    every other cell that [str] accepts. *)
Lemma _norm_job_text_total v : exists txt, _norm_job_text v = Ok txt.
Proof.
  unfold _norm_job_text.
  destruct compile_job_text as ((r1 & H1) & (r2 & H2)).
  rewrite (sub_compiled _ _ _ _ H1). run.
  rewrite (sub_compiled _ _ _ _ H2). run.
  rewrite sub_ws. run. eauto.
Qed.

(** The rule table compiles. *)
Lemma compiled_rules_ok : exists rules, _COMPILED_RULES = Ok rules.
Proof. eexists. vm_compute. reflexivity. Qed.

Lemma compile_all pats : forall ps,
  rmap Re.compile pats = Ok ps ->
  Forall2 (fun pat r => Re.compile pat = Ok r) pats ps.
Proof.
  induction pats as [|pat pats IH]; intros ps; simpl.
  - intros [= <-]. constructor.
  - destruct (Re.compile pat) as [r|e] eqn:Hr; run; [|discriminate].
    destruct (rmap Re.compile pats) as [rs|e] eqn:Hrs; run; [|discriminate].
    intros [= <-]. constructor; auto.
Qed.

Lemma compile_rules (table : list (str * list str)) : forall rules,
  rmap (fun gp : str * list str =>
          ps ← rmap Re.compile (snd gp); Ok (fst gp, ps)) table = Ok rules ->
  Forall2 (fun gp cr => fst cr = fst gp
                        /\ rmap Re.compile (snd gp) = Ok (snd cr))
          table rules.
Proof.
  induction table as [|[g pats] table IH]; intros rules; simpl.
  - intros [= <-]. constructor.
  - destruct (rmap Re.compile pats) as [ps|e] eqn:Hps; run; [|discriminate].
    destruct (rmap _ table) as [rs|e] eqn:Hrs; run; [|discriminate].
    intros [= <-]. constructor; auto.
Qed.

Lemma any_search_true ps txt :
  any_search ps txt = true <->
  exists r, r ∈ ps /\ is_Some (search_from false r None 0 txt).
Proof.
  induction ps as [|p ps IH]; simpl.
  - split; [discriminate|]. intros (r & Hr & _). inversion Hr.
  - destruct (bool_decide _) eqn:E.
    + apply bool_decide_eq_true in E. split; [|reflexivity].
      intros _. exists p. split; [apply list_elem_of_here | exact E].
    + apply bool_decide_eq_false in E. rewrite IH. split.
      * intros (r & Hr & Hs). exists r. split; [by apply list_elem_of_further | exact Hs].
      * intros (r & Hr & Hs). apply elem_of_cons in Hr as [->|Hr]; [contradiction|eauto].
Qed.

(** The inner loop over compiled patterns finds a match exactly when
    some pattern of the category matches the text. *)
Lemma any_search_text pats ps txt :
  rmap Re.compile pats = Ok ps ->
  any_search ps txt = true <-> some_pattern_matches pats txt.
Proof.
  intros Hc. apply compile_all in Hc. rewrite any_search_true. split.
  - intros (r & Hr & [m Hm]). apply list_elem_of_lookup in Hr as [i Hi].
    destruct (Forall2_lookup_r _ _ _ _ _ Hc Hi) as (pat & Hpat & Hcomp).
    exists pat, m. split; [eapply list_elem_of_lookup_2; eauto|].
    rewrite (search_compiled _ _ _ Hcomp), Hm. reflexivity.
  - intros (pat & m & Hpat & Hs). apply list_elem_of_lookup in Hpat as [i Hi].
    destruct (Forall2_lookup_l _ _ _ _ _ Hc Hi) as (r & Hr & Hcomp).
    exists r. split; [eapply list_elem_of_lookup_2; eauto|].
    rewrite (search_compiled _ _ _ Hcomp) in Hs. injection Hs as ->. eauto.
Qed.

(** The outer loop returns the first category with a match. *)
Lemma group_loop_first rules txt :
  (exists i pats,
     rules !! i = Some (group_loop rules txt, pats)
     /\ any_search pats txt = true
     /\ forall j g' pats', (j < i)%nat -> rules !! j = Some (g', pats') ->
          any_search pats' txt = false)
  \/ (group_loop rules txt = u "other_it"
      /\ forall j g' pats', rules !! j = Some (g', pats') ->
           any_search pats' txt = false).
Proof.
  induction rules as [|[g pats] rules IH]; simpl.
  - right. split; [reflexivity|]. intros j g' pats' Hj. destruct j; discriminate.
  - destruct (any_search pats txt) eqn:E.
    + left. exists 0%nat, pats. split; [reflexivity|]. split; [exact E|].
      intros j g' pats' Hj. lia.
    + destruct IH as [(i & ps & Hi & Hs & Hbefore)|[Ho Hnone]].
      * left. exists (S i), ps. split; [exact Hi|]. split; [exact Hs|].
        intros [|j] g' pats' Hj Hl; simpl in Hl.
        -- injection Hl as <- <-. exact E.
        -- apply (Hbefore j g' pats'); [lia | exact Hl].
      * right. split; [exact Ho|]. intros [|j] g' pats' Hl; simpl in Hl.
        -- injection Hl as <- <-. exact E.
        -- apply (Hnone j g' pats'). exact Hl.
Qed.

Lemma group_loop_in rules txt :
  group_loop rules txt ∈ rules.*1 ++ [u "other_it"].
Proof.
  induction rules as [|[g pats] rules IH]; simpl.
  - apply list_elem_of_here.
  - destruct (any_search pats txt); [apply list_elem_of_here|].
    apply list_elem_of_further. exact IH.
Qed.

Lemma compiled_names (table : list (str * list str)) rules :
  Forall2 (fun gp cr => fst cr = fst gp
                        /\ rmap Re.compile (snd gp) = Ok (snd cr))
          table rules ->
  rules.*1 = table.*1.
Proof. induction 1 as [|? ? ? ? [H1 _]]; simpl; [reflexivity|]. by f_equal. Qed.

End Job.
End JobFacts.

Module JobContract.
Import Re ReFacts SalaryFacts AddressFacts JobFacts.

Section Contract.
Context {RT : Runtime}.

(** The classifier answers whatever [py_str] prints, with a key of the
    rule table or with "other_it". *)
Lemma _job_group_range (title : value) :
  exists g, _job_group title = Ok g
            /\ g ∈ GROUP_RULES.*1 ++ [u "other_it"].
Proof.
  unfold _job_group. destruct compiled_rules_ok as [rules Hr].
  pose proof (compile_rules _ _ Hr) as Hf. rewrite Hr. run.
  destruct (_norm_job_text_total title) as [txt ->]. run.
  eexists. split; [reflexivity|].
  rewrite <- (compiled_names _ _ Hf). apply group_loop_in.
Qed.

(** C4.  For every job title the classifier returns the first category of
    the rule list, which runs from "fullstack_engineer" to the catch-all
    "software_engineer_general", one of whose patterns matches the
    normalised title; when no category has a matching pattern it returns
    "other_it". *)
Theorem job_group_first_match (title : str) :
  exists txt g,
    _norm_job_text (VStr title) = Ok txt
    /\ _job_group (VStr title) = Ok g
    /\ ((exists i pats,
           GROUP_RULES !! i = Some (g, pats)
           /\ some_pattern_matches pats txt
           /\ forall j g' pats',
                (j < i)%nat -> GROUP_RULES !! j = Some (g', pats') ->
                ~ some_pattern_matches pats' txt)
        \/ (g = u "other_it"
            /\ forall j g' pats',
                 GROUP_RULES !! j = Some (g', pats') ->
                 ~ some_pattern_matches pats' txt))
    /\ head GROUP_RULES.*1 = Some (u "fullstack_engineer")
    /\ last GROUP_RULES.*1 = Some (u "software_engineer_general").
Proof.
  destruct compiled_rules_ok as [rules Hr].
  pose proof (compile_rules _ _ Hr) as Hf.
  destruct (_norm_job_text_total (VStr title)) as [txt Htxt].
  exists txt, (group_loop rules txt). split; [exact Htxt|].
  split; [unfold _job_group; rewrite Hr; run; rewrite Htxt; reflexivity|].
  split; [|split; vm_compute; reflexivity].
  assert (Hno : forall j g' pats' cr,
             GROUP_RULES !! j = Some (g', pats') -> rules !! j = Some cr ->
             any_search (snd cr) txt = false ->
             ~ some_pattern_matches pats' txt).
  { intros j g' pats' cr Hj Hc Hs Hm.
    destruct (Forall2_lookup_l _ _ _ _ _ Hf Hj) as (cr' & Hc' & _ & Hcomp).
    rewrite Hc in Hc'. injection Hc' as <-. simpl in Hcomp.
    apply (any_search_text _ _ txt Hcomp) in Hm. congruence. }
  destruct (group_loop_first rules txt)
    as [(i & ps & Hi & Hs & Hbefore)|[Ho Hnone]].
  - left. destruct (Forall2_lookup_r _ _ _ _ _ Hf Hi) as ([g0 pats] & Hg & Hn & Hcomp).
    simpl in Hn, Hcomp. subst g0. exists i, pats. split; [exact Hg|].
    split; [apply (any_search_text _ _ txt Hcomp); exact Hs|].
    intros j g' pats' Hj Hl.
    destruct (Forall2_lookup_l _ _ _ _ _ Hf Hl) as ([g1 ps1] & Hc1 & _).
    apply (Hno j g' pats' (g1, ps1) Hl Hc1). apply (Hbefore j g1 ps1 Hj Hc1).
  - right. split; [exact Ho|]. intros j g' pats' Hl.
    destruct (Forall2_lookup_l _ _ _ _ _ Hf Hl) as ([g1 ps1] & Hc1 & _).
    apply (Hno j g' pats' (g1, ps1) Hl Hc1). apply (Hnone j g1 ps1 Hc1).
Qed.

Lemma collapse_keys :
  forallb (fun g => match collapse_map !! g with
                    | Some b => bool_decide (b ∈ COARSE_BUCKETS)
                    | None => false
                    end)
          (GROUP_RULES.*1 ++ [u "other_it"]) = true.
Proof. vm_compute. reflexivity. Qed.

(** C5.  The collapse table is defined on every fine category the
    classifier can return, that is on every key of the rule table and on
    "other_it", and sends it to one of the 8 coarse buckets or to "other".
    Whatever [_job_group] returns, for any cell, is one of these
    categories, so its collapse is defined; and [_job_group] returns for
    every text. *)
Theorem collapse_map_total :
  Forall (fun g => exists b, collapse_map !! g = Some b /\ b ∈ COARSE_BUCKETS)
         (GROUP_RULES.*1 ++ [u "other_it"])
  /\ (forall (title : value) (g : str),
        _job_group title = Ok g ->
        g ∈ GROUP_RULES.*1 ++ [u "other_it"]
        /\ exists b, collapse_map !! g = Some b /\ b ∈ COARSE_BUCKETS)
  /\ forall title : str, exists g, _job_group (VStr title) = Ok g.
Proof.
  assert (Hall : Forall (fun g => exists b, collapse_map !! g = Some b
                                            /\ b ∈ COARSE_BUCKETS)
                        (GROUP_RULES.*1 ++ [u "other_it"])).
  { apply Forall_forall. intros g Hg. apply list_elem_of_In in Hg.
    pose proof (proj1 (forallb_forall _ _) collapse_keys g Hg) as Hb.
    cbv beta in Hb. destruct (collapse_map !! g) as [b|]; [|discriminate].
    exists b. split; [reflexivity|]. apply bool_decide_eq_true in Hb. exact Hb. }
  split; [exact Hall|]. split.
  - intros title g Hg. destruct (_job_group_range title) as (g' & Hg' & Hin).
    rewrite Hg in Hg'. injection Hg' as <-.
    split; [exact Hin|]. exact (proj1 (Forall_forall _ _) Hall g Hin).
  - intros title. destruct (_job_group_range (VStr title)) as (g & Hg & _).
    exists g. exact Hg.
Qed.

End Contract.

#[local] Existing Instance Latin.runtime.

(** C5, at the title of a tester. *)
Lemma collapse_map_total_witness :
  _job_group (VStr (u "Senior QA Engineer")) = Ok (u "qa_testing")
  /\ u "qa_testing" ∈ GROUP_RULES.*1 ++ [u "other_it"]
  /\ exists b, collapse_map !! u "qa_testing" = Some b /\ b ∈ COARSE_BUCKETS.
Proof.
  assert (H : _job_group (VStr (u "Senior QA Engineer")) = Ok (u "qa_testing"))
    by (vm_compute; reflexivity).
  split; [exact H|].
  exact (proj1 (proj2 collapse_map_total) _ _ H).
Defined.

End JobContract.

(** ** Schema check before any work *)

Module TransformContract.

Section Contract.
Context {RT : Runtime}.

(** C8.  In strict-schema mode [transform] on a table that lacks one of
    the required columns raises at once: the trace is empty, so no record
    was enriched and nothing was written to quarantine, and no table is
    returned. *)
Theorem transform_rejects_missing_column
    (df : DataFrame) (run_id : str) (chunk_idx : Z) (c : str) :
  c ∈ REQUIRED_COLUMNS -> c ∉ df.*1 ->
  exists msg, transform true df run_id chunk_idx = (Raise (ValueError msg), []).
Proof.
  intros Hreq Hmiss. unfold transform, _validate_schema. simpl negb.
  destruct (filter _ REQUIRED_COLUMNS) as [|m ms] eqn:Hf.
  - exfalso. assert (Hc : c ∈ filter (fun c => c ∉ df.*1) REQUIRED_COLUMNS)
      by (apply list_elem_of_filter; auto).
    rewrite Hf in Hc. inversion Hc.
  - eexists. reflexivity.
Qed.

End Contract.

#[local] Existing Instance Latin.runtime.

(** C8, at a table without the salary column. *)
Lemma transform_rejects_missing_column_witness :
  u "salary" ∈ REQUIRED_COLUMNS
  /\ (u "salary" ∉ [(u "job_title", [VStr (u "QA Engineer")]);
                     (u "address", [VStr (u "Hà Nội")])].*1)
  /\ exists msg,
       transform true
         [(u "job_title", [VStr (u "QA Engineer")]);
          (u "address", [VStr (u "Hà Nội")])] (u "na") 0
       = (Raise (ValueError msg), []).
Proof.
  assert (H1 : u "salary" ∈ REQUIRED_COLUMNS)
    by (repeat first [apply list_elem_of_here | apply list_elem_of_further]).
  assert (H2 : u "salary" ∉ ([(u "job_title", [VStr (u "QA Engineer")]);
                               (u "address", [VStr (u "Hà Nội")])].*1)).
  { intros H. vm_compute in H. repeat (apply elem_of_cons in H as [H|H]; [discriminate H|]).
    inversion H. }
  split; [exact H1|]. split; [exact H2|].
  exact (transform_rejects_missing_column _ _ _ _ H1 H2).
Defined.

End TransformContract.

(** ** How the matcher runs on classes of characters *)

Module EngineFacts.
Import Re ReFacts Captures StrFacts AddressFacts.

#[local] Arguments Chr.isspace : simpl never.
#[local] Arguments Chr.isdecimal : simpl never.

#[local] Abbreviation WS := (RPlus (ASet false [CSpace])).

Lemma startswith_spec p : forall s,
  Str.startswith p s = true <-> exists b, s = p ++ b.
Proof.
  induction p as [|a p IH]; intros s; simpl.
  - split; eauto.
  - destruct s as [|b s].
    + split; [discriminate|]. intros (t & Ht). discriminate Ht.
    + rewrite andb_true_iff, N.eqb_eq, IH. split.
      * intros [-> (t & ->)]. eauto.
      * intros (t & Ht). injection Ht as -> ->. eauto.
Qed.

(** [p in s] holds exactly when [p] is a contiguous part of [s]. *)
Lemma contains_spec p : forall s,
  Str.contains p s = true <-> exists a b, s = a ++ p ++ b.
Proof.
  induction s as [|c s IH]; simpl; rewrite orb_true_iff, startswith_spec.
  - split.
    + intros [(b & Hb)|H]; [|discriminate]. exists [], b. exact Hb.
    + intros (a & b & H). left. destruct a; [|discriminate H]. eauto.
  - rewrite IH. split.
    + intros [(b & Hb)|(a & b & ->)]; [exists [], b; exact Hb|].
      exists (c :: a), b. reflexivity.
    + intros (a & b & H). destruct a as [|x a].
      * left. exists b. exact H.
      * right. injection H as -> ->. eauto.
Qed.

Lemma contains_infix p l s r :
  Str.contains p s = true -> Str.contains p (l ++ s ++ r) = true.
Proof.
  rewrite !contains_spec. intros (a & b & ->).
  exists (l ++ a), (b ++ r). by rewrite <- !app_assoc.
Qed.

(** A character that occurs in a text that holds [p] ... *)
Lemma contains_elem p s c :
  Str.contains p s = true -> c ∈ p -> c ∈ s.
Proof.
  rewrite contains_spec. intros (a & b & ->) Hc. rewrite !elem_of_app. auto.
Qed.

(** What [lstrip] and [strip] remove. *)
Lemma lstrip_split s :
  exists pre, s = pre ++ Str.lstrip s
              /\ Forall (fun c => Chr.isspace c = true) pre.
Proof.
  induction s as [|c s (pre & IH & Hall)]; simpl.
  - exists []. auto.
  - destruct (Chr.isspace c) eqn:E.
    + exists (c :: pre). split; [simpl; f_equal; exact IH | auto].
    + exists []. auto.
Qed.

Lemma rstrip_split s :
  exists post, s = Str.rstrip s ++ post
               /\ Forall (fun c => Chr.isspace c = true) post.
Proof.
  unfold Str.rstrip. destruct (lstrip_split (reverse s)) as (pre & E & Hall).
  exists (reverse pre). split.
  - rewrite <- reverse_app, <- E, reverse_involutive. reflexivity.
  - apply Forall_reverse. exact Hall.
Qed.

Lemma strip_split s :
  exists pre post, s = pre ++ Str.strip s ++ post
    /\ Forall (fun c => Chr.isspace c = true) pre
    /\ Forall (fun c => Chr.isspace c = true) post.
Proof.
  destruct (lstrip_split s) as (pre & E & Hpre).
  destruct (rstrip_split (Str.lstrip s)) as (post & E' & Hpost).
  exists pre, post. unfold Str.strip. rewrite <- E', <- E. auto.
Qed.

Lemma lstrip_length s : (length (Str.lstrip s) <= length s)%nat.
Proof.
  destruct (lstrip_split s) as (pre & E & _).
  rewrite E at 2. rewrite length_app. lia.
Qed.

Lemma strip_blank s :
  Forall (fun c => Chr.isspace c = true) s -> Str.strip s = [].
Proof.
  intros H. assert (E : Str.lstrip s = []).
  { induction H as [|c s Hc _ IH]; simpl; [reflexivity|]. by rewrite Hc. }
  unfold Str.strip. rewrite E. reflexivity.
Qed.

(** A text without white space at either end is left as it is. *)
Lemma strip_fixed c s d :
  Chr.isspace c = false -> last (c :: s) = Some d -> Chr.isspace d = false ->
  Str.strip (c :: s) = c :: s.
Proof.
  intros Hc Hl Hd. unfold Str.strip. rewrite (lstrip_fixed c s Hc).
  apply (rstrip_fixed _ d Hl Hd).
Qed.

(** [s.replace(a, b)] for single characters. *)
Lemma replace_char a b : forall s,
  Str.replace [a] [b] s = (fun c => if a =? c then b else c) <$> s.
Proof.
  unfold Str.replace. induction s as [|c s IH]; [reflexivity|].
  cbn [Str.replace_from Str.startswith length pred fmap list_fmap].
  rewrite andb_true_r. destruct (a =? c); simpl; rewrite IH; reflexivity.
Qed.

(** [s.split(sep)] of a text without the separator. *)
Lemma str_split_none sep : forall s, sep ∉ s -> Str.split [sep] s = [s].
Proof.
  unfold Str.split. induction s as [|c s IH]; intros Hs; [reflexivity|].
  cbn [Str.split_from Str.startswith]. rewrite andb_true_r.
  destruct (sep =? c) eqn:E.
  - apply N.eqb_eq in E. subst c. exfalso. apply Hs. apply list_elem_of_here.
  - rewrite IH; [reflexivity|]. intros H. apply Hs. by apply list_elem_of_further.
Qed.

Section Engine.
Context {RT : Runtime}.

(** A greedy run takes all the characters of the class that stand at the
    current position, when what follows succeeds after them. *)
Lemma star_run p k : forall pre prev rest,
  Forall (fun c => p c = true) pre ->
  (forall c r, rest = c :: r -> p c = false) ->
  is_Some (k (prev_after prev pre) rest) ->
  star p prev (pre ++ rest) k = k (prev_after prev pre) rest.
Proof.
  induction pre as [|a pre IH]; intros prev rest Hall Hrest Hk.
  - simpl. destruct rest as [|c r]; [reflexivity|].
    simpl. rewrite (Hrest c r eq_refl). reflexivity.
  - inversion Hall as [|? ? Ha Hpre]; subst. simpl. rewrite Ha.
    rewrite <- (prev_after_cons prev) in Hk |- *.
    rewrite (IH (Some a) rest Hpre Hrest Hk).
    destruct Hk as [x Hx]. rewrite Hx. reflexivity.
Qed.

(** The match object says where the match lies in the text. *)
Lemma search_from_within ic r : forall s prev pos m,
  search_from ic r prev pos s = Some m ->
  exists before rest,
    s = before ++ m_text m ++ rest
    /\ Matches ic r (prev_after prev before) (m_text m) rest [] (m_caps m)
    /\ m_start m = (pos + length before)%nat.
Proof.
  induction s as [|c s IH]; intros prev pos m H; rewrite search_from_eq in H;
    destruct (match_here _ _ _ _) as [[rest cs]|] eqn:Hm; try discriminate.
  - apply match_here_sound in Hm as (pre & Heq & Hm). rewrite Heq in H.
    rewrite take_app_exact in H. inversion H; subst; simpl.
    exists [], rest. split; [exact Heq|]. split; [exact Hm|]. simpl. lia.
  - apply match_here_sound in Hm as (pre & Heq & Hm). rewrite Heq in H.
    rewrite take_app_exact in H. inversion H; subst; simpl.
    exists [], rest. split; [exact Heq|]. split; [exact Hm|]. simpl. lia.
  - destruct (IH _ _ _ H) as (before & rest & -> & Hm' & Hpos).
    exists (c :: before), rest. split; [reflexivity|].
    split; [rewrite <- (prev_after_cons prev); exact Hm'|]. simpl. lia.
Qed.

(** Substituting a pattern of one character works character by
    character. *)
Lemma sub_atom ic a repl : forall s prev,
  sub_from ic (RAtom a) repl prev 0 s
  = s ≫= (fun c => if atom_match ic a c then repl else [c]).
Proof.
  induction s as [|c s IH]; intros prev; [reflexivity|].
  cbn [sub_from]. unfold match_here. cbn [exec mbind list_bind].
  destruct (atom_match ic a c).
  - replace (length (c :: s) - length s)%nat with 1%nat by (simpl; lia).
    rewrite IH. reflexivity.
  - rewrite IH. reflexivity.
Qed.

Lemma sub_atom_chars ic a repl s prev x :
  x ∈ sub_from ic (RAtom a) repl prev 0 s ->
  x ∈ repl \/ (x ∈ s /\ atom_match ic a x = false).
Proof.
  rewrite sub_atom. intros H. apply list_elem_of_bind in H as (c & Hx & Hc).
  destruct (atom_match ic a c) eqn:E; [auto|].
  apply list_elem_of_singleton in Hx. subst x. auto.
Qed.

(** Splitting on a pattern of one character a text that holds none. *)
Lemma split_atom_none a : forall s prev,
  Forall (fun c => atom_match false a c = false) s ->
  split_from (RAtom a) prev 0 s = [s].
Proof.
  induction s as [|c s IH]; intros prev Hall; [reflexivity|].
  inversion Hall as [|? ? Hc Hs]; subst.
  cbn [split_from]. unfold match_here. cbn [exec]. rewrite Hc.
  rewrite (IH _ Hs). reflexivity.
Qed.

(** *** Runs of white space *)

Lemma match_ws_space prev c s :
  Chr.isspace c = true ->
  match_here false WS prev (c :: s) = Some (Str.lstrip s, []).
Proof.
  intros Hc. unfold match_here. cbn [exec]. rewrite space_match, Hc.
  destruct (lstrip_split s) as (pre & E & Hall).
  rewrite E at 1. rewrite star_run; [reflexivity | | | eauto].
  - eapply Forall_impl; [exact Hall|]. intros x Hx. cbv beta.
    by rewrite space_match.
  - intros x r Hx. rewrite space_match. eapply lstrip_head. exact Hx.
Qed.

Lemma match_ws_other prev c s :
  Chr.isspace c = false -> match_here false WS prev (c :: s) = None.
Proof.
  intros Hc. unfold match_here. cbn [exec]. by rewrite space_match, Hc.
Qed.

Lemma sub_ws_skip repl : forall s prev n,
  sub_from false WS repl prev n s = sub_from false WS repl None 0 (drop n s).
Proof.
  induction s as [|c s IH]; intros prev n.
  - destruct n; reflexivity.
  - destruct n as [|n]; [|apply IH].
    cbn [drop sub_from]. destruct (Chr.isspace c) eqn:E.
    + rewrite !match_ws_space by exact E. reflexivity.
    + rewrite !match_ws_other by exact E. reflexivity.
Qed.

(** One step of [re.sub(r"\s+", " ", s)]: a run of white space becomes
    one space, any other character is kept. *)
Lemma sub_ws_cons c s :
  sub_from false WS [0x20] None 0 (c :: s)
  = if Chr.isspace c
    then 0x20 :: sub_from false WS [0x20] None 0 (Str.lstrip s)
    else c :: sub_from false WS [0x20] None 0 s.
Proof.
  cbn [sub_from]. destruct (Chr.isspace c) eqn:E.
  - rewrite match_ws_space by exact E.
    destruct (lstrip_split s) as (pre & Es & _).
    assert (El : (length (c :: s) - length (Str.lstrip s))%nat = S (length pre)).
    { simpl. rewrite Es at 1. rewrite length_app. lia. }
    rewrite El, sub_ws_skip. simpl app. f_equal.
    rewrite Es at 1. rewrite drop_app_length. reflexivity.
  - rewrite match_ws_other by exact E. rewrite (sub_ws_skip _ s (Some c) 0).
    reflexivity.
Qed.

Lemma isspace_space : Chr.isspace 0x20 = true.
Proof. vm_compute. reflexivity. Qed.

(** After the substitution every character is a space or a character of
    the text that is not white space ... *)
Lemma sub_ws_chars : forall n s x,
  (length s <= n)%nat ->
  x ∈ sub_from false WS [0x20] None 0 s ->
  x = 0x20 \/ (x ∈ s /\ Chr.isspace x = false).
Proof.
  induction n as [|n IH]; intros s x Hn Hx.
  - destruct s; [inversion Hx | simpl in Hn; lia].
  - destruct s as [|c s]; [inversion Hx|]. simpl in Hn.
    rewrite sub_ws_cons in Hx. destruct (Chr.isspace c) eqn:E.
    + apply elem_of_cons in Hx as [->|Hx]; [auto|].
      pose proof (lstrip_length s) as Hl.
      destruct (IH (Str.lstrip s) x ltac:(lia) Hx) as [->|[Hin Hsp]]; [auto|].
      right. split; [|exact Hsp]. apply list_elem_of_further.
      destruct (lstrip_split s) as (pre & Es & _). rewrite Es.
      apply elem_of_app. auto.
    + apply elem_of_cons in Hx as [->|Hx].
      * right. split; [apply list_elem_of_here | exact E].
      * destruct (IH s x ltac:(lia) Hx) as [->|[Hin Hsp]]; [auto|].
        right. split; [by apply list_elem_of_further | exact Hsp].
Qed.

(** ... and a space is never followed by white space. *)
Lemma sub_ws_single : forall n s a b y,
  (length s <= n)%nat ->
  sub_from false WS [0x20] None 0 s = a ++ 0x20 :: b ->
  head b = Some y -> Chr.isspace y = false.
Proof.
  induction n as [|n IH]; intros s a b y Hn Hs Hy.
  - destruct s; [destruct a; discriminate Hs | simpl in Hn; lia].
  - destruct s as [|c s]; [destruct a; discriminate Hs|]. simpl in Hn.
    rewrite sub_ws_cons in Hs. destruct (Chr.isspace c) eqn:E.
    + pose proof (lstrip_length s) as Hl. destruct a as [|a0 a].
      * injection Hs as Hs. subst b.
        destruct (Str.lstrip s) as [|x t] eqn:El; [discriminate Hy|].
        pose proof (lstrip_head _ _ _ El) as Hx.
        rewrite sub_ws_cons, Hx in Hy. injection Hy as <-. exact Hx.
      * injection Hs as _ Hs. exact (IH (Str.lstrip s) a b y ltac:(lia) Hs Hy).
    + destruct a as [|a0 a].
      * injection Hs as -> _. rewrite isspace_space in E. discriminate E.
      * injection Hs as _ Hs. exact (IH s a b y ltac:(lia) Hs Hy).
Qed.

Lemma sub_ws_no_double s :
  Str.contains [0x20; 0x20] (sub_from false WS [0x20] None 0 s) = false.
Proof.
  destruct (Str.contains _ _) eqn:E; [|reflexivity].
  apply contains_spec in E as (a & b & E). exfalso.
  pose proof (sub_ws_single (length s) s a (0x20 :: b) 0x20 (le_n _) E eq_refl) as H.
  rewrite isspace_space in H. discriminate H.
Qed.

End Engine.
End EngineFacts.

(** ** Job title: seniority and the normalised text *)

Module JobExtras.
Import Re ReFacts StrFacts SalaryFacts AddressFacts JobFacts EngineFacts.

#[local] Arguments Chr.isspace : simpl never.

Section Extras.
Context {RT : Runtime}.

Lemma seniority_compiles :
  forallb (fun lp : str * list str => forallb compiles lp.2)
          SENIORITY_PATTERNS = true.
Proof. vm_compute. reflexivity. Qed.

(** The inner loop of [_job_seniority] over the patterns of one level. *)
Lemma level_search_spec txt : forall pats,
  forallb compiles pats = true ->
  exists b, level_search pats txt = Ok b
            /\ (b = true <-> some_pattern_matches pats txt).
Proof.
  induction pats as [|p pats IH]; intros Hc.
  - exists false. split; [reflexivity|]. split; [discriminate|].
    intros (p & m & Hp & _). inversion Hp.
  - simpl in Hc. apply andb_true_iff in Hc as [Hp Hc].
    unfold compiles in Hp. destruct (Re.compile p) as [r|] eqn:Hr; [|discriminate].
    cbn [level_search]. rewrite (search_compiled _ _ txt Hr). run.
    destruct (search_from false r None 0 txt) as [m|] eqn:Hs.
    + rewrite bool_decide_eq_true_2 by eauto.
      exists true. split; [reflexivity|]. split; [|reflexivity]. intros _.
      exists p, m. split; [apply list_elem_of_here|].
      rewrite (search_compiled _ _ txt Hr), Hs. reflexivity.
    + rewrite bool_decide_eq_false_2 by (intros [x Hx]; discriminate Hx).
      destruct (IH Hc) as (b & Hb & Hiff). exists b. split; [exact Hb|].
      rewrite Hiff. split.
      * intros (q & m & Hq & Hm). exists q, m. split; [by apply list_elem_of_further | exact Hm].
      * intros (q & m & Hq & Hm). apply elem_of_cons in Hq as [->|Hq].
        -- rewrite (search_compiled _ _ txt Hr), Hs in Hm. discriminate Hm.
        -- exists q, m. auto.
Qed.

(** The outer loop returns the first level with a match. *)
Lemma seniority_loop_first txt : forall levels,
  forallb (fun lp : str * list str => forallb compiles lp.2) levels = true ->
  exists lvl,
    seniority_loop levels txt = Ok lvl
    /\ ((exists i pats,
           levels !! i = Some (lvl, pats)
           /\ some_pattern_matches pats txt
           /\ forall j l' pats',
                (j < i)%nat -> levels !! j = Some (l', pats') ->
                ~ some_pattern_matches pats' txt)
        \/ (lvl = u "unknown"
            /\ forall j l' pats',
                 levels !! j = Some (l', pats') ->
                 ~ some_pattern_matches pats' txt)).
Proof.
  induction levels as [|[l pats] levels IH]; intros Hc.
  - exists (u "unknown"). split; [reflexivity|]. right. split; [reflexivity|].
    intros j l' pats' Hj. destruct j; discriminate Hj.
  - simpl in Hc. apply andb_true_iff in Hc as [Hp Hc].
    destruct (level_search_spec txt pats Hp) as (b & Hb & Hiff).
    cbn [seniority_loop]. rewrite Hb. run. destruct b.
    + exists l. split; [reflexivity|]. left. exists 0%nat, pats.
      split; [reflexivity|]. split; [by apply Hiff|]. intros j ? ? Hj. lia.
    + assert (Hno : ~ some_pattern_matches pats txt).
      { intros H. apply Hiff in H. discriminate H. }
      destruct (IH Hc) as (lvl & Hl & [(i & ps & Hi & Hs & Hbefore)|[Hu Hnone]]);
        exists lvl; (split; [exact Hl|]).
      * left. exists (S i), ps. split; [exact Hi|]. split; [exact Hs|].
        intros [|j] l' pats' Hj Hlk; simpl in Hlk.
        -- injection Hlk as <- <-. exact Hno.
        -- apply (Hbefore j l' pats'); [lia | exact Hlk].
      * right. split; [exact Hu|]. intros [|j] l' pats' Hlk; simpl in Hlk.
        -- injection Hlk as <- <-. exact Hno.
        -- apply (Hnone j l' pats'). exact Hlk.
Qed.

Lemma _job_seniority_total (title : value) :
  exists lvl, _job_seniority title = Ok lvl
              /\ lvl ∈ SENIORITY_PATTERNS.*1 ++ [u "unknown"].
Proof.
  destruct (_norm_job_text_total title) as [txt Htxt].
  destruct (seniority_loop_first txt SENIORITY_PATTERNS seniority_compiles)
    as (lvl & Hl & Hfirst).
  exists lvl. split; [unfold _job_seniority; rewrite Htxt; run; exact Hl|].
  apply elem_of_app. destruct Hfirst as [(i & pats & Hi & _)|[-> _]].
  - left. apply list_elem_of_fmap. exists (lvl, pats).
    split; [reflexivity|]. eapply list_elem_of_lookup_2. exact Hi.
  - right. apply list_elem_of_here.
Qed.

(** X1.  Whenever [_job_seniority] returns a level, for any cell, it
    is the first level, in the order of [SENIORITY_PATTERNS] (from
    "intern" to "cto"), one of whose patterns matches the normalised
    title; when no level has a matching pattern it is "unknown".  For
    every text it returns, without raising. *)
Theorem job_seniority_first_match :
  (forall title : str, exists lvl, _job_seniority (VStr title) = Ok lvl)
  /\ (forall (title : value) (lvl : str),
        _job_seniority title = Ok lvl ->
        exists txt,
          _norm_job_text title = Ok txt
          /\ ((exists i pats,
                 SENIORITY_PATTERNS !! i = Some (lvl, pats)
                 /\ some_pattern_matches pats txt
                 /\ forall j l' pats',
                      (j < i)%nat -> SENIORITY_PATTERNS !! j = Some (l', pats') ->
                      ~ some_pattern_matches pats' txt)
              \/ (lvl = u "unknown"
                  /\ forall j l' pats',
                       SENIORITY_PATTERNS !! j = Some (l', pats') ->
                       ~ some_pattern_matches pats' txt)))
  /\ head SENIORITY_PATTERNS.*1 = Some (u "intern")
  /\ last SENIORITY_PATTERNS.*1 = Some (u "cto").
Proof.
  split; [|split; [|split; vm_compute; reflexivity]].
  - intros title. destruct (_job_seniority_total (VStr title)) as (lvl & Hl & _).
    exists lvl. exact Hl.
  - intros title lvl H.
    destruct (_norm_job_text_total title) as [txt Htxt].
    destruct (seniority_loop_first txt SENIORITY_PATTERNS seniority_compiles)
      as (lvl' & Hl & Hfirst).
    unfold _job_seniority in H. rewrite Htxt in H.
    cbn [mbind result_bind] in H. rewrite Hl in H. injection H as <-.
    exists txt. split; [exact Htxt|exact Hfirst].
Qed.

(** *** The shape of the normalised text *)

Lemma compile_keep :
  Re.compile (u "[^\w\s\+\.#/-]")
  = Ok (RAtom (ASet true [CWord; CSpace; CLit 0x2B; CLit 0x2E; CLit 0x23;
                          CLit 0x2F; CLit 0x2D])).
Proof. vm_compute. reflexivity. Qed.

Lemma compile_joiners :
  Re.compile (u "[-_/]")
  = Ok (RAtom (ASet false [CLit 0x2D; CLit 0x5F; CLit 0x2F])).
Proof. vm_compute. reflexivity. Qed.

(** The text after the two substitutions of single characters: every
    character is a space or a character other than [- _ /] that the first
    pattern keeps. *)
Lemma norm_job_text_steps (v : value) :
  exists s2,
    _norm_job_text v
    = Ok (Str.strip (sub_from false (RPlus (ASet false [CSpace])) [0x20] None 0 s2))
    /\ Forall (fun x =>
         x = 0x20
         \/ (x <> 0x2D /\ x <> 0x5F /\ x <> 0x2F
             /\ (Chr.isspace x = true \/ chr_isalnum x = true
                 \/ x = 0x2B \/ x = 0x2E \/ x = 0x23))) s2.
Proof.
  unfold _norm_job_text.
  rewrite (sub_compiled _ _ _ _ compile_keep). run.
  rewrite (sub_compiled _ _ _ _ compile_joiners). run.
  rewrite sub_ws. run.
  change (u " ") with [0x20].
  eexists. split; [reflexivity|].
  apply Forall_forall. intros x H2.
  apply sub_atom_chars in H2 as [H2|[H1 Hj]].
  { apply list_elem_of_singleton in H2. auto. }
  apply sub_atom_chars in H1 as [H1|[_ Hk]].
  { apply list_elem_of_singleton in H1. auto. }
  right.
  cbn [atom_match existsb citem_match xorb] in Hj, Hk.
  rewrite !orb_false_r in Hj.
  apply orb_false_iff in Hj as [Hj1 Hj]. apply orb_false_iff in Hj as [Hj2 Hj3].
  apply N.eqb_neq in Hj1, Hj2, Hj3.
  split; [exact Hj1|]. split; [exact Hj2|]. split; [exact Hj3|].
  apply negb_false_iff in Hk. unfold isword in Hk.
  rewrite !orb_true_iff, !N.eqb_eq in Hk.
  destruct Hk as [[Ha|Hu]|[Hf|[Hp|[Hp|[Hp|[Hp|[Hp|Hk]]]]]]];
    auto 6; try contradiction; discriminate Hk.
Qed.

(** X2.  Whenever [_norm_job_text] returns, for any cell, the text is
    in a fixed shape: every character is a space, or a character that is
    not white space, not one of [- _ /], and alphanumeric or one of
    [+ . #]; the text has no white space at either end and no two spaces
    in a row.  For every text it returns, without raising. *)
Theorem norm_job_text_normal_form :
  (forall s : str, exists txt, _norm_job_text (VStr s) = Ok txt)
  /\ forall (v : value) (txt : str),
       _norm_job_text v = Ok txt ->
       Forall (fun x =>
         x = 0x20
         \/ (Chr.isspace x = false /\ x <> 0x2D /\ x <> 0x5F /\ x <> 0x2F
             /\ (chr_isalnum x = true \/ x = 0x2B \/ x = 0x2E \/ x = 0x23)))
         txt
       /\ Str.strip txt = txt
       /\ Str.contains (u "  ") txt = false.
Proof.
  split; [intros s; apply _norm_job_text_total|].
  intros v txt H.
  destruct (norm_job_text_steps v) as (s2 & Ht & Hs2).
  set (w := sub_from false _ [0x20] None 0 s2) in Ht.
  rewrite H in Ht. injection Ht as ->.
  destruct (strip_split w) as (pre & post & Ew & _ & _).
  split; [|split; [apply strip_idem|]].
  - apply Forall_forall. intros x Hx.
    assert (Hw : x ∈ w) by (rewrite Ew, !elem_of_app; auto).
    apply (sub_ws_chars (length s2) s2 x (le_n _)) in Hw as [->|[H2 Hsp]];
      [left; reflexivity|].
    right. split; [exact Hsp|].
    destruct (proj1 (Forall_forall _ _) Hs2 x H2) as [->|(H1 & H3 & H4 & H5)].
    { rewrite isspace_space in Hsp. discriminate Hsp. }
    split; [exact H1|]. split; [exact H3|]. split; [exact H4|].
    destruct H5 as [H5|H5]; [congruence | exact H5].
  - change (u "  ") with [0x20; 0x20].
    destruct (Str.contains _ (Str.strip w)) eqn:E; [|reflexivity].
    apply (contains_infix _ pre _ post) in E. rewrite <- Ew in E.
    unfold w in E. rewrite sub_ws_no_double in E. discriminate E.
Qed.


Lemma compile_ui_ux :
  Re.compile (u "\bui/ux\b")
  = Ok (RSeq RWordB (RSeq (RAtom (AChar 0x75)) (RSeq (RAtom (AChar 0x69))
         (RSeq (RAtom (AChar 0x2F)) (RSeq (RAtom (AChar 0x75))
            (RSeq (RAtom (AChar 0x78)) RWordB)))))).
Proof. vm_compute. reflexivity. Qed.

(** X3.  The pattern [\bui/ux\b] of the category "design_ui_ux" never
    matches a text that [_norm_job_text] returns, for any cell: the
    normaliser has replaced every slash by a space before the rules are
    tried. *)
Theorem ui_ux_pattern_never_matches :
  (exists i pats, GROUP_RULES !! i = Some (u "design_ui_ux", pats)
                  /\ u "\bui/ux\b" ∈ pats)
  /\ forall (title : value) (txt : str),
       _norm_job_text title = Ok txt ->
       Re.search (u "\bui/ux\b") txt = Ok None.
Proof.
  split.
  { exists 17%nat. eexists. split; [vm_compute; reflexivity|].
    apply list_elem_of_here. }
  intros title txt H.
  destruct (norm_job_text_steps title) as (s2 & Ht & Hs2).
  set (w := sub_from false _ [0x20] None 0 s2) in Ht.
  rewrite H in Ht. injection Ht as ->.
  rewrite (search_compiled _ _ _ compile_ui_ux).
  destruct (search_from _ _ _ _ _) as [m|] eqn:Hs; [|reflexivity]. exfalso.
  apply search_from_within in Hs as (before & rest & Etxt & Hm & _).
  apply inv_seq in Hm as (p0 & p1 & c0 & E0 & _ & Hm).
  apply inv_seq in Hm as (p2 & p3 & c1 & E1 & _ & Hm).
  apply inv_seq in Hm as (p4 & p5 & c2 & E2 & _ & Hm).
  apply inv_seq in Hm as (p6 & p7 & c3 & E3 & Hslash & _).
  apply inv_atom in Hslash as (c & E4 & Hcm & _).
  cbn [atom_match] in Hcm. apply N.eqb_eq in Hcm. subst c p6.
  assert (Hin : 0x2F ∈ Str.strip w).
  { rewrite Etxt, E0, E1, E2, E3, !elem_of_app.
    right. left. right. right. right. left. apply list_elem_of_here. }
  destruct (strip_split w) as (pre & post & Ew & _ & _).
  assert (Hw : 0x2F ∈ w) by (rewrite Ew, !elem_of_app; auto).
  apply (sub_ws_chars (length s2) s2 _ (le_n _)) in Hw as [Hw|[H2 _]];
    [discriminate Hw|].
  destruct (proj1 (Forall_forall _ _) Hs2 _ H2) as [H0|(_ & _ & H0 & _)];
    [discriminate H0 | apply H0; reflexivity].
Qed.

End Extras.

#[local] Existing Instance Latin.runtime.

(** X1, at the title of a senior tester. *)
Lemma job_seniority_first_match_witness :
  _job_seniority (VStr (u "Senior QA Engineer")) = Ok (u "senior")
  /\ exists txt,
       _norm_job_text (VStr (u "Senior QA Engineer")) = Ok txt
       /\ ((exists i pats,
              SENIORITY_PATTERNS !! i = Some (u "senior", pats)
              /\ some_pattern_matches pats txt
              /\ forall j l' pats',
                   (j < i)%nat -> SENIORITY_PATTERNS !! j = Some (l', pats') ->
                   ~ some_pattern_matches pats' txt)
           \/ (u "senior" = u "unknown"
               /\ forall j l' pats',
                    SENIORITY_PATTERNS !! j = Some (l', pats') ->
                    ~ some_pattern_matches pats' txt)).
Proof.
  assert (H : _job_seniority (VStr (u "Senior QA Engineer")) = Ok (u "senior"))
    by (vm_compute; reflexivity).
  split; [exact H|].
  exact (proj1 (proj2 job_seniority_first_match) _ _ H).
Defined.

(** X2, at a title with a slash and a sharp. *)
Lemma norm_job_text_normal_form_witness :
  _norm_job_text (VStr (u "  UI/UX  Designer (C#) ")) = Ok (u "ui ux designer csharp")
  /\ Str.strip (u "ui ux designer csharp") = u "ui ux designer csharp"
  /\ Str.contains (u "  ") (u "ui ux designer csharp") = false.
Proof.
  assert (H : _norm_job_text (VStr (u "  UI/UX  Designer (C#) "))
              = Ok (u "ui ux designer csharp")) by (vm_compute; reflexivity).
  split; [exact H|].
  exact (proj2 (proj2 norm_job_text_normal_form _ _ H)).
Defined.

(** X3, at that title. *)
Lemma ui_ux_pattern_never_matches_witness :
  _norm_job_text (VStr (u "  UI/UX  Designer (C#) ")) = Ok (u "ui ux designer csharp")
  /\ Re.search (u "\bui/ux\b") (u "ui ux designer csharp") = Ok None.
Proof.
  assert (H : _norm_job_text (VStr (u "  UI/UX  Designer (C#) "))
              = Ok (u "ui ux designer csharp")) by (vm_compute; reflexivity).
  split; [exact H|].
  exact (proj2 ui_ux_pattern_never_matches _ _ H).
Defined.

End JobExtras.

(** ** Address: where the emitted text comes from, and the joined columns *)

Module AddressExtras.
Import Re ReFacts StrFacts SalaryFacts AddressFacts AddressContract EngineFacts.

#[local] Arguments Chr.isspace : simpl never.

Lemma join_cons_nonempty sep a l : a <> [] -> Str.join sep (a :: l) <> [].
Proof.
  intros Ha. destruct a as [|x a]; [congruence|].
  destruct l; simpl; discriminate.
Qed.

(** [list(OrderedDict.fromkeys(l))] lists every element of [l] once. *)
Lemma fromkeys_spec : forall l seen,
  NoDup (Py.fromkeys seen l)
  /\ forall x, x ∈ Py.fromkeys seen l <-> x ∈ l /\ x ∉ seen.
Proof.
  induction l as [|a l IH]; intros seen; simpl.
  - split; [constructor|]. intros x. split; [inversion 1 | intros [H _]; inversion H].
  - destruct (bool_decide (a ∈ seen)) eqn:E.
    + apply bool_decide_eq_true in E. destruct (IH seen) as [Hn Hi].
      split; [exact Hn|]. intros x. rewrite Hi, elem_of_cons. split.
      * intros [H1 H2]. auto.
      * intros [[->|H1] H2]; [contradiction | auto].
    + apply bool_decide_eq_false in E. destruct (IH (a :: seen)) as [Hn Hi].
      split.
      * constructor; [|exact Hn]. rewrite Hi. intros [_ H]. apply H.
        apply list_elem_of_here.
      * intros x. rewrite !elem_of_cons, Hi, not_elem_of_cons. split.
        -- intros [->|(H1 & H2 & H3)]; auto.
        -- intros [[->|H1] H2]; [auto|].
           destruct (decide (x = a)) as [->|Hne]; auto.
Qed.

Section Extras.
Context {RT : Runtime}.

(** *** What the canonicalisers return *)

(** Taking the prefix off leaves the end of the stripped text. *)
Lemma _strip_admin_prefix_suffix raw :
  exists p, _strip_admin_prefix raw = Ok p /\ p `suffix_of` Str.strip raw.
Proof.
  unfold _strip_admin_prefix, Re.sub_with.
  destruct compile_prefix as [g ->]. run.
  eexists; split; [reflexivity|].
  match goal with
  | |- sub_from true (RSeq RBol ?r) _ _ _ _ `suffix_of` _ =>
    destruct (sub_anchored true r (Str.strip raw))
      as [->|(pre & rest & cs & Heq & _ & ->)]
  end.
  - exists []. reflexivity.
  - exists pre. exact Heq.
Qed.

(** Every value of the lexicon is an official name. *)
Lemma CANON_provinces k v : CANON !! k = Some v -> v ∈ VIETNAM_PROVINCES.
Proof.
  revert k v. change (map_Forall (fun _ v => v ∈ VIETNAM_PROVINCES) CANON).
  unfold CANON. apply update_values; [apply update_values|].
  - apply map_Forall_empty.
  - apply Forall_fmap. apply Forall_forall. intros p Hp. exact Hp.
  - apply Forall_forall. intros kv Hkv. apply list_elem_of_In in Hkv.
    assert (Hall : forallb (fun kv : str * str =>
                      bool_decide (kv.2 ∈ VIETNAM_PROVINCES)) CANON_ALIASES = true)
      by (vm_compute; reflexivity).
    pose proof (proj1 (forallb_forall _ _) Hall kv Hkv) as Hb.
    apply bool_decide_eq_true in Hb. exact Hb.
Qed.

Lemma _canon_city_origin t :
  t <> [] -> Str.strip t <> [] ->
  exists c, _canon_city (Some t) = Ok (Some c)
            /\ (c ∈ VIETNAM_PROVINCES \/ c `suffix_of` Str.strip t).
Proof.
  intros Ht Hs. unfold _canon_city. destruct t as [|x t]; [congruence|].
  destruct (_norm_total (x :: t)) as [key ->]. run.
  destruct (CANON !! key) as [c|] eqn:Hc.
  { exists c. split; [reflexivity|]. left. eapply CANON_provinces; eauto. }
  destruct (_base_name_total (x :: t)) as [key2 ->]. run.
  destruct (CANON !! key2) as [c|] eqn:Hc2.
  { exists c. split; [reflexivity|]. left. eapply CANON_provinces; eauto. }
  destruct (_strip_admin_prefix_suffix (x :: t)) as (p & -> & Hp). run.
  destruct p as [|y p]; eexists; (split; [reflexivity|]); right;
    [exists []; reflexivity | exact Hp].
Qed.

Lemma _canon_district_origin t :
  t <> [] ->
  exists d, _canon_district (Some t) = Ok (Some d) /\ d `suffix_of` Str.strip t.
Proof.
  intros Ht. unfold _canon_district. destruct t as [|x t]; [congruence|].
  destruct (_strip_admin_prefix_suffix (x :: t)) as (p & -> & Hp). run.
  eauto.
Qed.

(** The loop body gives a city read from one of the two tokens and a
    district read from the other. *)
Lemma pair_at_origin tokens i a b :
  tokens !! i = Some a -> tokens !! S i = Some b ->
  (a <> [] /\ Str.strip a <> []) -> (b <> [] /\ Str.strip b <> []) ->
  exists c d x y,
    pair_at tokens (Z.of_nat i) = Ok (Some c, Some d)
    /\ ((x = a /\ y = b) \/ (x = b /\ y = a))
    /\ (c ∈ VIETNAM_PROVINCES \/ c `suffix_of` Str.strip x)
    /\ d `suffix_of` Str.strip y.
Proof.
  intros Ha Hb [Ga Sa] [Gb Sb]. unfold pair_at.
  rewrite (getitem_nat _ _ _ Ha). run.
  replace (Z.of_nat i + 1)%Z with (Z.of_nat (S i)) by lia.
  rewrite (getitem_nat _ _ _ Hb). run.
  destruct (_is_city_total a) as [ac ->]. run.
  destruct (_is_city_total b) as [bc ->]. run.
  destruct (_is_district_total a) as [ad ->]. run.
  destruct (_is_district_total b) as [bd ->]. run.
  destruct (_base_name_total a) as [na Hna].
  destruct (_base_name_total b) as [nb Hnb].
  destruct (_canon_city_origin a Ga Sa) as (ca & Hca & Oca).
  destruct (_canon_city_origin b Gb Sb) as (cb & Hcb & Ocb).
  destruct (_canon_district_origin a Ga) as (da & Hda & Oda).
  destruct (_canon_district_origin b Gb) as (db & Hdb & Odb).
  repeat first
    [ rewrite Hna | rewrite Hnb | progress run
    | match goal with
      | |- context [if ?c then _ else _] => destruct c
      end ];
    cbv beta iota;
    rewrite ?Hca, ?Hcb; run; rewrite ?Hda, ?Hdb; run;
    first [ exists ca, db, a, b; split; [reflexivity|]; split; [left; auto|];
            split; assumption
          | exists cb, da, b, a; split; [reflexivity|]; split; [right; auto|];
            split; assumption ].
Qed.

(** Tokens are left as they are by [strip]. *)
Lemma tokens_of_stripped addr tokens :
  tokens_of addr = Ok tokens -> Forall (fun t => Str.strip t = t) tokens.
Proof.
  unfold tokens_of, Re.split. destruct compile_separators as [r ->]. run.
  assert (H : forall l : list str,
             Forall (fun t => Str.strip t = t)
                    (filter (fun t => t <> []) (Str.strip <$> l))).
  { intros l. apply Forall_forall. intros t Ht.
    apply list_elem_of_filter in Ht as [_ Ht].
    apply list_elem_of_fmap in Ht as (x & -> & _). apply strip_idem. }
  destruct (bool_decide _); intros [= <-]; apply H.
Qed.

(** X4.  [split_address_all_pairs] answers every string, and invents no
    text: every city it emits is an official province name or the end of
    a token of the address (a token with an administrative prefix taken
    off, or the token itself), and every district is the end of a token;
    the two come from the two tokens of one pair. *)
Theorem split_address_pairs_origin (addr : str) :
  exists tokens pairs,
    tokens_of addr = Ok tokens
    /\ split_address_all_pairs (VStr addr) = Ok pairs
    /\ forall k p, pairs !! k = Some p ->
         exists c d x y,
           p = (Some c, Some d)
           /\ ((tokens !! (2 * k)%nat = Some x /\ tokens !! S (2 * k) = Some y)
               \/ (tokens !! (2 * k)%nat = Some y /\ tokens !! S (2 * k) = Some x))
           /\ (c ∈ VIETNAM_PROVINCES \/ c `suffix_of` x)
           /\ d `suffix_of` y.
Proof.
  destruct (tokens_of_ok addr) as (tokens & Htok & Hgood).
  pose proof (tokens_of_stripped _ _ Htok) as Hfix.
  exists tokens.
  destruct (Str.strip addr) as [|c0 t0] eqn:Hs.
  { exists []. split; [exact Htok|].
    split; [unfold split_address_all_pairs; rewrite Hs; reflexivity|].
    intros k p Hk. discriminate Hk. }
  assert (Hbody : forall k i,
            Py.range 0 (Z.of_nat (length tokens) - 1) 2 !! k = Some i ->
            exists a b c d x y,
              i = Z.of_nat (2 * k)
              /\ tokens !! (2 * k)%nat = Some a /\ tokens !! S (2 * k) = Some b
              /\ pair_at tokens i = Ok (Some c, Some d)
              /\ ((x = a /\ y = b) \/ (x = b /\ y = a))
              /\ (c ∈ VIETNAM_PROVINCES \/ c `suffix_of` Str.strip x)
              /\ d `suffix_of` Str.strip y).
  { intros k i Hk. apply range_pairs_lookup in Hk as [-> Hlt].
    destruct (lookup_lt_is_Some_2 tokens (2 * k)) as [a Ha]; [lia|].
    destruct (lookup_lt_is_Some_2 tokens (S (2 * k))) as [b Hb]; [lia|].
    destruct (pair_at_origin tokens (2 * k) a b Ha Hb) as (c & d & x & y & H).
    - exact (proj1 (Forall_lookup _ _) Hgood _ _ Ha).
    - exact (proj1 (Forall_lookup _ _) Hgood _ _ Hb).
    - exists a, b, c, d, x, y. tauto. }
  destruct (rmap_total (pair_at tokens)
              (Py.range 0 (Z.of_nat (length tokens) - 1) 2)) as [pairs Hp].
  { intros k i Hk.
    destruct (Hbody k i Hk) as (a & b & c & d & x & y & _ & _ & _ & -> & _).
    eauto. }
  exists pairs. split; [exact Htok|]. split.
  { unfold split_address_all_pairs. rewrite Hs, Htok. exact Hp. }
  intros k p Hk. apply rmap_lookup in Hp as [_ Hidx].
  destruct (Hidx k p Hk) as (i & Hi & Hpair).
  destruct (Hbody k i Hi)
    as (a & b & c & d & x & y & -> & Ha & Hb & Hcd & Hxy & Hc & Hd).
  rewrite Hcd in Hpair. injection Hpair as <-.
  assert (Fa : Str.strip a = a) by exact (proj1 (Forall_lookup _ _) Hfix _ _ Ha).
  assert (Fb : Str.strip b = b) by exact (proj1 (Forall_lookup _ _) Hfix _ _ Hb).
  exists c, d, x, y. split; [reflexivity|].
  destruct Hxy as [[-> ->]|[-> ->]].
  - rewrite Fa in Hc. rewrite Fb in Hd.
    split; [left; split; assumption|]. split; assumption.
  - rewrite Fb in Hc. rewrite Fa in Hd.
    split; [right; split; assumption|]. split; assumption.
Qed.

(** *** The joined columns *)

(** The function answers every value with pairs of non-empty strings. *)
Lemma split_address_pairs_good (addr : value) :
  exists pairs,
    split_address_all_pairs addr = Ok pairs
    /\ Forall (fun p => exists c d, p = (Some c, Some d) /\ c <> [] /\ d <> [])
              pairs.
Proof.
  destruct addr as [| | | |s]; try (exists []; split; [reflexivity | constructor]).
  destruct (Str.strip s) as [|c0 t0] eqn:Hs.
  { exists []. split; [|constructor].
    unfold split_address_all_pairs. rewrite Hs. reflexivity. }
  destruct (split_address_loop s) as (tokens & _ & Hgood & Hloop);
    [rewrite Hs; discriminate|].
  destruct (rmap_total (pair_at tokens)
              (Py.range 0 (Z.of_nat (length tokens) - 1) 2)) as [pairs Hp].
  { intros k i Hk.
    destruct (pair_at_index tokens k i Hgood Hk) as (_ & _ & c & d & -> & _).
    eauto. }
  exists pairs. split; [rewrite Hloop; exact Hp|].
  apply Forall_lookup. intros k p Hk. apply rmap_lookup in Hp as [_ Hidx].
  destruct (Hidx k p Hk) as (i & Hi & Hpair).
  destruct (pair_at_index tokens k i Hgood Hi) as (_ & _ & c & d & Hcd & Hc & Hd).
  rewrite Hcd in Hpair. injection Hpair as <-. eauto.
Qed.

Lemma split_address_joined_total addr max_pairs dedupe :
  exists p, split_address_joined addr max_pairs dedupe = Ok p.
Proof.
  destruct (split_address_pairs_good addr) as (pairs & Hp & _).
  unfold split_address_joined. rewrite Hp. run. destruct pairs; eauto.
Qed.

Lemma format_pairs_total addr : exists s, format_pairs addr = Ok s.
Proof.
  destruct (split_address_pairs_good addr) as (pairs & Hp & _).
  unfold format_pairs. rewrite Hp. run. destruct pairs; eauto.
Qed.

(** X5.  The three address columns are filled together or not at all:
    when the address gives no pair, [split_address_joined] returns
    [(None, None)] and [format_pairs] returns [None]; when it gives a
    pair, the city, the district and the formatted text are all non-empty
    strings. *)
Theorem address_columns_all_or_none (addr : value) (dedupe : bool) :
  exists pairs,
    split_address_all_pairs addr = Ok pairs
    /\ match pairs with
       | [] => split_address_joined addr None dedupe = Ok (None, None)
               /\ format_pairs addr = Ok None
       | _ :: _ =>
         exists c d s,
           split_address_joined addr None dedupe = Ok (Some c, Some d)
           /\ c <> [] /\ d <> []
           /\ format_pairs addr = Ok (Some s) /\ s <> []
       end.
Proof.
  destruct (split_address_pairs_good addr) as (pairs & Hp & Hgood).
  exists pairs. split; [exact Hp|].
  unfold split_address_joined, format_pairs. rewrite Hp. run.
  destruct pairs as [|p0 pairs]; [split; reflexivity|].
  inversion Hgood as [|? ? (c0 & d0 & -> & Hc0 & Hd0) _]; subst.
  destruct c0 as [|x0 c0]; [congruence|]. destruct d0 as [|y0 d0]; [congruence|].
  cbn [omap list_omap fst snd Py.truthy fmap list_fmap].
  assert (Hfirst : forall (a : str) l,
            Py.fromkeys [] (a :: l) = a :: Py.fromkeys [a] l).
  { intros a l. cbn [Py.fromkeys].
    rewrite bool_decide_eq_false_2 by (intros H; inversion H). reflexivity. }
  destruct dedupe; rewrite ?Hfirst;
    (do 3 eexists; split; [reflexivity|];
     split; [apply join_cons_nonempty; discriminate|];
     split; [apply join_cons_nonempty; discriminate|];
     split; [reflexivity|]; apply join_cons_nonempty; discriminate).
Qed.

(** X6.  With [dedupe] the joined city column lists every city of the
    pairs once: it is the names, each listed once, joined by ", ", and a
    name is listed exactly when it is the city of some pair.  The same
    holds for the districts. *)
Theorem joined_columns_list_each_name_once (addr : value) :
  exists pairs city district,
    split_address_all_pairs addr = Ok pairs
    /\ split_address_joined addr None true = Ok (city, district)
    /\ (exists cities,
          NoDup cities
          /\ (forall x, x ∈ cities <-> Some x ∈ pairs.*1)
          /\ city = match cities with
                    | [] => None
                    | _ => Some (Str.join (u ", ") cities)
                    end)
    /\ (exists dists,
          NoDup dists
          /\ (forall x, x ∈ dists <-> Some x ∈ pairs.*2)
          /\ district = match dists with
                        | [] => None
                        | _ => Some (Str.join (u ", ") dists)
                        end).
Proof.
  destruct (split_address_pairs_good addr) as (pairs & Hp & Hgood).
  assert (Hkeep : forall (sel : pair -> option str) x,
            (forall p, p ∈ pairs -> exists s, sel p = Some s /\ s <> []) ->
            x ∈ omap (fun p => if Py.truthy (sel p) then sel p else None) pairs
            <-> Some x ∈ sel <$> pairs).
  { intros sel x Hsel. rewrite list_elem_of_omap, list_elem_of_fmap. split.
    - intros (p & Hin & Hx). exists p. split; [|exact Hin].
      destruct (Py.truthy (sel p)); [by symmetry | discriminate Hx].
    - intros (p & Hx & Hin). exists p. split; [exact Hin|].
      destruct (Hsel p Hin) as (s & Hs & Hne). rewrite Hs in Hx |- *.
      destruct s; [congruence|]. simpl. by symmetry. }
  assert (Hfst : forall p, p ∈ pairs -> exists s, fst p = Some s /\ s <> []).
  { intros p Hin. destruct (proj1 (Forall_forall _ _) Hgood p Hin)
      as (c & d & -> & Hc & _). eauto. }
  assert (Hsnd : forall p, p ∈ pairs -> exists s, snd p = Some s /\ s <> []).
  { intros p Hin. destruct (proj1 (Forall_forall _ _) Hgood p Hin)
      as (c & d & -> & _ & Hd). eauto. }
  exists pairs. unfold split_address_joined. rewrite Hp. run.
  destruct pairs as [|p0 pairs'] eqn:Ep.
  { exists None, None. split; [reflexivity|]. split; [reflexivity|].
    split; exists []; (split; [constructor|]); (split; [|reflexivity]);
      intros x; split; inversion 1. }
  rewrite <- Ep in *. clear Ep.
  do 2 eexists. split; [reflexivity|]. split; [reflexivity|]. split.
  - match goal with |- context [Py.fromkeys [] ?l] =>
      exists (Py.fromkeys [] l); destruct (fromkeys_spec l []) as [Hn Hi] end.
    split; [exact Hn|]. split; [|reflexivity].
    intros x. rewrite Hi, (Hkeep fst x Hfst). split; [tauto|].
    intros H. split; [exact H | inversion 1].
  - match goal with |- context [Py.fromkeys [] ?l] =>
      exists (Py.fromkeys [] l); destruct (fromkeys_spec l []) as [Hn Hi] end.
    split; [exact Hn|]. split; [|reflexivity].
    intros x. rewrite Hi, (Hkeep snd x Hsnd). split; [tauto|].
    intros H. split; [exact H | inversion 1].
Qed.

Lemma compile_separator_set :
  Re.compile (u "[:,;/\-\|;]")
  = Ok (RAtom (ASet false [CLit 0x3A; CLit 0x2C; CLit 0x3B; CLit 0x2F;
                           CLit 0x2D; CLit 0x7C; CLit 0x3B])).
Proof. vm_compute. reflexivity. Qed.

(** X7.  An address without any of the separators [: , ; / - |] is one
    token at most, and one token makes no pair: the function returns the
    empty list, so the city and district columns and the formatted text
    are all missing, also when the text is the name of a city. *)
Theorem address_without_separator_has_no_pair (addr : str) (dedupe : bool) :
  Forall (fun c => c ∉ [0x3A; 0x2C; 0x3B; 0x2F; 0x2D; 0x7C]) addr ->
  split_address_all_pairs (VStr addr) = Ok []
  /\ split_address_joined (VStr addr) None dedupe = Ok (None, None)
  /\ format_pairs (VStr addr) = Ok None.
Proof.
  intros Hsep.
  assert (E : split_address_all_pairs (VStr addr) = Ok []).
  { unfold split_address_all_pairs.
    destruct (Str.strip addr) as [|c0 t0] eqn:Hs; [reflexivity|].
    unfold tokens_of, Re.split. rewrite compile_separator_set. run.
    rewrite split_atom_none.
    2:{ eapply Forall_impl; [exact Hsep|]. intros c Hc. cbv beta in Hc.
        rewrite !not_elem_of_cons in Hc.
        destruct Hc as (H1 & H2 & H3 & H4 & H5 & H6 & _).
        cbn [atom_match existsb citem_match xorb].
        apply N.eqb_neq in H1, H2, H3, H4, H5, H6.
        rewrite H1, H2, H3, H4, H5, H6. reflexivity. }
    cbn [fmap list_fmap]. rewrite Hs.
    rewrite filter_cons_True by discriminate. rewrite filter_nil.
    rewrite bool_decide_eq_true_2 by reflexivity.
    change (u ",") with [0x2C]. rewrite str_split_none.
    2:{ intros Hin. pose proof (proj1 (Forall_forall _ _) Hsep _ Hin) as Hc.
        apply Hc. apply list_elem_of_further, list_elem_of_here. }
    cbn [fmap list_fmap]. rewrite Hs.
    rewrite filter_cons_True by discriminate. rewrite filter_nil.
    reflexivity. }
  split; [exact E|].
  unfold split_address_joined, format_pairs. rewrite E. split; reflexivity.
Qed.

End Extras.

#[local] Existing Instance Latin.runtime.

(** X7, at the name of a city: "Hà Nội" alone gives no city. *)
Lemma address_without_separator_has_no_pair_witness :
  split_address_all_pairs (VStr (u "Hà Nội")) = Ok []
  /\ split_address_joined (VStr (u "Hà Nội")) None true = Ok (None, None)
  /\ format_pairs (VStr (u "Hà Nội")) = Ok None.
Proof.
  apply (address_without_separator_has_no_pair (RT := Latin.runtime)
           (u "Hà Nội") true).
  refine (bool_decide_unpack _ _). vm_compute. exact I.
Defined.

End AddressExtras.

(** ** Salary: what [_num] reads *)

Module SalaryExtras.
Import Re ReFacts Captures StrFacts SalaryFacts AddressFacts EngineFacts.

#[local] Arguments Chr.isdecimal : simpl never.
#[local] Arguments Chr.isspace : simpl never.
#[local] Arguments Float.of_ratio : simpl never.
#[local] Arguments Z.pow : simpl never.

#[local] Abbreviation DIGIT := (ASet false [CDigit]).
#[local] Abbreviation NUM :=
  (RGroup 1 (RSeq (RPlus DIGIT)
               (ROpt (RSeq (RAtom (AChar 0x2E)) (RPlus DIGIT))))).

Lemma comma_to_point_digit c :
  Chr.isdecimal (comma_to_point c) = Chr.isdecimal c.
Proof.
  unfold comma_to_point. destruct (0x2C =? c) eqn:E; [|reflexivity].
  apply N.eqb_eq in E. subst c. vm_compute. reflexivity.
Qed.

Lemma comma_to_point_fixes ds :
  Forall (fun c => Chr.isdecimal c = true) ds -> comma_to_point <$> ds = ds.
Proof.
  induction 1 as [|c ds Hc _ IH]; [reflexivity|].
  cbn [fmap list_fmap]. fold (fmap comma_to_point ds). rewrite IH. f_equal.
  unfold comma_to_point. apply isdecimal_not_comma in Hc.
  destruct (0x2C =? c) eqn:E; [|reflexivity].
  apply N.eqb_eq in E. congruence.
Qed.

Section Extras.
Context {RT : Runtime}.

Lemma _num_unfold tok :
  _num tok =
  match search_from false NUM None 0 (comma_to_point <$> tok) with
  | Some m =>
    match Re.group 1 m with
    | Some g => f ← Builtins.float_of_str g; Ok (Some f)
    | None => Raise TypeError
    end
  | None => Ok None
  end.
Proof.
  unfold _num, Re.search, Re.search_with. rewrite compile_num. run.
  change (u ",") with [0x2C]. change (u ".") with [0x2E].
  rewrite replace_char. reflexivity.
Qed.

(** The pattern of [_num] at a digit: the match is a run of digits, with
    a point and further digits if they follow, and [float] reads it. *)
Lemma num_match_here prev d t :
  Chr.isdecimal d = true ->
  exists rest cs g f,
    match_here false NUM prev (d :: t) = Some (rest, (1%nat, g) :: cs)
    /\ d :: t = g ++ rest
    /\ Builtins.float_of_str g = Ok f /\ Float.nonneg f.
Proof.
  intros Hd.
  destruct (match_here false NUM prev (d :: t)) as [[rest cs]|] eqn:Hm.
  - apply match_here_sound in Hm as (pre & Heq & Hm).
    apply inv_group in Hm as (cs1 & Hm & ->).
    exists rest, cs1, pre.
    apply inv_seq in Hm as (pre1 & pre2 & cs2 & -> & H1 & H2).
    apply inv_plus in H1 as (c & ds & -> & Hall & ->).
    apply digits_forall in Hall.
    apply inv_opt in H2 as [H2|[-> ->]].
    + apply inv_seq in H2 as (p1 & p2 & cs3 & -> & H3 & H4).
      apply inv_atom in H3 as (c' & -> & Hc' & ->).
      simpl in Hc'. apply N.eqb_eq in Hc'. subst c'.
      apply inv_plus in H4 as (c2 & fs & -> & Hfs & ->).
      apply digits_forall in Hfs.
      destruct (float_of_str_fraction c ds (c2 :: fs) Hall Hfs) as (f & Hf & Hn).
      exists f. split; [reflexivity|]. split; [exact Heq|]. split; [exact Hf | exact Hn].
    + rewrite app_nil_r in *.
      destruct (float_of_str_digits c ds Hall) as (f & Hf & Hn).
      exists f. split; [reflexivity|]. split; [exact Heq|]. split; [exact Hf | exact Hn].
  - exfalso. unfold match_here in Hm. cbn [exec] in Hm.
    rewrite atom_digit, Hd in Hm.
    match type of Hm with star ?p ?pv ?s ?k = None =>
      destruct (star_total p pv s k) as [x Hx]; [|congruence] end.
    intros p' s'. cbn beta.
    match goal with |- is_Some (match ?e with _ => _ end) => destruct e end; eauto.
Qed.

Lemma num_match_fails prev s :
  (forall c r, s = c :: r -> Chr.isdecimal c = false) ->
  match_here false NUM prev s = None.
Proof.
  intros H. unfold match_here. cbn [exec]. destruct s as [|c r]; [reflexivity|].
  rewrite atom_digit, (H c r eq_refl). reflexivity.
Qed.

(** The search finds nothing in a text without digits, and otherwise a
    number that [float] reads. *)
Lemma num_search : forall s prev pos,
  (Forall (fun c => Chr.isdecimal c = false) s
   /\ search_from false NUM prev pos s = None)
  \/ (exists m g f,
        search_from false NUM prev pos s = Some m
        /\ Re.group 1 m = Some g
        /\ Builtins.float_of_str g = Ok f /\ Float.nonneg f
        /\ Exists (fun c => Chr.isdecimal c = true) s).
Proof.
  induction s as [|c s IH]; intros prev pos.
  - left. split; [constructor|]. rewrite search_from_eq, num_match_fails; [reflexivity|].
    intros ? ? H. discriminate H.
  - rewrite search_from_eq. destruct (Chr.isdecimal c) eqn:Hc.
    + right. destruct (num_match_here prev c s Hc) as (rest & cs & g & f & -> & Heq & Hf & Hn).
      do 3 eexists. split; [reflexivity|]. split; [reflexivity|].
      split; [exact Hf|]. split; [exact Hn|]. by apply Exists_cons_hd.
    + rewrite num_match_fails by (intros ? ? [= <- <-]; exact Hc).
      destruct (IH (Some c) (S pos)) as [[Hall Hs]|(m & g & f & Hs & Hg & Hf & Hn & Hex)].
      * left. split; [by constructor | exact Hs].
      * right. exists m, g, f. split; [exact Hs|]. split; [exact Hg|].
        split; [exact Hf|]. split; [exact Hn|]. by apply Exists_cons_tl.
Qed.

(** X8.  [_num] answers every token and never raises: it returns [None]
    exactly when the token holds no decimal digit, and otherwise a float
    that is not negative and not a NaN. *)
Theorem num_reads_every_token (tok : str) :
  exists r,
    _num tok = Ok r
    /\ (r = None <-> Forall (fun c => Chr.isdecimal c = false) tok)
    /\ forall f, r = Some f -> Float.nonneg f.
Proof.
  rewrite _num_unfold.
  assert (Hd : forall P : bool -> Prop,
            Forall (fun c => P (Chr.isdecimal c)) (comma_to_point <$> tok)
            <-> Forall (fun c => P (Chr.isdecimal c)) tok).
  { intros P. rewrite Forall_fmap. apply Forall_iff. intros c. cbv beta.
    unfold compose. by rewrite comma_to_point_digit. }
  destruct (num_search (comma_to_point <$> tok) None 0)
    as [[Hall ->]|(m & g & f & -> & -> & Hf & Hn & Hex)].
  - exists None. split; [reflexivity|]. split; [|discriminate].
    split; [|reflexivity]. intros _.
    apply (Hd (fun b => b = false)). exact Hall.
  - rewrite Hf. run. exists (Some f). split; [reflexivity|]. split.
    + split; [discriminate|]. intros Hall. exfalso.
      apply (Hd (fun b => b = false)) in Hall.
      apply Exists_exists in Hex as (c & Hc & Hdc).
      rewrite (proj1 (Forall_forall _ _) Hall c Hc) in Hdc. discriminate Hdc.
    + intros f' [= <-]. exact Hn.
Qed.

(** The match at a run of digits followed by a point and digits. *)
Lemma num_match_fraction prev d1 ds1 d2 ds2 rest :
  Forall (fun c => Chr.isdecimal c = true) (d1 :: ds1) ->
  Forall (fun c => Chr.isdecimal c = true) (d2 :: ds2) ->
  (forall c r, rest = c :: r -> Chr.isdecimal c = false) ->
  match_here false NUM prev ((d1 :: ds1) ++ 0x2E :: (d2 :: ds2) ++ rest)
  = Some (rest, [(1%nat, (d1 :: ds1) ++ 0x2E :: d2 :: ds2)]).
Proof.
  intros H1 H2 Hrest.
  inversion H1 as [|? ? Hd1 Hds1]; subst. inversion H2 as [|? ? Hd2 Hds2]; subst.
  assert (Hpt : Chr.isdecimal 0x2E = false) by (vm_compute; reflexivity).
  assert (HD : forall l, Forall (fun c => Chr.isdecimal c = true) l ->
                 Forall (fun c => atom_match false DIGIT c = true) l).
  { intros l Hl. eapply Forall_impl; [exact Hl|]. intros c Hc. cbv beta.
    by rewrite atom_digit. }
  set (s := (d1 :: ds1) ++ 0x2E :: (d2 :: ds2) ++ rest).
  assert (Etake : take (length s - length rest) s = (d1 :: ds1) ++ 0x2E :: d2 :: ds2).
  { replace s with (((d1 :: ds1) ++ 0x2E :: d2 :: ds2) ++ rest).
    - apply take_app_exact.
    - unfold s. rewrite <- app_assoc. reflexivity. }
  unfold match_here. cbn [exec]. fold s.
  unfold s at 1. cbn [app]. rewrite atom_digit, Hd1.
  assert (Ept : atom_match false (AChar 0x2E) 0x2E = true) by reflexivity.
  rewrite star_run; [| apply HD; exact Hds1 | |].
  - cbn [exec]. rewrite Ept. cbn [app]. rewrite atom_digit, Hd2.
    rewrite star_run; [by rewrite Etake | apply HD; exact Hds2 | | eauto].
    intros c r Hc. rewrite atom_digit. exact (Hrest c r Hc).
  - intros c r [= <- <-]. rewrite atom_digit. exact Hpt.
  - cbn [exec]. rewrite Ept. cbn [app]. rewrite atom_digit, Hd2.
    rewrite star_run; [eauto | apply HD; exact Hds2 | | eauto].
    intros c r Hc. rewrite atom_digit. exact (Hrest c r Hc).
Qed.

(** X9.  [_num] reads a comma or a point between two runs of digits as
    the decimal point and ignores what follows the second run: the value
    of [d1 sep d2 rest] is the number written by the digits of [d1] and
    [d2] divided by ten to the number of digits of [d2].  A separator of
    thousands is therefore read as a decimal point ("1,500" is 1.5 and
    "1.000.000" is 1.0). *)
Theorem num_reads_separator_as_decimal_point (d1 d2 rest : str) (sep : N) :
  d1 <> [] -> d2 <> [] ->
  Forall (fun c => Chr.isdecimal c = true) d1 ->
  Forall (fun c => Chr.isdecimal c = true) d2 ->
  sep = 0x2C \/ sep = 0x2E ->
  (forall c r, rest = c :: r -> Chr.isdecimal c = false) ->
  exists n,
    Builtins.digits_from 0 (d1 ++ d2) = Some n
    /\ _num (d1 ++ sep :: d2 ++ rest)
       = Ok (Some (Float.of_ratio n (10 ^ Z.of_nat (length d2)))).
Proof.
  intros N1 N2 H1 H2 Hsep Hrest.
  destruct d1 as [|x1 t1]; [congruence|]. destruct d2 as [|x2 t2]; [congruence|].
  destruct (digits_from_ok ((x1 :: t1) ++ x2 :: t2) 0) as (n & Hn & _);
    [apply Forall_app; auto | lia |].
  exists n. split; [exact Hn|].
  rewrite _num_unfold.
  assert (Es : comma_to_point sep = 0x2E) by (destruct Hsep as [->| ->]; reflexivity).
  replace (comma_to_point <$> (x1 :: t1) ++ sep :: (x2 :: t2) ++ rest)
    with ((x1 :: t1) ++ 0x2E :: (x2 :: t2) ++ (comma_to_point <$> rest)).
  2:{ rewrite fmap_app, (comma_to_point_fixes _ H1). f_equal.
      change (sep :: (x2 :: t2) ++ rest) with ([sep] ++ ((x2 :: t2) ++ rest)).
      rewrite !fmap_app, (comma_to_point_fixes _ H2).
      cbn [fmap list_fmap app]. rewrite Es. reflexivity. }
  rewrite search_from_eq.
  rewrite num_match_fraction; [| exact H1 | exact H2 |].
  2:{ intros c r Hc. destruct rest as [|c' r']; [discriminate Hc|].
      cbn [fmap list_fmap] in Hc. injection Hc as <- _.
      rewrite comma_to_point_digit. exact (Hrest c' r' eq_refl). }
  unfold Re.group. cbn [m_caps find fst snd Nat.eqb fmap option_fmap option_map].
  unfold Builtins.float_of_str.
  rewrite split_point_digits by exact H1.
  cbn [Builtins.split_point]. rewrite N.eqb_refl.
  cbn [fst snd default from_option]. unfold id. rewrite app_nil_r.
  destruct (digits_from_ok (x1 :: t1) 0 H1 ltac:(lia)) as (v & Hv & _).
  rewrite Hv, Hn. cbn [app]. run. reflexivity.
Qed.

End Extras.

#[local] Existing Instance Latin.runtime.

(** X9, at a salary written with separators of thousands. *)
Lemma num_reads_separator_as_decimal_point_witness :
  _num (u "1.000.000") = Ok (Some (Float.of_Z 1)).
Proof.
  change (u "1.000.000") with (u "1" ++ 0x2E :: u "000" ++ u ".000").
  destruct (num_reads_separator_as_decimal_point (RT := Latin.runtime)
              (u "1") (u "000") (u ".000") 0x2E) as (n & Hn & ->).
  - vm_compute. discriminate.
  - vm_compute. discriminate.
  - refine (bool_decide_unpack _ _). vm_compute. exact I.
  - refine (bool_decide_unpack _ _). vm_compute. exact I.
  - right. reflexivity.
  - intros c r H. vm_compute in H. injection H as <- _. vm_compute. reflexivity.
  - vm_compute in Hn. injection Hn as <-. vm_compute. reflexivity.
Defined.

End SalaryExtras.

(* ===================================================================== *)
(** ** The negotiation marker in a raw text *)
(* ===================================================================== *)

Module MarkerExtras.
Import Re ReFacts StrFacts SalaryFacts EngineFacts.

#[local] Abbreviation WS := (RPlus (ASet false [CSpace])).
#[local] Abbreviation solid p := (Forall (fun c => Chr.isspace c = false) p).

(** Lower-casing leaves white space as it is. *)
Lemma tolower_space c : Chr.isspace c = true -> Latin.tolower c = c.
Proof.
  unfold Chr.isspace, Latin.tolower, Latin.between, Latin.mem, Latin.VIET_UPPER.
  cbn [existsb]. intros H.
  repeat match goal with
         | |- context [if ?b then _ else _] => destruct b eqn:?
         end; try reflexivity; exfalso;
    rewrite ?orb_true_iff, ?andb_true_iff, ?negb_true_iff, ?N.leb_le, ?N.eqb_eq,
      ?N.eqb_neq in *; lia.
Qed.

Lemma contains_nil p : p <> [] -> Str.contains p [] = false.
Proof. destruct p; [congruence|reflexivity]. Qed.

Lemma contains_lstrip p : forall s,
  p <> [] -> solid p ->
  Str.contains p s = true -> Str.contains p (Str.lstrip s) = true.
Proof.
  intros s Hp Hs. destruct p as [|c0 p0]; [congruence|].
  apply Forall_cons in Hs as [Hc0 _].
  induction s as [|a s IH]; [auto|]. cbn [Str.lstrip].
  destruct (Chr.isspace a) eqn:Ha; [|auto].
  cbn [Str.contains Str.startswith].
  destruct (N.eqb_spec c0 a) as [->|_]; [congruence|].
  cbn [andb orb]. exact IH.
Qed.

Lemma contains_reverse p s :
  Str.contains p s = true -> Str.contains (reverse p) (reverse s) = true.
Proof.
  intros H. apply contains_spec in H as (a & b & ->). apply contains_spec.
  exists (reverse b), (reverse a). rewrite !reverse_app, <- app_assoc. reflexivity.
Qed.

Lemma contains_strip p s :
  p <> [] -> solid p ->
  Str.contains p s = true -> Str.contains p (Str.strip s) = true.
Proof.
  intros Hp Hs H. unfold Str.strip, Str.rstrip.
  rewrite <- (reverse_involutive p). apply contains_reverse.
  apply contains_lstrip.
  - intros E. apply (f_equal reverse) in E. rewrite reverse_involutive in E.
    exact (Hp E).
  - apply Forall_reverse. exact Hs.
  - apply contains_reverse. apply contains_lstrip; assumption.
Qed.

Section Collapse.
Context {RT : Runtime}.

Lemma collapse_literal s :
  sub_from false WS (u " ") None 0 s = sub_from false WS [0x20] None 0 s.
Proof. replace (u " ") with [0x20] by (vm_compute; reflexivity). reflexivity. Qed.

Lemma collapse_solid p b :
  solid p ->
  sub_from false WS [0x20] None 0 (p ++ b) = p ++ sub_from false WS [0x20] None 0 b.
Proof.
  induction 1 as [|c p Hc _ IH]; [reflexivity|].
  cbn [app]. rewrite sub_ws_cons, Hc, IH. reflexivity.
Qed.

(** Collapsing white space keeps every occurrence of a text without
    white space. *)
Lemma contains_collapse p : p <> [] -> solid p -> forall n s,
  (length s <= n)%nat ->
  Str.contains p s = true ->
  Str.contains p (sub_from false WS [0x20] None 0 s) = true.
Proof.
  intros Hp Hs. induction n as [|n IH]; intros s Hn H.
  { destruct s; [|cbn in Hn; lia]. rewrite contains_nil in H by exact Hp. discriminate. }
  pose proof H as H0. apply contains_spec in H as (a & b & E).
  destruct a as [|c a].
  - rewrite E. cbn [app]. rewrite collapse_solid by exact Hs.
    apply contains_spec. exists [], (sub_from false WS [0x20] None 0 b). reflexivity.
  - subst s. cbn [app length] in *.
    assert (H1 : Str.contains p (a ++ p ++ b) = true)
      by (apply contains_spec; eauto).
    rewrite sub_ws_cons. destruct (Chr.isspace c).
    + assert (IH' : Str.contains p (sub_from false WS [0x20] None 0
                                      (Str.lstrip (a ++ p ++ b))) = true).
      { apply IH; [|apply contains_lstrip; assumption].
        pose proof (lstrip_length (a ++ p ++ b)). lia. }
      apply (contains_infix p [0x20] _ []) in IH'.
      rewrite app_nil_r in IH'. exact IH'.
    + assert (IH' : Str.contains p (sub_from false WS [0x20] None 0 (a ++ p ++ b))
                    = true) by (apply IH; [lia|exact H1]).
      apply (contains_infix p [c] _ []) in IH'.
      rewrite app_nil_r in IH'. exact IH'.
Qed.

End Collapse.

Lemma contains_fmap (f : N -> N) p s :
  Str.contains p s = true -> Str.contains (f <$> p) (f <$> s) = true.
Proof.
  intros H. apply contains_spec in H as (a & b & ->). apply contains_spec.
  exists (f <$> a), (f <$> b). rewrite !fmap_app. reflexivity.
Qed.

#[local] Existing Instance Latin.runtime.

(** X23.  The word negotiable decides alone: a text whose lower-cased
    form contains it, in whatever case it is written and whatever
    numbers, currency marks or white space stand around it, is answered
    with no bounds, the unit VND and the note negotiable (for texts of
    the Latin and Vietnamese alphabets, whose lower-casing works letter
    by letter). *)
Theorem negotiable_word_decides text :
  Str.contains (u "negotiable") (str_lower text) = true ->
  parse_salary (VStr text) = Ok (None, None, u "VND", u "negotiable").
Proof.
  intros H. apply contains_spec in H as (a & b & E).
  change (str_lower text) with (Latin.tolower <$> text) in E.
  apply fmap_app_inv in E as (a' & r & _ & E & ->). symmetry in E.
  apply fmap_app_inv in E as (p & b' & Ep & _ & ->).
  assert (Hp : p <> []).
  { intros ->. vm_compute in Ep. discriminate Ep. }
  assert (Hs : solid p).
  { apply Forall_forall. intros c Hc.
    destruct (Chr.isspace c) eqn:Hsp; [exfalso|reflexivity].
    pose proof (list_elem_of_fmap_2 Latin.tolower _ _ Hc) as Hin.
    rewrite <- Ep, (tolower_space c Hsp) in Hin. vm_compute in Hin.
    repeat (apply elem_of_cons in Hin as [->|Hin]; [vm_compute in Hsp; discriminate Hsp|]).
    inversion Hin. }
  assert (H1 : Str.contains p (a' ++ p ++ b') = true)
    by (apply contains_spec; eauto).
  apply contains_strip in H1; [|exact Hp|exact Hs].
  unfold parse_salary.
  destruct (Str.strip (a' ++ p ++ b')) as [|c0 t0] eqn:Hstrip.
  { rewrite contains_nil in H1 by exact Hp. discriminate H1. }
  rewrite <- Hstrip in *. clear Hstrip c0 t0.
  rewrite sub_ws. step. rewrite collapse_literal.
  apply (contains_collapse p Hp Hs _ _ (le_n _)) in H1.
  apply (contains_fmap Latin.tolower) in H1. rewrite <- Ep in H1.
  change (str_lower ?x) with (Latin.tolower <$> x).
  destruct (Str.contains (u "thoả thuận") _); [reflexivity|].
  destruct (Str.contains (u "thỏa thuận") _); [reflexivity|].
  cbn [orb]. rewrite H1. reflexivity.
Qed.

(** X23, at a text with a ceiling in dollars. *)
Lemma negotiable_word_decides_witness :
  parse_salary (VStr (u "NEGOTIABLE, up to 2000 USD"))
  = Ok (None, None, u "VND", u "negotiable").
Proof.
  apply negotiable_word_decides. vm_compute. reflexivity.
Defined.

End MarkerExtras.

(** ** The table returned by [transform] *)

Module FrameFacts.
Import AddressFacts.

Lemma column_set c c' v d :
  Frame.column c (Frame.set_column c' v d)
  = if bool_decide (c' = c) then Ok v else Frame.column c d.
Proof.
  unfold Frame.column. induction d as [|[k w] d IH]; cbn [Frame.set_column find fst snd].
  - destruct (bool_decide (c' = c)); reflexivity.
  - destruct (bool_decide (k = c')) eqn:E1.
    + apply bool_decide_eq_true in E1. subst k. cbn [find fst snd].
      destruct (bool_decide (c' = c)); reflexivity.
    + apply bool_decide_eq_false in E1. cbn [find fst snd].
      destruct (bool_decide (k = c)) eqn:E2.
      * apply bool_decide_eq_true in E2. subst k.
        rewrite bool_decide_eq_false_2 by congruence. reflexivity.
      * exact IH.
Qed.

Lemma names_set c v d :
  (Frame.set_column c v d).*1 = if bool_decide (c ∈ d.*1) then d.*1 else d.*1 ++ [c].
Proof.
  induction d as [|[k w] d IH]; cbn [Frame.set_column fmap list_fmap fst].
  - rewrite bool_decide_eq_false_2 by (inversion 1). reflexivity.
  - fold (fmap (M := list) (@fst str (list value)) d) in *.
    destruct (bool_decide (k = c)) eqn:E1.
    + apply bool_decide_eq_true in E1. subst k.
      rewrite bool_decide_eq_true_2 by apply list_elem_of_here. reflexivity.
    + apply bool_decide_eq_false in E1. cbn [fmap list_fmap fst].
      fold (fmap (M := list) (@fst str (list value)) (Frame.set_column c v d)).
      rewrite IH. destruct (bool_decide (c ∈ d.*1)) eqn:E2.
      * apply bool_decide_eq_true in E2.
        rewrite bool_decide_eq_true_2 by (by apply list_elem_of_further). reflexivity.
      * apply bool_decide_eq_false in E2.
        rewrite bool_decide_eq_false_2; [reflexivity|].
        rewrite elem_of_cons. intros [->|H]; [congruence | contradiction].
Qed.

Lemma has_column_set c c' v d :
  Frame.has_column c (Frame.set_column c' v d)
  = bool_decide (c' = c) || Frame.has_column c d.
Proof.
  unfold Frame.has_column. rewrite names_set.
  destruct (bool_decide (c' = c)) eqn:E1; cbn [orb].
  - apply bool_decide_eq_true in E1. subst c'.
    destruct (bool_decide (c ∈ d.*1)) eqn:E2; [exact E2|].
    apply bool_decide_eq_true_2. apply elem_of_app. right. apply list_elem_of_here.
  - apply bool_decide_eq_false in E1.
    destruct (bool_decide (c' ∈ d.*1)); [reflexivity|].
    apply bool_decide_ext. rewrite elem_of_app, list_elem_of_singleton.
    split; [intros [H|H]; [exact H | congruence] | auto].
Qed.

Lemma column_elem c d :
  c ∈ d.*1 -> exists v, Frame.column c d = Ok v /\ (c, v) ∈ d.
Proof.
  unfold Frame.column. induction d as [|[k w] d IH]; cbn [fmap list_fmap find fst snd].
  - inversion 1.
  - intros H. destruct (bool_decide (k = c)) eqn:E.
    + apply bool_decide_eq_true in E. subst k. exists w.
      split; [reflexivity | apply list_elem_of_here].
    + apply bool_decide_eq_false in E. apply elem_of_cons in H as [H|H]; [congruence|].
      destruct (IH H) as (v & Hv & Hin). exists v.
      split; [exact Hv | by apply list_elem_of_further].
Qed.

Lemma has_rows_column n c d :
  has_rows n d -> c ∈ d.*1 ->
  exists v, Frame.column c d = Ok v /\ length v = n.
Proof.
  intros [_ Hlen] Hc. destruct (column_elem c d Hc) as (v & Hv & Hin).
  exists v. split; [exact Hv|].
  exact (proj1 (Forall_forall _ _) Hlen _ Hin).
Qed.

Lemma has_rows_set n c v d :
  has_rows n d -> length v = n -> has_rows n (Frame.set_column c v d).
Proof.
  intros [Hnd Hlen] Hv. split.
  - rewrite names_set. destruct (bool_decide (c ∈ d.*1)) eqn:E; [exact Hnd|].
    apply bool_decide_eq_false in E. apply NoDup_app. split; [exact Hnd|].
    split; [|apply NoDup_singleton].
    intros x Hx Hc. apply list_elem_of_singleton in Hc. congruence.
  - clear Hnd. induction Hlen as [|[k w] d Hk Hd IH]; cbn [Frame.set_column].
    + constructor; [exact Hv | constructor].
    + destruct (bool_decide (k = c)); constructor; auto.
Qed.

Lemma to_numeric_of_float os :
  Frame.to_numeric (Frame.of_float <$> os) = numeric_cell <$> os.
Proof.
  unfold Frame.to_numeric. rewrite <- list_fmap_compose.
  apply list_fmap_ext. intros _ [f|] _; reflexivity.
Qed.

(** [series.apply(f)] when [f] answers every cell: the results in order,
    and one event for each cell. *)
Lemma apply_ok {A} fn (f : value -> result A) : forall cells rs d tr,
  rmap f cells = Ok rs ->
  Step.apply fn f cells (d, tr) = (Ok rs, (d, tr ++ (Enriched fn <$> cells))).
Proof.
  induction cells as [|v cells IH]; intros rs d tr; cbn [rmap].
  - intros [= <-]. cbn. rewrite app_nil_r. reflexivity.
  - destruct (f v) as [a|e] eqn:Ha; run; [|discriminate].
    destruct (rmap f cells) as [r|e] eqn:Hr; run; [|discriminate].
    intros [= <-]. cbn [Step.apply].
    unfold mbind, M_bind, Step.note, Step.lift, mret, M_ret. cbn [fst snd].
    rewrite Ha. rewrite (IH r d (tr ++ [Enriched fn v]) eq_refl).
    cbn [fmap list_fmap]. rewrite <- app_assoc. reflexivity.
Qed.

(** A function that answers every value maps over every column. *)
Lemma rmap_all {A} (f : value -> result A) (cells : list value) :
  (forall v, exists a, f v = Ok a) ->
  exists rs, rmap f cells = Ok rs /\ length rs = length cells
             /\ forall i v, cells !! i = Some v ->
                  exists a, f v = Ok a /\ rs !! i = Some a.
Proof.
  intros Hf. destruct (rmap_total f cells) as [rs Hrs]; [intros; apply Hf|].
  exists rs. split; [exact Hrs|].
  destruct (rmap_lookup f cells rs Hrs) as [Hlen Hidx]. split; [exact Hlen|].
  intros i v Hv. destruct (lookup_lt_is_Some_2 rs i) as [b Hb].
  { rewrite Hlen. eapply lookup_lt_Some; eauto. }
  destruct (Hidx i b Hb) as (a' & Ha' & Hfa). rewrite Hv in Ha'.
  injection Ha' as <-. eauto.
Qed.

Lemma rmap_at {A B} (f : A -> result B) l bs i a :
  rmap f l = Ok bs -> l !! i = Some a ->
  exists b, f a = Ok b /\ bs !! i = Some b.
Proof.
  intros Hr Ha. destruct (rmap_lookup f l bs Hr) as [Hlen Hidx].
  destruct (lookup_lt_is_Some_2 bs i) as [b Hb].
  { rewrite Hlen. eapply lookup_lt_Some; eauto. }
  destruct (Hidx i b Hb) as (a' & Ha' & Hfa). rewrite Ha in Ha'.
  injection Ha' as <-. eauto.
Qed.

Lemma rmap_length {A B} (f : A -> result B) l bs :
  rmap f l = Ok bs -> length bs = length l.
Proof. intros H. exact (proj1 (rmap_lookup f l bs H)). Qed.

(** A run of assignments leaves the columns it does not name. *)
Lemma column_assign_other c : forall (l : list (str * list value)) d,
  Forall (fun kv => kv.1 <> c) l ->
  Frame.column c (foldl (fun d kv => Frame.set_column kv.1 kv.2 d) d l)
  = Frame.column c d.
Proof.
  induction l as [|[k v] l IH]; intros d Hl; [reflexivity|].
  inversion Hl as [|? ? Hk Hrest]; subst. cbn [foldl fst snd].
  rewrite (IH _ Hrest), column_set.
  rewrite bool_decide_eq_false_2 by exact Hk. reflexivity.
Qed.

Lemma has_rows_assign n : forall (l : list (str * list value)) d,
  has_rows n d -> Forall (fun kv => length kv.2 = n) l ->
  has_rows n (foldl (fun d kv => Frame.set_column kv.1 kv.2 d) d l).
Proof.
  induction l as [|[k v] l IH]; intros d Hd Hl; [exact Hd|].
  apply Forall_cons in Hl as [Hk Hrest]. cbn [foldl fst snd].
  apply IH; [|exact Hrest]. apply has_rows_set; [exact Hd | exact Hk].
Qed.

Lemma filter_all_out {A} (P : A -> Prop) `{!forall x, Decision (P x)} l :
  Forall P l -> filter (fun x => ~ P x) l = [].
Proof.
  induction 1 as [|x l Hx _ IH]; [reflexivity|].
  rewrite filter_cons_False by tauto. exact IH.
Qed.

End FrameFacts.

Module TransformExtras.
Import Re ReFacts StrFacts SalaryFacts AddressFacts AddressContract
  EngineFacts FrameFacts.

(** Comparisons of column names are settled by evaluation. *)
Ltac eval_names :=
  repeat match goal with
  | |- context [bool_decide (u ?a = u ?b)] =>
    let r := eval vm_compute in (bool_decide (u a = u b)) in
    replace (bool_decide (u a = u b)) with r by (vm_compute; reflexivity)
  end.

Ltac by_position :=
  repeat first [apply list_elem_of_here | apply list_elem_of_further].

Ltac frame :=
  rewrite ?has_column_set, ?column_set; eval_names; cbn [orb]; cbv beta iota.

Section Extras.
Context {RT : Runtime}.

Lemma column_has c d v : Frame.column c d = Ok v -> Frame.has_column c d = true.
Proof.
  unfold Frame.column, Frame.has_column. intros H.
  apply bool_decide_eq_true_2.
  destruct (find _ d) as [[k w]|] eqn:E; [|discriminate].
  apply find_some in E as [Hin Hk]. apply bool_decide_eq_true in Hk.
  simpl in Hk. subst k. apply list_elem_of_fmap. exists (c, w).
  split; [reflexivity|]. by apply list_elem_of_In.
Qed.

(** The [try] block on a table that has the three columns and at least
    one row. *)
Lemma enrich_rows df sal adr ttl parsed joined strs groups levels :
  Frame.column (u "salary") df = Ok sal ->
  Frame.column (u "address") df = Ok adr ->
  Frame.column (u "job_title") df = Ok ttl ->
  rmap parse_salary sal = Ok parsed -> parsed <> [] ->
  rmap (fun s => split_address_joined s None true) adr = Ok joined ->
  joined <> [] ->
  rmap format_pairs adr = Ok strs ->
  rmap _job_group ttl = Ok groups ->
  rmap _job_seniority ttl = Ok levels ->
  enrich (df, [])
  = (Ok (),
     (enriched df parsed joined strs groups levels,
      (Enriched (u "parse_salary") <$> sal)
      ++ (Enriched (u "split_address_joined") <$> adr)
      ++ (Enriched (u "format_pairs") <$> adr)
      ++ (Enriched (u "_job_group") <$> ttl)
      ++ (Enriched (u "_job_seniority") <$> ttl))).
Proof.
  intros Hsal Hadr Httl Hparsed Nparsed Hjoined Njoined Hstrs Hgroups Hlevels.
  pose proof (column_has _ _ _ Hsal) as Csal.
  pose proof (column_has _ _ _ Hadr) as Cadr.
  pose proof (column_has _ _ _ Httl) as Cttl.
  unfold enrich, enriched.
  unfold mbind, M_bind, Step.out, Step.lift, Step.assign, mret, M_ret.
  cbn [fst snd foldl].
  rewrite Csal, Hsal, (apply_ok _ _ _ _ _ _ Hparsed).
  destruct parsed as [|p0 parsed]; [congruence|].
  cbn [Frame.unzip4 fst snd].
  set (rows := p0 :: parsed).
  match goal with
  | |- context [Frame.set_column (u "salary_note") ?v ?d] =>
    set (d4 := Frame.set_column (u "salary_note") v d)
  end.
  assert (A1 : Frame.has_column (u "address") d4 = true)
    by (unfold d4; frame; exact Cadr).
  assert (A2 : Frame.column (u "address") d4 = Ok adr)
    by (unfold d4; frame; exact Hadr).
  rewrite A1, A2, (apply_ok _ _ _ _ _ _ Hjoined).
  destruct joined as [|j0 joined]; [congruence|].
  cbn [Frame.unzip2 fst snd].
  set (js := j0 :: joined).
  match goal with
  | |- context [Frame.set_column (u "district") ?v ?d] =>
    set (d6 := Frame.set_column (u "district") v d)
  end.
  assert (A3 : Frame.column (u "address") d6 = Ok adr)
    by (unfold d6; frame; exact A2).
  rewrite A3, (apply_ok _ _ _ _ _ _ Hstrs). cbn [fst snd].
  match goal with
  | |- context [Frame.set_column (u "city_district_pairs_str") ?v ?d] =>
    set (d7 := Frame.set_column (u "city_district_pairs_str") v d)
  end.
  assert (J1 : Frame.has_column (u "job_title") d7 = true)
    by (unfold d7, d6, d4; frame; exact Cttl).
  assert (J2 : Frame.column (u "job_title") d7 = Ok ttl)
    by (unfold d7, d6, d4; frame; exact Httl).
  rewrite J1, J2, (apply_ok _ _ _ _ _ _ Hgroups). cbn [fst snd].
  match goal with
  | |- context [Frame.set_column (u "job_title_group") ?v ?d] =>
    set (d8 := Frame.set_column (u "job_title_group") v d)
  end.
  assert (J3 : Frame.column (u "job_title") d8 = Ok ttl)
    by (unfold d8; frame; exact J2).
  rewrite J3, (apply_ok _ _ _ _ _ _ Hlevels). cbn [fst snd].
  match goal with
  | |- context [Frame.set_column (u "job_title_group_big") ?v ?d] =>
    set (d10 := Frame.set_column (u "job_title_group_big") v d)
  end.
  assert (N1 : Frame.has_column (u "min_salary") d10 = true)
    by (unfold d10, d8, d7, d6, d4; frame; reflexivity).
  assert (N2 : Frame.column (u "min_salary") d10
               = Ok (Frame.of_float <$> ((fun r : salary => r.1.1.1) <$> rows)))
    by (unfold d10, d8, d7, d6, d4; frame; reflexivity).
  rewrite N1, N2. cbn [fst snd].
  match goal with
  | |- context [Frame.set_column (u "min_salary") (Frame.to_numeric ?v) ?d] =>
    set (d11 := Frame.set_column (u "min_salary") (Frame.to_numeric v) d)
  end.
  assert (N3 : Frame.has_column (u "max_salary") d11 = true)
    by (unfold d11, d10, d8, d7, d6, d4; frame; reflexivity).
  assert (N4 : Frame.column (u "max_salary") d11
               = Ok (Frame.of_float <$> ((fun r : salary => r.1.1.2) <$> rows)))
    by (unfold d11, d10, d8, d7, d6, d4; frame; reflexivity).
  rewrite N3, N4. cbn [fst snd].
  unfold d11, d10, d8, d7, d6, d4. rewrite !to_numeric_of_float.
  rewrite app_nil_l, <- !app_assoc. reflexivity.
Qed.

Section Strict.
Variable STRICT_SCHEMA : bool.

(** [transform] on a table that has the three required columns and at
    least one row, with the title cells as [py_str] prints them: the five
    passes answer every row, and the result is the table of the
    assignments. *)
Lemma transform_rows df n run_id chunk_idx :
  has_rows (S n) df ->
  Forall (fun c => c ∈ df.*1) REQUIRED_COLUMNS ->
  exists sal adr ttl parsed joined strs groups levels trace,
    (Frame.column (u "salary") df = Ok sal /\ length sal = S n)
    /\ (Frame.column (u "address") df = Ok adr /\ length adr = S n)
    /\ (Frame.column (u "job_title") df = Ok ttl /\ length ttl = S n)
    /\ rmap parse_salary sal = Ok parsed
    /\ rmap (fun s => split_address_joined s None true) adr = Ok joined
    /\ rmap format_pairs adr = Ok strs
    /\ rmap _job_group ttl = Ok groups
    /\ rmap _job_seniority ttl = Ok levels
    /\ transform STRICT_SCHEMA df run_id chunk_idx
       = (Ok (enriched df parsed joined strs groups levels), trace)
    /\ Forall (fun ev => exists fn v, ev = Enriched fn v) trace.
Proof.
  intros Hrows Hreq.
  inversion Hreq as [|? ? Rttl Hreq1]; subst.
  inversion Hreq1 as [|? ? Radr Hreq2]; subst.
  inversion Hreq2 as [|? ? Rsal _]; subst.
  destruct (has_rows_column _ _ _ Hrows Rsal) as (sal & Hsal & Lsal).
  destruct (has_rows_column _ _ _ Hrows Radr) as (adr & Hadr & Ladr).
  destruct (has_rows_column _ _ _ Hrows Rttl) as (ttl & Httl & Lttl).
  destruct (rmap_all parse_salary sal SalaryContract.parse_salary_total)
    as (parsed & Hparsed & Lparsed & _).
  destruct (rmap_all (fun s => split_address_joined s None true) adr)
    as (joined & Hjoined & Ljoined & _).
  { intros v. apply AddressExtras.split_address_joined_total. }
  destruct (rmap_all format_pairs adr AddressExtras.format_pairs_total)
    as (strs & Hstrs & _).
  destruct (rmap_all _job_group ttl) as (groups & Hgroups & _).
  { intros v. destruct (JobContract._job_group_range v) as (g & Hg & _). eauto. }
  destruct (rmap_all _job_seniority ttl) as (levels & Hlevels & _).
  { intros v. destruct (JobExtras._job_seniority_total v) as (l & Hl & _). eauto. }
  exists sal, adr, ttl, parsed, joined, strs, groups, levels.
  eexists. repeat (split; [first [assumption | split; assumption]|]).
  assert (Np : parsed <> []) by (intros ->; simpl in Lparsed; lia).
  assert (Nj : joined <> []) by (intros ->; simpl in Ljoined; lia).
  unfold transform, _validate_schema.
  rewrite (filter_all_out (fun c => c ∈ df.*1) _ Hreq).
  destruct (negb STRICT_SCHEMA);
    rewrite (enrich_rows df sal adr ttl parsed joined strs groups levels
               Hsal Hadr Httl Hparsed Np Hjoined Nj Hstrs Hgroups Hlevels);
    (split; [reflexivity|]);
    rewrite !Forall_app; repeat split;
    apply Forall_fmap, Forall_forall; intros v _; cbv beta; unfold compose; eauto.
Qed.

(** X10.  On a table that has the three required columns and at least
    one row, in strict mode or not: whenever [transform] returns a table,
    nothing was logged or quarantined, the result has the same number of
    rows, every column that is not one of the ten derived columns is
    returned as it was (and a column that was missing is still missing),
    and the ten derived columns are all present.  And [transform] does
    return when every cell of the title column is a text. *)
Theorem transform_keeps_rows_and_columns df n run_id chunk_idx :
  has_rows (S n) df ->
  Forall (fun c => c ∈ df.*1) REQUIRED_COLUMNS ->
  (forall out trace,
     transform STRICT_SCHEMA df run_id chunk_idx = (Ok out, trace) ->
     has_rows (S n) out
     /\ (forall c, c ∉ DERIVED_COLUMNS -> Frame.column c out = Frame.column c df)
     /\ (forall c, c ∈ DERIVED_COLUMNS ->
           exists cells, Frame.column c out = Ok cells)
     /\ Forall (fun ev => exists fn v, ev = Enriched fn v) trace)
  /\ ((exists ttl, Frame.column (u "job_title") df = Ok ttl
                   /\ Forall (fun v => exists s, v = VStr s) ttl) ->
      exists out trace,
        transform STRICT_SCHEMA df run_id chunk_idx = (Ok out, trace)).
Proof.
  intros Hrows Hreq.
  destruct (transform_rows df n run_id chunk_idx Hrows Hreq)
    as (sal & adr & ttl & parsed & joined & strs & groups & levels & trace
        & [Hsal Lsal] & [Hadr Ladr] & [Httl Lttl]
        & Hparsed & Hjoined & Hstrs & Hgroups & Hlevels & Htr & Hev).
  split; [|intros _; eauto].
  intros out trace0 Ht. rewrite Htr in Ht. injection Ht as <- <-.
  apply rmap_length in Hparsed, Hjoined, Hstrs, Hgroups, Hlevels.
  split; [|split; [|split; [|exact Hev]]].
  - unfold enriched. apply has_rows_assign; [exact Hrows|].
    unfold salary, pair in *.
    repeat (apply Forall_cons; split; [cbn [snd]; rewrite !length_fmap; congruence|]).
    constructor.
  - intros c Hc. unfold enriched. apply column_assign_other.
    repeat (apply Forall_cons; split; [cbn [fst]; intros <-; apply Hc; by_position|]).
    constructor.
  - intros c Hc. unfold DERIVED_COLUMNS in Hc.
    repeat (apply elem_of_cons in Hc as [->|Hc]);
      try (unfold enriched; cbn [foldl fst snd]; frame; eexists; reflexivity).
    inversion Hc.
Qed.

(** X11.  On such a table, whenever [transform] returns, the four
    salary columns are filled row by row: in every row they hold the
    answer of [parse_salary] to the salary cell of that row, with a
    missing bound stored as NaN. *)
Theorem transform_salary_columns_row_by_row df n run_id chunk_idx out trace :
  has_rows (S n) df ->
  Forall (fun c => c ∈ df.*1) REQUIRED_COLUMNS ->
  transform STRICT_SCHEMA df run_id chunk_idx = (Ok out, trace) ->
  exists sal mins maxs units notes,
    Frame.column (u "salary") df = Ok sal
    /\ Frame.column (u "min_salary") out = Ok mins
    /\ Frame.column (u "max_salary") out = Ok maxs
    /\ Frame.column (u "salary_unit") out = Ok units
    /\ Frame.column (u "salary_note") out = Ok notes
    /\ forall i v, sal !! i = Some v ->
         exists mn mx unit note,
           parse_salary v = Ok (mn, mx, unit, note)
           /\ mins !! i = Some (numeric_cell mn)
           /\ maxs !! i = Some (numeric_cell mx)
           /\ units !! i = Some (VStr unit)
           /\ notes !! i = Some (VStr note).
Proof.
  intros Hrows Hreq Ht.
  destruct (transform_rows df n run_id chunk_idx Hrows Hreq)
    as (sal & adr & ttl & parsed & joined & strs & groups & levels & trace0
        & [Hsal _] & _ & _ & Hparsed & _ & _ & _ & _ & Htr & _).
  rewrite Htr in Ht. injection Ht as <- <-.
  exists sal. do 4 eexists. split; [exact Hsal|].
  repeat (split; [unfold enriched; cbn [foldl fst snd]; frame; reflexivity|]).
  intros i v Hv.
  destruct (rmap_at _ _ _ _ _ Hparsed Hv) as ([[[mn mx] unit] note] & Hp & Hi).
  exists mn, mx, unit, note. split; [exact Hp|].
  unfold salary in *. rewrite !list_lookup_fmap, Hi. repeat split; reflexivity.
Qed.

(** X12.  On such a table, whenever [transform] returns, the three
    address columns are filled row by row: city and district hold the
    answer of [split_address_joined] (with [dedupe] and without
    [max_pairs]) to the address cell of the row, and the pairs column
    holds the answer of [format_pairs]; a component that is [None] is
    stored as a missing value. *)
Theorem transform_address_columns_row_by_row df n run_id chunk_idx out trace :
  has_rows (S n) df ->
  Forall (fun c => c ∈ df.*1) REQUIRED_COLUMNS ->
  transform STRICT_SCHEMA df run_id chunk_idx = (Ok out, trace) ->
  exists adr cities dists strs,
    Frame.column (u "address") df = Ok adr
    /\ Frame.column (u "city") out = Ok cities
    /\ Frame.column (u "district") out = Ok dists
    /\ Frame.column (u "city_district_pairs_str") out = Ok strs
    /\ forall i v, adr !! i = Some v ->
         exists c d s,
           split_address_joined v None true = Ok (c, d)
           /\ format_pairs v = Ok s
           /\ cities !! i = Some (Frame.of_str c)
           /\ dists !! i = Some (Frame.of_str d)
           /\ strs !! i = Some (Frame.of_str s).
Proof.
  intros Hrows Hreq Ht.
  destruct (transform_rows df n run_id chunk_idx Hrows Hreq)
    as (sal & adr & ttl & parsed & joined & strs & groups & levels & trace0
        & _ & [Hadr _] & _ & _ & Hjoined & Hstrs & _ & _ & Htr & _).
  rewrite Htr in Ht. injection Ht as <- <-.
  exists adr. do 3 eexists. split; [exact Hadr|].
  repeat (split; [unfold enriched; cbn [foldl fst snd]; frame; reflexivity|]).
  intros i v Hv.
  destruct (rmap_at _ _ _ _ _ Hjoined Hv) as ([c d] & Hj & Hi).
  destruct (rmap_at _ _ _ _ _ Hstrs Hv) as (s & Hs & Hk).
  exists c, d, s. split; [exact Hj|]. split; [exact Hs|].
  unfold pair in *. rewrite !list_lookup_fmap, Hi, Hk. repeat split; reflexivity.
Qed.

(** X13.  On such a table, whenever [transform] returns, the three job
    columns are filled row by row: the group and the seniority are the
    answers of [_job_group] and [_job_seniority] to the title cell of the
    row, and the big group is the entry of [collapse_map] for the group,
    which exists and is one of the 8 buckets or "other": the default of
    [fillna] is not used. *)
Theorem transform_job_columns_row_by_row df n run_id chunk_idx out trace :
  has_rows (S n) df ->
  Forall (fun c => c ∈ df.*1) REQUIRED_COLUMNS ->
  transform STRICT_SCHEMA df run_id chunk_idx = (Ok out, trace) ->
  exists ttl groups levels bigs,
    Frame.column (u "job_title") df = Ok ttl
    /\ Frame.column (u "job_title_group") out = Ok groups
    /\ Frame.column (u "job_seniority") out = Ok levels
    /\ Frame.column (u "job_title_group_big") out = Ok bigs
    /\ forall i v, ttl !! i = Some v ->
         exists g lvl big,
           _job_group v = Ok g /\ _job_seniority v = Ok lvl
           /\ collapse_map !! g = Some big /\ big ∈ COARSE_BUCKETS
           /\ groups !! i = Some (VStr g)
           /\ levels !! i = Some (VStr lvl)
           /\ bigs !! i = Some (VStr big).
Proof.
  intros Hrows Hreq Ht.
  destruct (transform_rows df n run_id chunk_idx Hrows Hreq)
    as (sal & adr & ttl & parsed & joined & strs & groups & levels & trace0
        & _ & _ & [Httl _] & _ & _ & _ & Hgroups & Hlevels & Htr & _).
  rewrite Htr in Ht. injection Ht as <- <-.
  exists ttl. do 3 eexists. split; [exact Httl|].
  repeat (split; [unfold enriched; cbn [foldl fst snd]; frame; reflexivity|]).
  intros i v Hv.
  destruct (rmap_at _ _ _ _ _ Hgroups Hv) as (g & Hg & Hi).
  destruct (rmap_at _ _ _ _ _ Hlevels Hv) as (lvl & Hl & Hk).
  destruct (JobContract._job_group_range v) as (g' & Hg' & Hin).
  rewrite Hg in Hg'. injection Hg' as <-.
  apply list_elem_of_In in Hin.
  pose proof (proj1 (forallb_forall _ _) JobContract.collapse_keys g Hin) as Hb.
  cbv beta in Hb. destruct (collapse_map !! g) as [big|] eqn:Hbig; [|discriminate].
  apply bool_decide_eq_true in Hb.
  exists g, lvl, big. split; [exact Hg|]. split; [exact Hl|].
  split; [exact Hbig|]. split; [exact Hb|].
  rewrite !list_lookup_fmap, Hi, Hk. cbn [fmap option_fmap option_map].
  rewrite Hbig. repeat split; reflexivity.
Qed.

(** X14.  A table that passes the schema check and has a salary column
    without rows is not transformed: unpacking the transposed answers into
    four columns raises [ValueError], the error is logged, the table is
    written to quarantine as it was, and the error is raised again. *)
Theorem transform_quarantines_table_without_rows df run_id chunk_idx :
  _validate_schema STRICT_SCHEMA df = Ok () ->
  Frame.column (u "salary") df = Ok [] ->
  exists msg,
    transform STRICT_SCHEMA df run_id chunk_idx
    = (Raise (ValueError msg),
       [Logged chunk_idx (ValueError msg);
        Quarantined df (ValueError msg) run_id chunk_idx]).
Proof.
  intros Hv Hsal. unfold transform. rewrite Hv.
  unfold enrich, mbind, M_bind, Step.out, Step.lift. cbn [fst snd].
  rewrite (column_has _ _ _ Hsal), Hsal.
  cbn [Step.apply mret M_ret Frame.unzip4 app]. eexists. reflexivity.
Qed.

End Strict.

End Extras.

#[local] Existing Instance Latin.runtime.

Lemma ONE_ROW_shape :
  has_rows 1 ONE_ROW /\ Forall (fun c => c ∈ ONE_ROW.*1) REQUIRED_COLUMNS.
Proof.
  split; [split|].
  - refine (bool_decide_unpack _ _). vm_compute. exact I.
  - repeat constructor.
  - repeat constructor; by_position.
Qed.

Lemma ONE_ROW_titles :
  exists ttl, Frame.column (u "job_title") ONE_ROW = Ok ttl
              /\ Forall (fun v => exists s, v = VStr s) ttl.
Proof.
  eexists. split; [vm_compute; reflexivity|].
  repeat constructor. eexists. reflexivity.
Qed.

Lemma ONE_ROW_transformed i :
  exists tdf trace, transform true ONE_ROW (u "na") i = (Ok tdf, trace).
Proof.
  destruct (transform_rows true ONE_ROW 0 (u "na") i
              (proj1 ONE_ROW_shape) (proj2 ONE_ROW_shape))
    as (sal & adr & ttl & parsed & joined & strs & groups & levels & trace & H).
  do 2 eexists. apply H.
Qed.

(** X10, at a table of one row. *)
Lemma transform_keeps_rows_and_columns_witness :
  exists out trace,
    transform true ONE_ROW (u "na") 0 = (Ok out, trace)
    /\ has_rows 1 out
    /\ (forall c, c ∉ DERIVED_COLUMNS -> Frame.column c out = Frame.column c ONE_ROW)
    /\ (forall c, c ∈ DERIVED_COLUMNS ->
          exists cells, Frame.column c out = Ok cells)
    /\ Forall (fun ev => exists fn v, ev = Enriched fn v) trace.
Proof.
  destruct (transform_keeps_rows_and_columns (RT := Latin.runtime) true ONE_ROW 0
              (u "na") 0 (proj1 ONE_ROW_shape) (proj2 ONE_ROW_shape))
    as [Hshape Hreturns].
  destruct (Hreturns ONE_ROW_titles) as (out & trace & Ht).
  exists out, trace. split; [exact Ht|exact (Hshape out trace Ht)].
Defined.

(** X11, at a table of one row. *)
Lemma transform_salary_columns_row_by_row_witness :
  exists out trace sal mins maxs units notes,
    transform true ONE_ROW (u "na") 0 = (Ok out, trace)
    /\ Frame.column (u "salary") ONE_ROW = Ok sal
    /\ Frame.column (u "min_salary") out = Ok mins
    /\ Frame.column (u "max_salary") out = Ok maxs
    /\ Frame.column (u "salary_unit") out = Ok units
    /\ Frame.column (u "salary_note") out = Ok notes
    /\ forall i v, sal !! i = Some v ->
         exists mn mx unit note,
           parse_salary v = Ok (mn, mx, unit, note)
           /\ mins !! i = Some (numeric_cell mn)
           /\ maxs !! i = Some (numeric_cell mx)
           /\ units !! i = Some (VStr unit)
           /\ notes !! i = Some (VStr note).
Proof.
  destruct (ONE_ROW_transformed 0) as (out & trace & Ht).
  destruct (transform_salary_columns_row_by_row (RT := Latin.runtime) true ONE_ROW 0
              (u "na") 0 out trace (proj1 ONE_ROW_shape) (proj2 ONE_ROW_shape) Ht)
    as (sal & mins & maxs & units & notes & H).
  exists out, trace, sal, mins, maxs, units, notes. split; [exact Ht|exact H].
Defined.

(** X12, at a table of one row. *)
Lemma transform_address_columns_row_by_row_witness :
  exists out trace adr cities dists strs,
    transform true ONE_ROW (u "na") 0 = (Ok out, trace)
    /\ Frame.column (u "address") ONE_ROW = Ok adr
    /\ Frame.column (u "city") out = Ok cities
    /\ Frame.column (u "district") out = Ok dists
    /\ Frame.column (u "city_district_pairs_str") out = Ok strs
    /\ forall i v, adr !! i = Some v ->
         exists c d s,
           split_address_joined v None true = Ok (c, d)
           /\ format_pairs v = Ok s
           /\ cities !! i = Some (Frame.of_str c)
           /\ dists !! i = Some (Frame.of_str d)
           /\ strs !! i = Some (Frame.of_str s).
Proof.
  destruct (ONE_ROW_transformed 0) as (out & trace & Ht).
  destruct (transform_address_columns_row_by_row (RT := Latin.runtime) true ONE_ROW 0
              (u "na") 0 out trace (proj1 ONE_ROW_shape) (proj2 ONE_ROW_shape) Ht)
    as (adr & cities & dists & strs & H).
  exists out, trace, adr, cities, dists, strs. split; [exact Ht|exact H].
Defined.

(** X13, at a table of one row. *)
Lemma transform_job_columns_row_by_row_witness :
  exists out trace ttl groups levels bigs,
    transform true ONE_ROW (u "na") 0 = (Ok out, trace)
    /\ Frame.column (u "job_title") ONE_ROW = Ok ttl
    /\ Frame.column (u "job_title_group") out = Ok groups
    /\ Frame.column (u "job_seniority") out = Ok levels
    /\ Frame.column (u "job_title_group_big") out = Ok bigs
    /\ forall i v, ttl !! i = Some v ->
         exists g lvl big,
           _job_group v = Ok g /\ _job_seniority v = Ok lvl
           /\ collapse_map !! g = Some big /\ big ∈ COARSE_BUCKETS
           /\ groups !! i = Some (VStr g)
           /\ levels !! i = Some (VStr lvl)
           /\ bigs !! i = Some (VStr big).
Proof.
  destruct (ONE_ROW_transformed 0) as (out & trace & Ht).
  destruct (transform_job_columns_row_by_row (RT := Latin.runtime) true ONE_ROW 0
              (u "na") 0 out trace (proj1 ONE_ROW_shape) (proj2 ONE_ROW_shape) Ht)
    as (ttl & groups & levels & bigs & H).
  exists out, trace, ttl, groups, levels, bigs. split; [exact Ht|exact H].
Defined.

(** X14, at a table with the three columns and no row. *)
Lemma transform_quarantines_table_without_rows_witness :
  exists msg,
    transform true NO_ROWS (u "na") 1
    = (Raise (ValueError msg),
       [Logged 1 (ValueError msg); Quarantined NO_ROWS (ValueError msg) (u "na") 1]).
Proof.
  apply (transform_quarantines_table_without_rows (RT := Latin.runtime) true
           NO_ROWS (u "na") 1); vm_compute; reflexivity.
Defined.

End TransformExtras.

(* ===================================================================== *)
(** ** The pipeline: what chunk failures can and cannot do *)
(* ===================================================================== *)

Module PipelineExtras.
Import FrameFacts TransformExtras.

Section Run.
Context {RT : Runtime}.
Variable STRICT_SCHEMA : bool.
Variable run_id : str.
Variable DB : Type.
Variable get_engine : io unit.
Variable connect : DB -> io unit.
Variable create_table : DB -> DB * io unit.
Variable upsert : DataFrame -> DB -> DB * io unit.

#[local] Abbreviation safe_upsert := (_safe_upsert DB upsert).
#[local] Abbreviation chunk := (run_chunk STRICT_SCHEMA run_id DB upsert).
#[local] Abbreviation chunks := (run_chunks STRICT_SCHEMA run_id DB upsert).
#[local] Abbreviation run :=
  (run_pipeline STRICT_SCHEMA run_id DB get_engine connect create_table upsert).

(** *** The retry *)

Lemma retry_upsert_shape left df db :
  exists db' r attempts,
    retry_upsert DB upsert left df db = (db', r, attempts)
    /\ (length attempts <= left)%nat
    /\ Forall (fun a => failed a = true) (removelast attempts)
    /\ match r with
       | Done _ => last attempts = Some (Done ())
       | Failed e =>
         e = RetryError /\ length attempts = left
         /\ Forall (fun a => failed a = true) attempts
       end.
Proof.
  revert db. induction left as [|left IH]; intros db; cbn [retry_upsert].
  - exists db, (Failed RetryError), []. repeat split; auto; constructor.
  - destruct (upsert df db) as [db1 [[]|e1]].
    + exists db1, (Done ()), [Done ()]. cbn. repeat split; auto; lia.
    + destruct (IH db1) as (db' & r & attempts & -> & Hlen & Hinit & Hr).
      exists db', r, (Failed e1 :: attempts). split; [reflexivity|].
      split; [cbn; lia|]. split.
      * destruct attempts as [|a attempts]; [constructor|].
        cbn [removelast]. constructor; [reflexivity|exact Hinit].
      * destruct r as [[]|e].
        -- destruct attempts as [|a attempts]; [discriminate Hr|].
           rewrite last_cons, Hr. reflexivity.
        -- destruct Hr as (-> & <- & Hall). repeat split; auto.
Qed.

(** *** The loop *)

Lemma chunk_lines_app a b : chunk_lines (a ++ b) = chunk_lines a ++ chunk_lines b.
Proof. unfold chunk_lines. apply omap_app. Qed.

Lemma run_chunk_lines i df db :
  chunk_lines (chunk i df db).2 = [(i, df_len df)].
Proof.
  unfold run_chunk. destruct (df_empty df); [reflexivity|].
  destruct (transform _ _ _ _) as [[tdf|e] trace]; [|reflexivity].
  destruct (safe_upsert tdf db) as [[db' r] attempts]. destruct r; reflexivity.
Qed.

Lemma run_chunk_finished i df db : Log LogFinished ∉ (chunk i df db).2.
Proof.
  unfold run_chunk. destruct (df_empty df).
  { cbn. intros H. repeat (apply elem_of_cons in H as [H|H]; [discriminate H|]). inversion H. }
  destruct (transform _ _ _ _) as [[tdf|e] trace].
  - destruct (safe_upsert tdf db) as [[db' r] attempts]. cbn. intros H.
    repeat (apply elem_of_cons in H as [H|H]; [destruct r; discriminate H|]). inversion H.
  - cbn. intros H.
    repeat (apply elem_of_cons in H as [H|H]; [discriminate H|]). inversion H.
Qed.

Lemma run_chunk_load i df db j tdf attempts :
  Load j tdf attempts ∈ (chunk i df db).2 ->
  j = i /\ df_empty df = false
  /\ (exists trace, transform STRICT_SCHEMA df run_id i = (Ok tdf, trace))
  /\ exists db0, (safe_upsert tdf db0).2 = attempts.
Proof.
  unfold run_chunk. destruct (df_empty df) eqn:He.
  { cbn. intros H. repeat (apply elem_of_cons in H as [H|H]; [discriminate H|]). inversion H. }
  destruct (transform _ _ _ _) as [[out|e] trace] eqn:Ht.
  - destruct (safe_upsert out db) as [[db' r] atts] eqn:Hs. cbn [snd]. intros H.
    apply elem_of_cons in H as [H|H]; [discriminate H|].
    apply elem_of_cons in H as [H|H]; [discriminate H|].
    apply elem_of_cons in H as [H|H].
    + injection H as -> -> ->. split; [reflexivity|]. split; [reflexivity|].
      split; [exists trace; reflexivity|]. exists db. rewrite Hs. reflexivity.
    + apply elem_of_cons in H as [H|H]; [destruct r; discriminate H|]. inversion H.
  - cbn. intros H.
    repeat (apply elem_of_cons in H as [H|H]; [discriminate H|]). inversion H.
Qed.

Lemma run_chunk_loads i df db tdf trace :
  df_empty df = false ->
  transform STRICT_SCHEMA df run_id i = (Ok tdf, trace) ->
  exists attempts, Load i tdf attempts ∈ (chunk i df db).2.
Proof.
  intros He Ht. unfold run_chunk. rewrite He, Ht.
  destruct (safe_upsert tdf db) as [[db' r] atts]. exists atts. cbn.
  do 2 apply list_elem_of_further. apply list_elem_of_here.
Qed.

Lemma run_chunks_spec g : forall i db,
  exists db' evs,
    chunks g i db
    = (db', match thrown g with None => Done () | Some e => Failed e end, evs)
    /\ chunk_lines evs
       = imap (fun k df => ((i + Z.of_nat k)%Z, df_len df)) (yields g)
    /\ Log LogFinished ∉ evs.
Proof.
  induction g as [df rest IH|l rest IH| |e]; intros i db; cbn [run_chunks thrown yields].
  - destruct (chunk i df db) as [db1 here] eqn:Hc.
    destruct (IH (i + 1)%Z db1) as (db' & evs & -> & Hlines & Hfin).
    exists db', (here ++ evs). split; [reflexivity|]. split.
    + rewrite chunk_lines_app, Hlines.
      pose proof (run_chunk_lines i df db) as Hl. rewrite Hc in Hl. cbn [snd] in Hl.
      rewrite Hl. cbn [imap app]. f_equal; [f_equal; lia|].
      apply imap_ext. intros k x _. cbn. f_equal. lia.
    + intros H. apply elem_of_app in H as [H|H]; [|exact (Hfin H)].
      pose proof (run_chunk_finished i df db) as Hn. rewrite Hc in Hn. exact (Hn H).
  - destruct (IH i db) as (db' & evs & -> & Hlines & Hfin).
    exists db', (Log (LogCsv l) :: evs). split; [reflexivity|]. split.
    + exact Hlines.
    + intros H. apply elem_of_cons in H as [H|H]; [discriminate H|exact (Hfin H)].
  - exists db, []. repeat split. apply not_elem_of_nil.
  - exists db, []. repeat split. apply not_elem_of_nil.
Qed.

Lemma run_chunks_load g : forall i db j tdf attempts,
  Load j tdf attempts ∈ (chunks g i db).2 ->
  exists k df trace,
    yields g !! k = Some df /\ j = (i + Z.of_nat k)%Z
    /\ df_empty df = false
    /\ transform STRICT_SCHEMA df run_id j = (Ok tdf, trace)
    /\ exists db0, (safe_upsert tdf db0).2 = attempts.
Proof.
  induction g as [df rest IH|l rest IH| |e]; intros i db j tdf attempts;
    cbn [run_chunks yields].
  - destruct (chunk i df db) as [db1 here] eqn:Hc.
    destruct (chunks rest (i + 1)%Z db1) as [[db' r] evs] eqn:Hr. cbn [snd].
    intros H. apply elem_of_app in H as [H|H].
    + pose proof (run_chunk_load i df db j tdf attempts) as Hl.
      rewrite Hc in Hl. destruct (Hl H) as (-> & He & [trace Ht] & Hs).
      exists 0%nat, df, trace. repeat split; auto. lia.
    + destruct (IH (i + 1)%Z db1 j tdf attempts) as (k & df' & trace & Hk & -> & Hrest).
      { rewrite Hr. exact H. }
      exists (S k), df', trace. split; [exact Hk|]. split; [lia|exact Hrest].
  - destruct (chunks rest i db) as [[db' r] evs] eqn:Hr. cbn [snd].
    intros H. apply elem_of_cons in H as [H|H]; [discriminate H|].
    apply (IH i db). rewrite Hr. exact H.
  - cbn. intros H. inversion H.
  - cbn. intros H. inversion H.
Qed.

Lemma run_chunks_loads g : forall i db k df tdf trace,
  yields g !! k = Some df ->
  df_empty df = false ->
  transform STRICT_SCHEMA df run_id (i + Z.of_nat k) = (Ok tdf, trace) ->
  exists attempts, Load (i + Z.of_nat k) tdf attempts ∈ (chunks g i db).2.
Proof.
  induction g as [df0 rest IH|l rest IH| |e]; intros i db k df tdf trace;
    cbn [run_chunks yields].
  - destruct (chunk i df0 db) as [db1 here] eqn:Hc.
    destruct (chunks rest (i + 1)%Z db1) as [[db' r] evs] eqn:Hr. cbn [snd].
    destruct k as [|k]; intros Hk He Ht; cbn [lookup list_lookup] in Hk.
    + injection Hk as ->. replace (i + Z.of_nat 0)%Z with i in * by lia.
      destruct (run_chunk_loads i df db tdf trace He Ht) as [atts Ha].
      rewrite Hc in Ha. exists atts. apply elem_of_app. left. exact Ha.
    + replace (i + Z.of_nat (S k))%Z with (i + 1 + Z.of_nat k)%Z in * by lia.
      destruct (IH (i + 1)%Z db1 k df tdf trace Hk He Ht) as [atts Ha].
      rewrite Hr in Ha. exists atts. apply elem_of_app. right. exact Ha.
  - destruct (chunks rest i db) as [[db' r] evs] eqn:Hr. cbn [snd].
    intros Hk He Ht. destruct (IH i db k df tdf trace Hk He Ht) as [atts Ha].
    rewrite Hr in Ha. exists atts. apply list_elem_of_further. exact Ha.
  - intros Hk. discriminate Hk.
  - intros Hk. discriminate Hk.
Qed.

Lemma run_events g db :
  (run g db).2 = [Log (LogStarted run_id)]
  \/ (run g db).2 = [Log (LogStarted run_id); Log LogDbDown]
  \/ exists db1 tail,
       (run g db).2 = Log (LogStarted run_id) :: (chunks g 1 db1).2 ++ tail
       /\ (tail = [] \/ tail = [Log LogFinished]).
Proof.
  unfold run_pipeline. destruct get_engine as [[]|e]; [|auto].
  destruct (connect db) as [[]|e]; [|destruct e; auto].
  destruct (create_table db) as [db1 [[]|e]]; [|auto].
  right. right. exists db1.
  destruct (chunks g 1 db1) as [[db2 r] evs]. cbn [snd].
  eexists. split; [reflexivity|]. destruct r; auto.
Qed.

Lemma run_load g db j tdf attempts :
  Load j tdf attempts ∈ (run g db).2 ->
  exists db1, Load j tdf attempts ∈ (chunks g 1 db1).2.
Proof.
  destruct (run_events g db) as [->|[->|(db1 & tail & -> & Htail)]]; intros H.
  - apply elem_of_cons in H as [H|H]; [discriminate H|inversion H].
  - repeat (apply elem_of_cons in H as [H|H]; [discriminate H|]). inversion H.
  - exists db1. apply elem_of_cons in H as [H|H]; [discriminate H|].
    apply elem_of_app in H as [H|H]; [exact H|].
    destruct Htail as [->| ->]; [inversion H|].
    apply elem_of_cons in H as [H|H]; [discriminate H|inversion H].
Qed.

(** X15.  Once the database answered the preflight and the table
    exists, the result of a run depends only on how the reading of the
    file ended: the run returns normally and logs [ETL finished] last
    when the generator ended, and raises the generator's exception,
    without that line, when it threw.  Nothing [transform] or [upsert]
    does changes this, and every table the generator yielded is visited:
    the [Chunk i: rows=n] lines are those of the yielded tables, numbered
    from 1 in order. *)
Theorem run_pipeline_outcome_is_that_of_the_reading g db db1 :
  get_engine = Done () ->
  connect db = Done () ->
  create_table db = (db1, Done ()) ->
  exists db' evs,
    run g db
    = (db',
       match thrown g with None => Done () | Some e => Failed e end,
       Log (LogStarted run_id)
       :: evs ++ match thrown g with None => [Log LogFinished] | Some _ => [] end)
    /\ chunk_lines evs
       = imap (fun k df => ((1 + Z.of_nat k)%Z, df_len df)) (yields g)
    /\ Log LogFinished ∉ evs.
Proof.
  intros Hg Hc Ht. unfold run_pipeline. rewrite Hg, Hc, Ht.
  destruct (run_chunks_spec g 1 db1) as (db' & evs & -> & Hlines & Hfin).
  exists db', evs. split; [|split; [exact Hlines|exact Hfin]].
  destruct (thrown g); reflexivity.
Qed.

(** X16.  A table is handed to the database only for a chunk that was
    not empty and that [transform] answered without an exception: every
    [Load] of a run carries the number of a yielded chunk, that chunk has
    rows, the loaded table is the answer of [transform] to it (with the
    run's id and the chunk's number), and the attempts are those of one
    call of [_safe_upsert] on that table. *)
Theorem run_pipeline_loads_only_transformed_chunks g db j tdf attempts :
  Load j tdf attempts ∈ (run g db).2 ->
  exists k df trace,
    yields g !! k = Some df /\ j = (1 + Z.of_nat k)%Z
    /\ df_empty df = false
    /\ transform STRICT_SCHEMA df run_id j = (Ok tdf, trace)
    /\ exists db0, (safe_upsert tdf db0).2 = attempts.
Proof.
  intros H. destruct (run_load g db j tdf attempts H) as [db1 H1].
  exact (run_chunks_load g 1 db1 j tdf attempts H1).
Qed.

(** X17.  No good chunk is lost: after the preflight, every yielded
    chunk that has rows and that [transform] answers is handed to the
    database, whatever happened to the chunks before it (an exception of
    [transform], a load that failed three times) and however the reading
    ends after it. *)
Theorem run_pipeline_loads_every_transformed_chunk g db db1 k df tdf trace :
  get_engine = Done () ->
  connect db = Done () ->
  create_table db = (db1, Done ()) ->
  yields g !! k = Some df ->
  df_empty df = false ->
  transform STRICT_SCHEMA df run_id (1 + Z.of_nat k) = (Ok tdf, trace) ->
  exists attempts, Load (1 + Z.of_nat k) tdf attempts ∈ (run g db).2.
Proof.
  intros Hg Hc Hcreate Hk He Ht.
  destruct (run_chunks_loads g 1 db1 k df tdf trace Hk He Ht) as [atts Ha].
  exists atts. unfold run_pipeline. rewrite Hg, Hc, Hcreate.
  destruct (chunks g 1 db1) as [[db2 r] evs]. cbn [snd] in Ha |- *.
  apply list_elem_of_further. apply elem_of_app. left. exact Ha.
Qed.

(** X18.  [_safe_upsert] calls [upsert] at least once and at most three
    times, and stops at the first call that returns: every attempt but
    the last raised; it returns when the last attempt returned, and
    raises [RetryError] exactly when all three attempts raised. *)
Theorem safe_upsert_three_attempts df db :
  exists db' r attempts,
    safe_upsert df db = (db', r, attempts)
    /\ (1 <= length attempts <= 3)%nat
    /\ Forall (fun a => failed a = true) (removelast attempts)
    /\ match r with
       | Done _ => last attempts = Some (Done ())
       | Failed e =>
         e = RetryError /\ length attempts = 3%nat
         /\ Forall (fun a => failed a = true) attempts
       end.
Proof.
  destruct (retry_upsert_shape 3 df db) as (db' & r & attempts & Hs & Hlen & Hinit & Hr).
  exists db', r, attempts. split; [exact Hs|]. split; [|split; [exact Hinit|exact Hr]].
  split; [|exact Hlen].
  destruct attempts as [|a attempts]; [|cbn; lia].
  destruct r as [[]|e]; [discriminate Hr|]. destruct Hr as (_ & Hl & _). discriminate Hl.
Qed.

(** *** Strict mode *)

Lemma strict_has_required df i tdf trace :
  transform true df run_id i = (Ok tdf, trace) ->
  Forall (fun c => c ∈ df.*1) REQUIRED_COLUMNS.
Proof.
  unfold transform, _validate_schema. cbn [negb].
  destruct (filter _ REQUIRED_COLUMNS) as [|m ms] eqn:Hf; [|discriminate].
  intros _. apply Forall_forall. intros c Hc.
  destruct (decide (c ∈ df.*1)) as [Hin|Hout]; [exact Hin|].
  destruct (filter_nil_not_elem_of _ _ c Hf Hout Hc).
Qed.

Lemma has_rows_len n d : has_rows n d -> d <> [] -> df_len d = n.
Proof.
  intros [_ Hlen] Hd. destruct d as [|[k v] d]; [congruence|].
  apply Forall_cons in Hlen as [Hk _]. exact Hk.
Qed.

Lemma transform_table df n i tdf trace :
  has_rows (S n) df ->
  Forall (fun c => c ∈ df.*1) REQUIRED_COLUMNS ->
  transform STRICT_SCHEMA df run_id i = (Ok tdf, trace) ->
  has_rows (S n) tdf
  /\ Forall (fun c => Frame.has_column c tdf = true)
       (REQUIRED_COLUMNS ++ DERIVED_COLUMNS).
Proof.
  intros Hrows Hreq Ht.
  destruct (transform_rows STRICT_SCHEMA df n run_id i Hrows Hreq)
    as (sal & adr & ttl & parsed & joined & strs & groups & levels & trace'
        & [Hsal Lsal] & [Hadr Ladr] & [Httl Lttl]
        & Hparsed & Hjoined & Hstrs & Hgroups & Hlevels & Htr & _).
  rewrite Htr in Ht. injection Ht as <- _.
  apply rmap_length in Hparsed, Hjoined, Hstrs, Hgroups, Hlevels.
  split.
  - unfold enriched. apply has_rows_assign; [exact Hrows|].
    unfold salary, pair in *.
    repeat (apply Forall_cons; split; [cbn [snd]; rewrite !length_fmap; congruence|]).
    constructor.
  - apply column_has in Hsal, Hadr, Httl.
    unfold REQUIRED_COLUMNS, DERIVED_COLUMNS. cbn [app].
    repeat (apply Forall_cons; split;
            [unfold enriched; cbn [foldl fst snd]; frame; auto|]).
    constructor.
Qed.

(** X19.  In strict mode the database only sees complete tables: when
    every yielded table has distinct column names and columns of one
    length, each loaded table has as many rows as its chunk, at least
    one, and holds the three required and the ten derived columns.  So
    the [Loaded chunk i: rows=n] line repeats the count of the
    [Chunk i] line, and [upsert] is never called on an empty table. *)
Theorem strict_run_loads_complete_tables g db j tdf attempts :
  STRICT_SCHEMA = true ->
  Forall (fun df => has_rows (df_len df) df) (yields g) ->
  Load j tdf attempts ∈ (run g db).2 ->
  exists k df,
    yields g !! k = Some df /\ j = (1 + Z.of_nat k)%Z
    /\ has_rows (df_len df) tdf
    /\ df_len tdf = df_len df
    /\ df_empty tdf = false
    /\ Forall (fun c => Frame.has_column c tdf = true)
         (REQUIRED_COLUMNS ++ DERIVED_COLUMNS).
Proof.
  intros Hstrict Hshape H.
  destruct (run_load g db j tdf attempts H) as [db1 H1].
  destruct (run_chunks_load g 1 db1 j tdf attempts H1)
    as (k & df & trace & Hk & Hj & He & Ht & _).
  exists k, df. split; [exact Hk|]. split; [exact Hj|].
  pose proof (proj1 (Forall_lookup _ _) Hshape k df Hk) as Hrows.
  cbv beta in Hrows. unfold df_empty in He. apply Nat.eqb_neq in He.
  destruct (df_len df) as [|n]; [congruence|].
  assert (Hreq : Forall (fun c => c ∈ df.*1) REQUIRED_COLUMNS).
  { rewrite Hstrict in Ht. exact (strict_has_required df j tdf trace Ht). }
  destruct (transform_table df n j tdf trace Hrows Hreq Ht) as [Hout Hcols].
  assert (Hlen : df_len tdf = S n).
  { apply has_rows_len; [exact Hout|]. intros ->.
    apply Forall_cons in Hcols as [Hc _]. discriminate Hc. }
  split; [exact Hout|]. split; [exact Hlen|]. split; [|exact Hcols].
  unfold df_empty. rewrite Hlen. reflexivity.
Qed.

(** X20.  An empty CSV file ends the run normally.  Whether the file is
    read at once or in chunks, [EmptyDataError] is logged and answered
    with one table without columns; the run logs that chunk with no
    rows, skips it, and finishes: [transform] is not called, nothing is
    quarantined, and the database is left as [create_table] left it. *)
Theorem empty_csv_run_finishes_without_work CHUNKSIZE read_csv read_csv_chunks db db1 :
  read_csv = Failed EmptyDataError ->
  read_csv_chunks = Broken EmptyDataError ->
  get_engine = Done () ->
  connect db = Done () ->
  create_table db = (db1, Done ()) ->
  run (extract CHUNKSIZE read_csv read_csv_chunks) db
  = (db1, Done (),
     [Log (LogStarted run_id); Log (LogCsv CsvEmpty); Log (LogChunk 1 0);
      Log LogFinished]).
Proof.
  intros -> -> Hg Hc Ht. unfold run_pipeline. rewrite Hg, Hc, Ht.
  unfold extract. destruct (match CHUNKSIZE with Some _ => _ | None => _ end); reflexivity.
Qed.

End Run.

(** *** A run on a reading that breaks, with a database whose first
    [upsert] fails *)

#[local] Existing Instance Latin.runtime.

#[local] Abbreviation example_run :=
  (run_pipeline true (u "na") nat ready_engine ready_connect ready_create_table
     (flaky_upsert 1) BROKEN_READING 0%nat).

Lemma NO_ROWS_shape : has_rows 0 NO_ROWS.
Proof.
  split.
  - refine (bool_decide_unpack _ _). vm_compute. exact I.
  - repeat constructor.
Qed.

Lemma BROKEN_READING_shape :
  Forall (fun df => has_rows (df_len df) df) (yields BROKEN_READING).
Proof.
  change (yields BROKEN_READING) with [NO_ROWS; ONE_ROW].
  repeat (apply Forall_cons; split); [exact NO_ROWS_shape| |constructor].
  exact (proj1 ONE_ROW_shape).
Qed.

Lemma example_run_load : exists tdf attempts, Load 2 tdf attempts ∈ example_run.2.
Proof.
  destruct (ONE_ROW_transformed 2) as (tdf & trace & Ht).
  destruct (run_chunks_loads true (u "na") nat (flaky_upsert 1) BROKEN_READING 1 0%nat
              1 ONE_ROW tdf trace eq_refl eq_refl Ht) as [atts Ha].
  exists tdf, atts. unfold run_pipeline, ready_engine, ready_connect, ready_create_table.
  destruct (run_chunks _ _ _ _ _ _ _) as [[db2 r] evs]. cbn [snd] in Ha |- *.
  apply list_elem_of_further. apply elem_of_app. left. exact Ha.
Qed.

(** X15, at that run: the encoding error ends it after both chunks were
    visited. *)
Lemma run_pipeline_outcome_is_that_of_the_reading_witness :
  exists db' evs,
    example_run = (db', Failed UnicodeDecodeError, Log (LogStarted (u "na")) :: evs ++ [])
    /\ chunk_lines evs = [(1%Z, 0%nat); (2%Z, 1%nat)]
    /\ Log LogFinished ∉ evs.
Proof.
  exact (run_pipeline_outcome_is_that_of_the_reading true (u "na") nat ready_engine
           ready_connect ready_create_table (flaky_upsert 1) BROKEN_READING 0%nat 0%nat
           eq_refl eq_refl eq_refl).
Defined.

(** X16, at that run. *)
Lemma run_pipeline_loads_only_transformed_chunks_witness :
  exists tdf attempts k df trace,
    Load 2 tdf attempts ∈ example_run.2
    /\ yields BROKEN_READING !! k = Some df /\ 2%Z = (1 + Z.of_nat k)%Z
    /\ df_empty df = false
    /\ transform true df (u "na") 2 = (Ok tdf, trace)
    /\ exists db0, (_safe_upsert nat (flaky_upsert 1) tdf db0).2 = attempts.
Proof.
  destruct example_run_load as (tdf & attempts & H).
  destruct (run_pipeline_loads_only_transformed_chunks true (u "na") nat ready_engine
              ready_connect ready_create_table (flaky_upsert 1) BROKEN_READING 0%nat
              2 tdf attempts H) as (k & df & trace & Hrest).
  exists tdf, attempts, k, df, trace. split; [exact H|exact Hrest].
Defined.

(** X17, at that run: the second chunk is loaded although the reading
    breaks after it. *)
Lemma run_pipeline_loads_every_transformed_chunk_witness :
  exists tdf attempts, Load 2 tdf attempts ∈ example_run.2.
Proof.
  destruct (ONE_ROW_transformed (1 + Z.of_nat 1)) as (tdf & trace & Ht).
  destruct (run_pipeline_loads_every_transformed_chunk true (u "na") nat ready_engine
              ready_connect ready_create_table (flaky_upsert 1) BROKEN_READING 0%nat
              0%nat 1 ONE_ROW tdf trace eq_refl eq_refl eq_refl eq_refl eq_refl Ht)
    as [attempts H].
  exists tdf, attempts. exact H.
Defined.

(** X19, at that run. *)
Lemma strict_run_loads_complete_tables_witness :
  exists tdf attempts k df,
    Load 2 tdf attempts ∈ example_run.2
    /\ yields BROKEN_READING !! k = Some df /\ 2%Z = (1 + Z.of_nat k)%Z
    /\ has_rows (df_len df) tdf
    /\ df_len tdf = df_len df
    /\ df_empty tdf = false
    /\ Forall (fun c => Frame.has_column c tdf = true)
         (REQUIRED_COLUMNS ++ DERIVED_COLUMNS).
Proof.
  destruct example_run_load as (tdf & attempts & H).
  destruct (strict_run_loads_complete_tables true (u "na") nat ready_engine
              ready_connect ready_create_table (flaky_upsert 1) BROKEN_READING 0%nat
              2 tdf attempts eq_refl BROKEN_READING_shape H) as (k & df & Hrest).
  exists tdf, attempts, k, df. split; [exact H|exact Hrest].
Defined.

(** X20, at a file read at once. *)
Lemma empty_csv_run_finishes_without_work_witness :
  run_pipeline true (u "na") nat ready_engine ready_connect ready_create_table
    (flaky_upsert 1)
    (extract None (Failed EmptyDataError) (Broken EmptyDataError)) 0%nat
  = (0%nat, Done (),
     [Log (LogStarted (u "na")); Log (LogCsv CsvEmpty); Log (LogChunk 1 0);
      Log LogFinished]).
Proof.
  exact (empty_csv_run_finishes_without_work true (u "na") nat ready_engine
           ready_connect ready_create_table (flaky_upsert 1) None
           (Failed EmptyDataError) (Broken EmptyDataError) 0%nat 0%nat
           eq_refl eq_refl eq_refl eq_refl eq_refl).
Defined.

End PipelineExtras.

(* ===================================================================== *)
(** ** The identifier of a row *)
(* ===================================================================== *)

Module LoadExtras.

Lemma bar_literal : u "|" = [0x7C].
Proof. vm_compute. reflexivity. Qed.

Lemma join_cons2 sep a b (r : list str) :
  Str.join sep (a :: b :: r) = a ++ sep ++ Str.join sep (b :: r).
Proof. reflexivity. Qed.

(** Two texts without [c] that are followed by [c] and agree as a whole
    agree part by part. *)
Lemma app_sep_inj (c : N) : forall a1 a2 x y : str,
  c ∉ a1 -> c ∉ a2 -> a1 ++ c :: x = a2 ++ c :: y -> a1 = a2 /\ x = y.
Proof.
  induction a1 as [|h1 a1 IH]; intros [|h2 a2] x y H1 H2 E; cbn in E.
  - injection E as ->. auto.
  - injection E as <- _. destruct H2. apply list_elem_of_here.
  - injection E as -> _. destruct H1. apply list_elem_of_here.
  - injection E as -> E. apply not_elem_of_cons in H1 as [_ H1].
    apply not_elem_of_cons in H2 as [_ H2].
    destruct (IH a2 x y H1 H2 E) as [-> ->]. auto.
Qed.

Lemma join_inj (c : N) : forall l1 l2 : list str,
  length l1 = length l2 ->
  Forall (fun s => c ∉ s) l1 -> Forall (fun s => c ∉ s) l2 ->
  Str.join [c] l1 = Str.join [c] l2 -> l1 = l2.
Proof.
  induction l1 as [|a1 l1 IH]; intros [|a2 l2] Hlen H1 H2 E;
    try discriminate Hlen; [reflexivity|].
  apply Forall_cons in H1 as [Ha1 H1]. apply Forall_cons in H2 as [Ha2 H2].
  destruct l1 as [|b1 l1], l2 as [|b2 l2]; try discriminate Hlen.
  - cbn in E. congruence.
  - rewrite !join_cons2 in E. cbn [app] in E.
    destruct (app_sep_inj c _ _ _ _ Ha1 Ha2 E) as [-> E'].
    f_equal. apply IH; auto.
Qed.

Section Key.
Context {RT : Runtime}.
Variable sha256_hexdigest : str -> str.

(** X21.  As long as none of the six texts of two rows contains a bar,
    the rows have the same key only if they agree on all six texts: the
    printed values of job_url, job_title, company, city, district and
    salary, a missing column counting as the empty text. *)
Theorem id_key_determines_texts_without_bar row1 row2 :
  Forall (fun s => 0x7C ∉ s) (id_texts row1) ->
  Forall (fun s => 0x7C ∉ s) (id_texts row2) ->
  id_key row1 = id_key row2 ->
  id_texts row1 = id_texts row2.
Proof.
  intros H1 H2 E. unfold id_key in E. rewrite bar_literal in E.
  exact (join_inj 0x7C (id_texts row1) (id_texts row2) eq_refl H1 H2 E).
Qed.


End Key.

#[local] Existing Instance Latin.runtime.

(** X21, at two rows that print the same six texts. *)
Lemma id_key_determines_texts_without_bar_witness :
  id_texts PLAIN_ROW_1 = id_texts PLAIN_ROW_2.
Proof.
  apply id_key_determines_texts_without_bar.
  - refine (bool_decide_unpack _ _). vm_compute. exact I.
  - refine (bool_decide_unpack _ _). vm_compute. exact I.
  - vm_compute. reflexivity.
Defined.


End LoadExtras.

(** ** The test suite of the repository, run on the model *)

Module Tests.

#[local] Existing Instance Latin.runtime.

Ltac run_test := vm_compute; reflexivity.

(** The float model against the binary64 operations of the Standard
    Library. *)
Example float_tenth :
  Float.of_ratio 1 10 = FFin false (7205759403792794 * 2 ^ 1018).
Proof. run_test. Qed.

Example float_mul_agrees_1 :
  SpecFloat.SFmul 53 1024 (Float.to_spec (Float.of_ratio 7 10))
                          (Float.to_spec (Float.of_Z 1000))
  = Float.to_spec (Float.mul (Float.of_ratio 7 10) (Float.of_Z 1000)).
Proof. run_test. Qed.

Example float_mul_agrees_2 :
  SpecFloat.SFmul 53 1024 (Float.to_spec (Float.of_ratio 12345678 1000))
                          (Float.to_spec (Float.of_Z 1000000000))
  = Float.to_spec (Float.mul (Float.of_ratio 12345678 1000)
                             (Float.of_Z 1000000000)).
Proof. run_test. Qed.

Example float_mul_agrees_3 :
  SpecFloat.SFmul 53 1024 (Float.to_spec (Float.of_ratio 1 (10 ^ 320)))
                          (Float.to_spec (Float.of_ratio 3 10))
  = Float.to_spec (Float.mul (Float.of_ratio 1 (10 ^ 320))
                             (Float.of_ratio 3 10)).
Proof. run_test. Qed.

Example float_overflow :
  Float.mul (Float.of_ratio (10 ^ 308) 1) (Float.of_Z 1000) = FInf false.
Proof. run_test. Qed.

(** tests/test_salary.py *)
Example test_salary_range :
  parse_salary (VStr (u "10 - 20 triệu"))
  = Ok (Some (Float.of_Z 10000000), Some (Float.of_Z 20000000), u "VND",
        u "range").
Proof. run_test. Qed.

Example test_salary_floor :
  parse_salary (VStr (u "từ 15 triệu"))
  = Ok (Some (Float.of_Z 15000000), None, u "VND", u "floor").
Proof. run_test. Qed.

Example test_salary_ceiling :
  parse_salary (VStr (u "đến 30 triệu"))
  = Ok (None, Some (Float.of_Z 30000000), u "VND", u "ceiling").
Proof. run_test. Qed.

Example test_salary_point_usd :
  parse_salary (VStr (u "2000 USD"))
  = Ok (Some (Float.of_Z 2000), Some (Float.of_Z 2000), u "USD", u "point").
Proof. run_test. Qed.

Example test_salary_point_k :
  parse_salary (VStr (u "15k USD"))
  = Ok (Some (Float.of_Z 15000), Some (Float.of_Z 15000), u "USD", u "point").
Proof. run_test. Qed.

Example test_salary_negotiable :
  parse_salary (VStr (u "Thoả thuận"))
  = Ok (None, None, u "VND", u "negotiable").
Proof. run_test. Qed.

Example test_salary_empty :
  parse_salary (VStr (u "")) = Ok (None, None, u "VND", u "empty").
Proof. run_test. Qed.

(** The comma is read as a decimal point. *)
Example salary_decimal_comma :
  parse_salary (VStr (u "1,500 - 2.000,5 usd"))
  = Ok (Some (Float.of_ratio 15 10), Some (Float.of_Z 2), u "USD", u "range").
Proof. run_test. Qed.

(** tests/test_address.py *)
Example test_split_address_joined_single_pair :
  split_address_joined (VStr (u "Hồ Chí Minh: Quận 10")) None true
  = Ok (Some (u "Hồ Chí Minh"), Some (u "Quận 10")).
Proof. run_test. Qed.

Example test_format_pairs_multiple :
  format_pairs (VStr (u "Hà Nội, Cầu Giấy; Hồ Chí Minh: Bình Thạnh"))
  = Ok (Some (u "Hà Nội, Cầu Giấy và Hồ Chí Minh, Bình Thạnh")).
Proof. run_test. Qed.

(** A district before its city is turned round, and aliases and
    prefixed names are replaced by the canonical name. *)
Example address_orientation :
  split_address_all_pairs (VStr (u "Quận 1, HCM; tp Hải Dương: Hải Dương"))
  = Ok [(Some (u "TP. Hồ Chí Minh"), Some (u "Quận 1"));
        (Some (u "Hải Dương"), Some (u "Hải Dương"))].
Proof. run_test. Qed.

(** A trailing token without a partner is dropped. *)
Example address_odd_tokens :
  split_address_all_pairs (VStr (u "Hà Nội, Cầu Giấy, Đống Đa"))
  = Ok [(Some (u "Hà Nội"), Some (u "Cầu Giấy"))].
Proof. run_test. Qed.

(** The administrative prefix is matched without regard to case. *)
Example strip_admin_prefix_cases :
  _strip_admin_prefix (u "TP. Hà Nội") = Ok (u "Hà Nội")
  /\ _strip_admin_prefix (u "THÀNH PHỐ Đà Nẵng") = Ok (u "Đà Nẵng")
  /\ _strip_admin_prefix (u "Tỉnh  An Giang") = Ok (u "An Giang")
  /\ _strip_admin_prefix (u "tp.") = Ok (u "tp.")
  /\ _canon_city (Some (u "Thành phố Hồ Chí Minh"))
     = Ok (Some (u "Hồ Chí Minh"))
  /\ _canon_city (Some (u "sài gòn")) = Ok (Some (u "TP. Hồ Chí Minh")).
Proof. repeat split; run_test. Qed.

(** tests/test_job_title.py *)
Example test_grouping_backend :
  _job_group (VStr (u "Python Backend Engineer")) = Ok (u "backend_engineer")
  /\ collapse_map !! u "backend_engineer" = Some (u "software_engineering").
Proof. split; run_test. Qed.

Example test_grouping_frontend :
  _job_group (VStr (u "React Frontend Developer")) = Ok (u "frontend_engineer").
Proof. run_test. Qed.

Example test_grouping_fullstack :
  _job_group (VStr (u "Fullstack Developer")) = Ok (u "fullstack_engineer").
Proof. run_test. Qed.

Example test_grouping_infra :
  _job_group (VStr (u "IT Infra Lead")) = Ok (u "devops_sre_cloud")
  /\ collapse_map !! u "devops_sre_cloud" = Some (u "infra_cloud").
Proof. split; run_test. Qed.

Example test_grouping_analyst :
  _job_group (VStr (u "Business Analyst")) = Ok (u "data_analyst_bi")
  /\ collapse_map !! u "data_analyst_bi" = Some (u "data").
Proof. split; run_test. Qed.

Example test_grouping_qa :
  _job_group (VStr (u "QA Automation Engineer")) = Ok (u "qa_testing").
Proof. run_test. Qed.

Example grouping_vietnamese :
  _job_group (VStr (u "Lập trình viên")) = Ok (u "software_engineer_general").
Proof. run_test. Qed.

Example grouping_other :
  _job_group (VStr (u "Nhân viên kinh doanh")) = Ok (u "other_it").
Proof. run_test. Qed.

Example test_seniority_senior :
  _job_seniority (VStr (u "Senior Backend Engineer")) = Ok (u "senior").
Proof. run_test. Qed.

Example test_seniority_junior :
  _job_seniority (VStr (u "Junior QA Tester")) = Ok (u "junior").
Proof. run_test. Qed.

Example test_seniority_lead :
  _job_seniority (VStr (u "Tech Lead (Platform)")) = Ok (u "lead").
Proof. run_test. Qed.

Example test_seniority_manager :
  _job_seniority (VStr (u "Engineering Manager")) = Ok (u "manager").
Proof. run_test. Qed.

Example test_seniority_intern :
  _job_seniority (VStr (u "Intern Data Analyst")) = Ok (u "intern").
Proof. run_test. Qed.

Example norm_job_text_tokens :
  _norm_job_text (VStr (u "C++/C# .NET Node.js (Tech-Lead)"))
  = Ok (u "cpp csharp dotnet nodejs tech lead").
Proof. run_test. Qed.

(** A table with the three columns passes the schema check; every record
    is then enriched, which shows in the trace. *)
Example transform_one_row :
  transform true
    [(u "job_title", [VStr (u "QA Engineer")]);
     (u "address", [VStr (u "Hà Nội, Cầu Giấy")]);
     (u "salary", [VFloat FNan])] (u "na") 0
  = (Ok [(u "job_title", [VStr (u "QA Engineer")]);
         (u "address", [VStr (u "Hà Nội, Cầu Giấy")]);
         (u "salary", [VFloat FNan]);
         (u "min_salary", [VFloat FNan]);
         (u "max_salary", [VFloat FNan]);
         (u "salary_unit", [VStr (u "VND")]);
         (u "salary_note", [VStr (u "empty")]);
         (u "city", [VStr (u "Hà Nội")]);
         (u "district", [VStr (u "Cầu Giấy")]);
         (u "city_district_pairs_str", [VStr (u "Hà Nội, Cầu Giấy")]);
         (u "job_title_group", [VStr (u "qa_testing")]);
         (u "job_seniority", [VStr (u "unknown")]);
         (u "job_title_group_big", [VStr (u "qa_testing")])],
     [Enriched (u "parse_salary") (VFloat FNan);
      Enriched (u "split_address_joined") (VStr (u "Hà Nội, Cầu Giấy"));
      Enriched (u "format_pairs") (VStr (u "Hà Nội, Cầu Giấy"));
      Enriched (u "_job_group") (VStr (u "QA Engineer"));
      Enriched (u "_job_seniority") (VStr (u "QA Engineer"))]).
Proof. run_test. Qed.

End Tests.
